(* ===== verification/_CoqProject ===== *)
-Q . S2P
Prelude.v
NodePath.v
NodeFs.v
Canon.v
StorageUtils.v
FileStorageInterface.v
LocalFileStorage.v
LocalRefinement.v
Traces.v
FilesRoute.v
SourceUrl.v
Concurrency.v
Races.v
Persistence.v
RouteRaces.v
RouteSafety.v
