(* ===== verification/Prelude.v ===== *)
(** * A verification development of the local file storage of better-chatbot

    The repository part modelled here is the object-storage layer of the
    application: [src/src/lib/file-storage/local-file-storage.ts] (the local
    filesystem backend of the [FileStorage] interface) and
    [src/src/app/api/storage/files/[...path]/route.ts] (the HTTP handler that
    streams a stored object back to a client).

    ** The program and how its parts interact

    - [createLocalFileStorage] reads its configuration once (the storage
      directory [UPLOAD_STORAGE_PATH], default ["./uploads"]; the public base
      URL [BETTER_AUTH_URL] or [NEXT_PUBLIC_APP_URL]; the module-level
      [STORAGE_PREFIX]) and returns an object with eight async operations:
      [upload], [createUploadUrl], [download], [delete], [exists],
      [getMetadata], [getSourceUrl], [getDownloadUrl].  All of them go
      through [getFilePath key = path.join(storagePath, key)] to the disk.
    - [buildKey] makes the key of an upload: a sanitized filename behind a
      fresh UUID, under the optional prefix, joined with [path.posix.join].
    - The route [GET /api/storage/files/<segments>] joins the decoded path
      segments with ["/"] into a key, asks the configured backend for the
      metadata and the bytes concurrently ([Promise.all]) and answers 200
      with headers, 404, 400 or 500.

    ** Files, in dependency order (see _CoqProject)

    - [Prelude] (this file): the result type and the state-and-error monad
      [ST] that models [async] code ([await] is [let!]; a rejected promise is
      [Err]; state changes made before an error are kept, as on a real disk),
      string helpers shared by every component (splitting on a character,
      JavaScript truthiness of a string), the [storage] hint database and the
      tactics of the development.
    - [NodePath]: Node's [path.posix] as the code calls it: [normalize],
      [join], [basename], [dirname], [extname], written from Node's
      algorithms, with the lemmas on normalised segments that the
      path-safety theorems use.  This is the platform, not repository code:
      it is the environment the repository's definitions are run in.
    - [NodeFs]: [node:fs/promises] and [existsSync] as a state: a finite map
      from canonical paths to files (bytes, mtime) and directories, a map of
      injected faults (a path whose every access fails with an errno such as
      EACCES or EIO, so that "other errors propagate" is a theorem and not a
      vacuous statement) and a clock.
    - [StorageUtils]: the helpers the backend imports from
      [storage-utils.ts] and [lib/utils] (not under src/: modelled from the
      spec and stated as an interface, the class [KeyPrimitives], with its
      contract), [encodeURI] and [String.prototype.toLowerCase] on code
      points below 256, and the extension table of [getMetadata].
    - [FileStorageInterface]: the interface file's types (modelled from the
      spec) and the class [StorageContract]: what any backend promises its
      clients, over an abstract store (a finite map from well-formed keys
      to bytes) and an abstraction relation with the backend's state.
    - [LocalFileStorage]: the backend.  Its state ([world]) is the disk, the
      position on the UUID tape and the logger's output; each operation of
      the returned object is one definition in [ST world exn], with the
      lemmas on each branch of each operation and the frame relations
      ([preserves], [keeps_entries]) that say what a step leaves in place.
    - [LocalRefinement]: the abstraction [local_abs] between a store and a
      world, and the proof that the local backend is an instance of
      [StorageContract] (a forward simulation, one operation at a time,
      failed calls included).
    - [Traces]: sequences of calls ([exec] over a list of [op]) and their
      abstract semantics ([astep], [atrace], inductive relations), the
      simulation of every run by an abstract run, and what follows for
      whole runs of the local backend.
    - [FilesRoute]: the [GET] handler, with [Promise.all] over two
      operations modelled with an explicit completion order, proved both
      against the local backend and against the contract; its answer once
      both reads resolved ([respond], lines 41-55) and its [catch]
      ([serve_error], lines 56-66) are definitions of their own.
    - [Canon]: canonical paths as lists of segments ([canon_of]): the
      writing is read back exactly, so canonical paths are equal exactly
      when their segments are, and [normalize], [join], [dirname],
      [parent] and the ancestors [fs.mkdir] walks act on segments.
    - [SourceUrl]: [decodeURIComponent] and the path of a URL as Next.js
      splits it, with the round trip from [getPublicUrl] back to the
      route's segments.
    - [Concurrency]: the calls in flight interleaved at their [await]s.  A
      [thread] is a call not yet started, an [upload] suspended at one of
      its [await]s (the phase [uphase]: in the recursive [fs.mkdir] of the
      storage directory, after [ensureStorageDir], in the recursive
      [fs.mkdir] of the key directory, at the write) or a settled call.
      [seg] is the code of [local-file-storage.ts] between two [await]s
      ([upload_start], [ensure_step], [buffer_step], [mkdir_step],
      [upload_finish]); each [mkdir] system call of a recursive [fs.mkdir]
      is one step ([NodeFs.mkdir_one]).  [cstep] runs one segment of any
      call; [run_sched] runs a schedule.
    - [Races]: the places an upload touches ([dir_path], [file_path]), how
      a step may change the disk ([NodeFs.evolves]), the shape of the disk
      that lets uploads through ([disk_ok]) and what each suspended upload
      has established ([thread_inv]), kept by every step of every call.
    - [Persistence]: the one existing entry a step may change
      ([step_place]: the file its write or its delete names), the keys the
      calls in flight have drawn ([drawn], distinct by [keys_inv]), the
      call each thread runs with the type of its answer ([thread_of],
      [reply_fits]), and the files of resolved uploads ([stored_inv]).
    - [RouteRaces]: [GET] requests as threads beside the calls
      ([request]: not started, waiting for the reads of [Promise.all]
      with those resolved so far, answered).  [req_seg] is the code a
      request runs when it starts and when its [fs.stat] or its
      [fs.readFile] completes, composed from [respond] and [serve_error];
      [gstep] runs a segment of a call or a read of a request.
    - [RouteSafety]: what the requests may be served while calls run: the
      invariant [sinv] of every configuration reached from calls and
      requests (every file on disk is the file of a resolved upload with
      its bytes, no directory where an upload's file goes, each thread's
      remaining [mkdir]s aimed at ancestors of the key directory, each
      request's reads so far consistent with these), and the invariant
      [finv] under which no read of a request can fail but for a missing
      file.

    ** What the theorems show

    - Path model: joining the storage root with a key made only of safe
      segments stays under the root; [normalize] and [join] agree with the
      segment algebra.
    - Backend: upload-then-download round trip; download on a missing file
      fails with [FileNotFoundError] and every other failure propagates
      unchanged; delete is idempotent; exists and getMetadata answer
      "absent" for a missing key; the metadata is computed from the stat and
      the extension table; the result of an upload; two uploads get
      distinct keys; every key built by [buildKey] resolves under the
      storage root.
    - Refinement: the local backend meets the [FileStorage] contract
      ([local_refines_contract]); every run of calls from an empty disk is
      a run of the abstract store with the same answers
      ([local_exec_refines]); hence an uploaded file keeps its bytes until
      its key is deleted, whatever else the run does
      ([local_stored_until_deleted]), and the keys of a run's uploads never
      repeat ([local_upload_keys_distinct]).
    - Route: the status of every branch (400 on an empty key, 404 for another
      driver, for a missing file or for the race between the metadata check
      and the read, 500 for any other failure, 200 with the headers
      otherwise); the answer does not depend on the completion order of the
      two concurrent reads; against any backend meeting the contract, a
      stored key is served with its bytes and an unstored one never is;
      and, as a finding, a request whose segments contain [".."] is
      answered with the bytes of a file outside the storage root, while
      for segments that are plain names a 200 answer carries the bytes of
      the file the route builds, which lies under the storage root
      ([GET_safe_path_within_root]).
    - URLs: the source URL of a key decodes, as Next.js decodes it, to the
      key's segments, so the route serves what an upload stored; as a
      finding, a key with ["?"] or ["#"] does not come back.
    - Concurrency: with a storage path and prefix of safe segments and a
      disk with nothing in the way, uploads raced by other uploads (both
      testing and making the same directories), by deletes of any key and
      by reads never fail ([uploads_never_fail]) and, in every
      interleaving that can go no further, all have completed with their
      result ([uploads_succeed]).
    - Persistence: from any disk and with any faults, once an upload has
      resolved with key [k], every later configuration serves its bytes
      for [k] unless a call deletes [k] ([uploads_persist]).
    - Requests in the interleaving: a request run alone answers exactly
      what [GET] answers for the same completion order ([req_run_equiv]);
      under any interleaving, a request for the key of an upload that had
      resolved is served the uploaded bytes with a [Content-Length] equal
      to their count, unless a call deletes the key
      ([get_serves_upload]); from a disk with no file, whatever the
      faults and whatever the calls (deletes of any key included), a 200
      answer always carries the bytes of a resolved upload whose file is
      the file asked for, with a [Content-Length] equal to their count:
      a delete or an upload racing the two reads never yields the bytes
      of one file with the headers of another
      ([get_serves_only_uploads]); on a disk with no fault at the file
      asked for, a request for a key of the shape uploads draw is
      answered 200 or 404, never 500, whatever calls race its two reads
      ([get_found_or_404]); and calls and requests never deadlock
      ([gstuck_all_done]).

    ** Bounds and fuel

    No definition needs fuel: every function is structural on a string or a
    list.  Schedules of calls ([run_sched]) and completion orders of a
    request's reads ([run_req]) are finite lists, so concrete interleavings
    evaluate; the theorems on interleavings hold along every finite run of
    the step relations ([rtc]), and the liveness theorems are about the
    configurations where nothing can step.  Sizes are [nat] (JavaScript numbers are exact up to 2^53, far
    above the size of any file a Node buffer holds).  Code points are the
    eight-bit characters of Rocq's [ascii]; [encodeURI] and [toLowerCase] are
    written for that whole range.

    ** Not modelled

    The remote backends (S3, Vercel Blob) and the upload endpoint, which are
    outside src/; Next.js routing and URL decoding (the handler is given the
    decoded segments, as Next.js gives [params.path]); the logger's
    formatting beyond the message text; wall-clock time, which is a counter.
    In the interleaving, [fs.writeFile] is one atomic step (its open, write
    and close are not separated): only a client that guessed the random
    UUID of a key could read its file before the upload answers it, so
    [get_serves_only_uploads] is stated for this granularity.  Likewise a [mkdir] system call does not check
    that its parent exists (the recursive [fs.mkdir] makes the ancestors
    top first and no call removes a directory, so the parent is always
    there).  When one read of a request rejects, the request answers at
    once and the other read is not a step of its own: it only reads.

    ** What remains

    Every function of [local-file-storage.ts] and of the route is
    modelled; the lines of those files the map leaves out are imports,
    blank lines and closing braces.  What the development does not
    model is listed above: it lies outside src/ (the remote backends,
    the upload endpoint, the helpers of [storage-utils.ts], Next.js) or
    below the granularity of Node's API as the code uses it
    ([fs.writeFile] as one step). *)

From stdpp Require Export base strings list gmap.
From Stdlib Require Export String Ascii ZArith Lia.

Declare Scope async_scope.
Delimit Scope async_scope with async.

Create HintDb storage.
Create Rewrite HintDb storage_rw.

(** ** Results and the state-and-error monad *)

Inductive result (A E : Type) : Type :=
| Ok (a : A)
| Err (e : E).
Arguments Ok {A E} a.
Arguments Err {A E} e.

(** An [async] computation over a state [S] that may reject with [E]. The
    state is returned on both paths: an [await] that throws does not undo
    what earlier [await]s did. *)
Definition ST (S E A : Type) : Type := S -> result A E * S.

Section Monad.
Context {S E : Type}.

Definition ret {A} (a : A) : ST S E A := fun s => (Ok a, s).

Definition throw {A} (e : E) : ST S E A := fun s => (Err e, s).

Definition bind {A B} (m : ST S E A) (k : A -> ST S E B) : ST S E B :=
  fun s => match m s with
         | (Ok a, s') => k a s'
         | (Err e, s') => (Err e, s')
         end.

(** [try { m } catch (e) { h(e) }] *)
Definition catch {A} (m : ST S E A) (h : E -> ST S E A) : ST S E A :=
  fun s => match m s with
         | (Ok a, s') => (Ok a, s')
         | (Err e, s') => h e s'
         end.

Definition get : ST S E S := fun s => (Ok s, s).
Definition modify (f : S -> S) : ST S E unit := fun s => (Ok tt, f s).

Lemma bind_ret_l {A B} (a : A) (k : A -> ST S E B) s :
  bind (ret a) k s = k a s.
Proof. reflexivity. Qed.

Lemma bind_throw {A B} (e : E) (k : A -> ST S E B) s :
  bind (throw e) k s = (Err e, s).
Proof. reflexivity. Qed.

Lemma bind_ok {A B} (m : ST S E A) (k : A -> ST S E B) s a s' :
  m s = (Ok a, s') -> bind m k s = k a s'.
Proof. unfold bind. by intros ->. Qed.

Lemma bind_err {A B} (m : ST S E A) (k : A -> ST S E B) s e s' :
  m s = (Err e, s') -> bind m k s = (Err e, s').
Proof. unfold bind. by intros ->. Qed.

Lemma catch_ok {A} (m : ST S E A) h s a s' :
  m s = (Ok a, s') -> catch m h s = (Ok a, s').
Proof. unfold catch. by intros ->. Qed.

Lemma catch_err {A} (m : ST S E A) h s e s' :
  m s = (Err e, s') -> catch m h s = h e s'.
Proof. unfold catch. by intros ->. Qed.

Lemma bind_assoc {A B C} (m : ST S E A) (k : A -> ST S E B)
    (k' : B -> ST S E C) s :
  bind (bind m k) k' s = bind m (fun a => bind (k a) k') s.
Proof. unfold bind. by destruct (m s) as [[a|e] s']. Qed.

(** A computation that succeeded went through each of its steps. *)
Lemma bind_Ok_inv {A B} (m : ST S E A) (k : A -> ST S E B) s b s' :
  bind m k s = (Ok b, s') -> exists a s1, m s = (Ok a, s1) /\ k a s1 = (Ok b, s').
Proof. unfold bind. destruct (m s) as [[a|e] s1]; [eauto|done]. Qed.

Lemma catch_Ok_inv {A} (m : ST S E A) h s a s' :
  catch m h s = (Ok a, s') ->
  m s = (Ok a, s') \/ exists e s1, m s = (Err e, s1) /\ h e s1 = (Ok a, s').
Proof. unfold catch. destruct (m s) as [[b|e] s1]; [naive_solver|eauto]. Qed.

End Monad.

(** Peel the first step off a hypothesis [bind m k s = (Ok _, _)]. *)
Ltac peel H := apply bind_Ok_inv in H as (?&?&?&H).

Notation "'let!' x ':=' c 'in' k" := (bind c (fun x => k))
  (at level 10, x name, c at level 100, k at level 200) : async_scope.
Notation "c ';;!' k" := (bind c (fun _ => k))
  (at level 100, right associativity) : async_scope.

#[export] Hint Rewrite @bind_ret_l @bind_throw : storage_rw.

(** ** Strings *)

Local Open Scope string_scope.

(** [s.split(c)] of JavaScript: always at least one piece. *)
Fixpoint split_on (c : ascii) (s : string) : list string :=
  match s with
  | EmptyString => [""]
  | String a s' =>
      let rest := split_on c s' in
      if decide (a = c) then "" :: rest
      else match rest with
           | h :: t => String a h :: t
           | [] => [String a ""]
           end
  end.

(** [xs.join(c)] of JavaScript. *)
Definition join_on (c : ascii) (l : list string) : string :=
  String.concat (String c "") l.

(** The truthiness of a string-valued expression in [a || b]: [undefined]
    and the empty string are falsy. *)
Definition js_or (o : option string) (d : string) : string :=
  match o with
  | Some s => if decide (s = "") then d else s
  | None => d
  end.

(** Every character of a string satisfies a decidable test. *)
Fixpoint str_forall (p : ascii -> bool) (s : string) : bool :=
  match s with
  | EmptyString => true
  | String a s' => p a && str_forall p s'
  end.

Definition str_has (c : ascii) (s : string) : bool :=
  negb (str_forall (fun a => negb (bool_decide (a = c))) s).

Definition list_of_string (s : string) : list ascii := list_ascii_of_string s.

(** ** Shared lemmas *)

Lemma split_on_nonempty c s : split_on c s <> [].
Proof.
  destruct s as [|a s]; simpl; [done|].
  case_decide; [done|]. by destruct (split_on c s).
Qed.

Lemma concat_cons_sep c h t :
  t <> [] -> String.concat (String c "") (h :: t) =
             h ++ String c (String.concat (String c "") t).
Proof. by destruct t. Qed.

Lemma string_app_nil_r s : s ++ "" = s.
Proof. induction s as [|a s IH]; [done|]. exact (f_equal (String a) IH). Qed.

Lemma string_app_cons a s1 s2 : String a s1 ++ s2 = String a (s1 ++ s2).
Proof. reflexivity. Qed.

#[export] Hint Rewrite string_app_cons : storage_rw.

(** Joining the pieces of [s.split(c)] with [c] gives [s] back. *)
Lemma join_split c s : join_on c (split_on c s) = s.
Proof.
  unfold join_on. induction s as [|a s IH]; [done|]. simpl.
  pose proof (split_on_nonempty c s) as Hne.
  case_decide as Hac.
  - subst. rewrite concat_cons_sep by done. by rewrite IH.
  - destruct (split_on c s) as [|h t] eqn:E; [done|].
    destruct t as [|h' t].
    + simpl in *. by rewrite IH.
    + rewrite concat_cons_sep in IH by done.
      rewrite concat_cons_sep by done. by rewrite string_app_cons, IH.
Qed.

Lemma str_forall_app p s1 s2 :
  str_forall p (s1 ++ s2) = str_forall p s1 && str_forall p s2.
Proof. induction s1; simpl; [done|]. rewrite IHs1. by rewrite andb_assoc. Qed.

#[export] Hint Rewrite str_forall_app : storage_rw.

(** Splitting a string that does not contain [c] gives it back alone. *)
Lemma split_on_no_sep c s :
  str_has c s = false -> split_on c s = [s].
Proof.
  unfold str_has. induction s as [|a s IH]; simpl; [done|].
  intros H. apply negb_false_iff, andb_prop in H as [Ha Hs].
  case_decide; [subst; rewrite bool_decide_eq_true_2 in Ha; done|].
  rewrite IH; [done|]. by rewrite Hs.
Qed.

(** The separator at the seam of two strings separates their pieces. *)
Lemma split_on_app_sep c s1 s2 :
  split_on c (s1 ++ String c s2) = (split_on c s1 ++ split_on c s2)%list.
Proof.
  induction s1 as [|a s1 IH]; simpl.
  - by rewrite decide_True.
  - rewrite IH. case_decide; [done|].
    destruct (split_on c s1) as [|h t] eqn:E; [by apply split_on_nonempty in E|].
    done.
Qed.

(** No piece of [s.split(c)] contains [c]. *)
Lemma split_on_pieces c s : Forall (fun x => str_has c x = false) (split_on c s).
Proof.
  unfold str_has. induction s as [|a s IH]; simpl; [by repeat constructor|].
  case_decide as Hac; [by constructor|].
  destruct (split_on c s) as [|h t] eqn:E; [by apply split_on_nonempty in E|].
  inversion IH as [|? ? Hh Ht]; subst. constructor; [|done]. simpl.
  rewrite bool_decide_eq_false_2 by done. simpl.
  apply negb_false_iff in Hh. by rewrite Hh.
Qed.

(** Splitting a join of pieces free of [c] gives the pieces back. *)
Lemma split_join c l :
  l <> [] -> Forall (fun s => str_has c s = false) l ->
  split_on c (join_on c l) = l.
Proof.
  unfold join_on. induction l as [|h t IH]; [done|]. intros _ Hall.
  inversion Hall as [|? ? Hh Ht]; subst.
  destruct t as [|h' t].
  - simpl. by apply split_on_no_sep.
  - rewrite concat_cons_sep by done.
    rewrite split_on_app_sep, split_on_no_sep by done. f_equal. by apply IH.
Qed.

Lemma string_app_assoc s1 s2 s3 : (s1 ++ s2) ++ s3 = s1 ++ (s2 ++ s3).
Proof. induction s1 as [|a s1 IH]; [done|]. exact (f_equal (String a) IH). Qed.

#[export] Hint Rewrite string_app_assoc : storage_rw.

Lemma join_on_app c l1 l2 :
  l1 <> [] -> l2 <> [] ->
  join_on c (l1 ++ l2)%list = join_on c l1 ++ String c (join_on c l2).
Proof.
  unfold join_on. induction l1 as [|h t IH]; [done|]. intros _ Hl2.
  destruct t as [|h' t].
  - change ([h] ++ l2)%list with (h :: l2). by rewrite concat_cons_sep.
  - rewrite <- app_comm_cons, !concat_cons_sep by (try done; by destruct t).
    rewrite IH by done. by rewrite string_app_assoc.
Qed.

Lemma str_has_app c s1 s2 : str_has c (s1 ++ s2) = str_has c s1 || str_has c s2.
Proof. unfold str_has. rewrite str_forall_app. by destruct (str_forall _ s1), (str_forall _ s2). Qed.

Lemma str_has_forall (p : ascii -> bool) c s :
  str_forall p s = true -> p c = false -> str_has c s = false.
Proof.
  unfold str_has. intros Hs Hc. apply negb_false_iff.
  induction s as [|a s IH]; [done|]. simpl in *. apply andb_prop in Hs as [Ha Hs].
  rewrite IH by done. rewrite bool_decide_eq_false_2; [done|]. congruence.
Qed.

Lemma list_ascii_of_string_app s1 s2 :
  list_ascii_of_string (s1 ++ s2) = (list_ascii_of_string s1 ++ list_ascii_of_string s2)%list.
Proof. induction s1 as [|a s1 IH]; [done|]. simpl. by rewrite IH. Qed.

Lemma string_app_inv_r s s1 s2 : s1 ++ s = s2 ++ s -> s1 = s2.
Proof.
  intros H. apply (f_equal list_ascii_of_string) in H.
  rewrite !list_ascii_of_string_app in H. apply app_inv_tail in H.
  by rewrite <- (string_of_list_ascii_of_string s1), H, string_of_list_ascii_of_string.
Qed.

Lemma string_app_inv_l s s1 s2 : s ++ s1 = s ++ s2 -> s1 = s2.
Proof. induction s as [|a s IH]; [done|]. intros [= H]. by apply IH. Qed.

(** Splitting a string that starts with a piece free of [c]: the piece
    opens the first part. *)
Lemma split_on_app_nosep c x t :
  str_has c x = false ->
  split_on c (x ++ t) =
  match split_on c t with h :: tl => (x ++ h) :: tl | [] => [x] end.
Proof.
  unfold str_has. induction x as [|a x IH]; intros Hx; simpl.
  - change ("" ++ t) with t. pose proof (split_on_nonempty c t). by destruct (split_on c t).
  - simpl in Hx. apply negb_false_iff in Hx. apply andb_prop in Hx as [Ha Hx].
    rewrite decide_False by (intros ->; by rewrite bool_decide_true in Ha).
    rewrite IH by (by apply negb_false_iff). by destruct (split_on c t).
Qed.

(** A test that holds of the 256 characters holds of every character:
    facts about single characters are checked by evaluation. *)
Lemma ascii_forall_check (p : ascii -> bool) :
  forallb (fun n => p (ascii_of_nat n)) (seq 0 256) = true -> forall a, p a = true.
Proof.
  intros H a. rewrite <- (ascii_nat_embedding a).
  apply (proj1 (forallb_forall _ _) H). apply in_seq.
  pose proof (nat_ascii_bounded a). lia.
Qed.

(** Two ways of cutting one string: one of the first parts extends the
    other. *)
Lemma string_app_eq_app a b c d :
  a ++ b = c ++ d ->
  (exists t, c = a ++ t /\ b = t ++ d) \/ (exists t, a = c ++ t /\ d = t ++ b).
Proof.
  revert c. induction a as [|x a IH]; intros c H; [left; by exists c|].
  destruct c as [|y c]; [right; by exists (String x a)|].
  injection H as -> H. destruct (IH c H) as [(t & -> & ->)|(t & -> & ->)];
    [left|right]; by exists t.
Qed.

(** ** Tactics *)

(** Unfold the monad and run a computation as far as the state allows. *)
Ltac run_st :=
  repeat (unfold bind, ret, throw, catch, get, modify in *; simpl in *).

(** Case analysis on a lookup or test the current goal branches on. *)
Ltac case_branch :=
  match goal with
  | |- context [match ?m !! ?k with _ => _ end] => destruct (m !! k) eqn:?
  | |- context [decide ?P] => destruct (decide P)
  end.
