(* ===== verification/NodePath.v ===== *)
(** * NodePath: Node's [path.posix], the environment of [getFilePath] and [buildKey]

    [path.join], [path.posix.join], [path.basename], [path.dirname] and
    [path.extname] as Node implements them ([lib/path.js], POSIX flavour,
    which is what [path] is on the Linux servers the application runs on).
    The functions are written from Node's algorithms: [normalizeString]'s
    segment loop is [norm_step] over the pieces of [p.split('/')].
    The lemmas relate a normalised path to its segments; they carry the
    path-safety theorems of [LocalFileStorage] and [FilesRoute]. *)

From S2P Require Import Prelude.

Local Open Scope string_scope.

Module NodePath.

Definition sep : ascii := "/"%char.

Definition is_abs (p : string) : bool :=
  match p with String a _ => bool_decide (a = sep) | EmptyString => false end.

Fixpoint ends_with_sep (p : string) : bool :=
  match p with
  | EmptyString => false
  | String a EmptyString => bool_decide (a = sep)
  | String _ p' => ends_with_sep p'
  end.

(** One iteration of [normalizeString]: [""] and ["."] are skipped, [".."]
    pops the last kept segment unless it is [".."] itself, and is kept only
    when the path may go above its root (a relative path). The stack holds
    the kept segments, last one first. *)
Definition norm_step (allow_above : bool) (st : list string) (seg : string)
  : list string :=
  if decide (seg = "") then st
  else if decide (seg = ".") then st
  else if decide (seg = "..") then
    match st with
    | top :: rest =>
        if decide (top = "..") then (if allow_above then ".." :: st else st)
        else rest
    | [] => if allow_above then [".."] else []
    end
  else seg :: st.

Definition normalize_segments (allow_above : bool) (segs : list string)
  : list string := reverse (foldl (norm_step allow_above) [] segs).

(** [path.posix.normalize] *)
Definition normalize (p : string) : string :=
  if decide (p = "") then "."
  else
    let abs := is_abs p in
    let trail := ends_with_sep p in
    let body := join_on sep (normalize_segments (negb abs) (split_on sep p)) in
    if decide (body = "") then (if abs then "/" else if trail then "./" else ".")
    else (if abs then String sep body else body) ++ (if trail then "/" else "").

(** [path.posix.join(...args)]: the non-empty arguments joined with ["/"],
    then normalised; ["."] when there is none. *)
Definition join (args : list string) : string :=
  match filter (fun a => a <> "") args with
  | [] => "."
  | l => normalize (join_on sep l)
  end.

(** [path.posix.basename(p)]: the last non-empty segment. *)
Definition basename (p : string) : string :=
  default "" (last (filter (fun s => s <> "") (split_on sep p))).

(** The scan of [path.posix.dirname] from the end of the path, on the
    reversed characters: the first separator met after a non-separator
    ends the directory part; index 0 is never examined. *)
Fixpoint dirname_scan (r : list ascii) (matched_slash : bool)
  : option (list ascii) :=
  match r with
  | [] | [_] => None
  | c :: rest =>
      if decide (c = sep) then
        (if matched_slash then dirname_scan rest matched_slash
         else Some (reverse rest))
      else dirname_scan rest false
  end.

(** [path.posix.dirname(p)] *)
Definition dirname (p : string) : string :=
  if decide (p = "") then "."
  else match dirname_scan (reverse (list_of_string p)) true with
       | None => if is_abs p then "/" else "."
       | Some pre =>
           if is_abs p && bool_decide (List.length pre = 1) then "//"
           else string_of_list_ascii pre
       end.

(** The split of a segment at its last dot: the characters before it and
    the characters after it. *)
Fixpoint last_dot (l : list ascii) : option (list ascii * list ascii) :=
  match l with
  | [] => None
  | c :: l' =>
      match last_dot l' with
      | Some (pre, post) => Some (c :: pre, post)
      | None => if decide (c = "."%char) then Some ([], l') else None
      end
  end.

(** [path.posix.extname(p)]: from the last dot of the last segment, unless
    that dot is the segment's first character or the segment is [".."]. *)
Definition extname (p : string) : string :=
  match last_dot (list_of_string (basename p)) with
  | None => ""
  | Some ([], _) => ""
  | Some (c :: pre, post) =>
      if decide (c = "."%char /\ pre = [] /\ post = []) then ""
      else String "." (string_of_list_ascii post)
  end.

(** ** Segments and the storage root *)

(** A segment a normalised path keeps as it is. *)
Definition safe_seg (s : string) : Prop := s <> "" /\ s <> "." /\ s <> "..".

#[export] Instance safe_seg_dec s : Decision (safe_seg s).
Proof. unfold safe_seg. apply _. Defined.

Definition path_segs (p : string) : list string :=
  normalize_segments (negb (is_abs p)) (split_on sep p).

(** The canonical spelling of a path: the name under which the filesystem
    knows the entry it denotes (["./uploads/"] and ["uploads"] are one
    directory). *)
Definition canon (p : string) : string :=
  let S := path_segs p in
  if is_abs p then String sep (join_on sep S)
  else if decide (S = []) then "." else join_on sep S.

(** The path [p] names an entry strictly below the directory [root]: it has
    the root's segments and at least one more, none of which climbs up. *)
Definition within_root (root p : string) : Prop :=
  is_abs p = is_abs root /\
  exists rest, rest <> [] /\ Forall safe_seg rest /\
               path_segs p = (path_segs root ++ rest)%list.

(** ** Lemmas *)

Lemma norm_steps_safe allow st l :
  Forall safe_seg l -> foldl (norm_step allow) st l = (reverse l ++ st)%list.
Proof.
  revert st. induction l as [|s l IH]; intros st Hl; [done|].
  inversion Hl as [|? ? [H1 [H2 H3]] Hl']; subst. simpl.
  unfold norm_step at 2.
  rewrite decide_False, decide_False, decide_False by done.
  rewrite IH by done. by rewrite reverse_cons, <- app_assoc.
Qed.

Lemma normalize_segments_app_safe allow l1 l2 :
  Forall safe_seg l2 ->
  normalize_segments allow (l1 ++ l2)%list = (normalize_segments allow l1 ++ l2)%list.
Proof.
  intros H. unfold normalize_segments.
  rewrite foldl_app, norm_steps_safe by done.
  by rewrite reverse_app, reverse_involutive.
Qed.

(** The stack of [normalizeString] keeps safe segments above a run of
    [".."], and the run is empty for an absolute path. *)
Definition stack_form (allow : bool) (st : list string) : Prop :=
  exists k T, st = (T ++ replicate k "..")%list /\ Forall safe_seg T /\
              (allow = false -> k = 0).

Lemma norm_step_form allow st seg :
  stack_form allow st -> stack_form allow (norm_step allow st seg).
Proof.
  intros (k & T & -> & HT & Hk). unfold norm_step.
  case_decide; [by exists k, T|]. case_decide; [by exists k, T|].
  case_decide.
  - destruct T as [|t T].
    + destruct k as [|k]; simpl.
      * destruct allow; [exists 1, [] | exists 0, []]; naive_solver.
      * try rewrite decide_True by done.
        destruct allow; [|by specialize (Hk eq_refl)].
        exists (S (S k)), []. naive_solver.
    + inversion HT as [|? ? (? & ? & ?) ?]; subst. simpl.
      rewrite decide_False by done. by exists k, T.
  - exists k, (seg :: T). split; [done|]. split; [|done].
    constructor; [|done]. by repeat split.
Qed.

Lemma foldl_norm_form allow st l :
  stack_form allow st -> stack_form allow (foldl (norm_step allow) st l).
Proof.
  revert st. induction l as [|s l IH]; intros st H; [done|].
  simpl. by apply IH, norm_step_form.
Qed.

(** The segments of a normalised path: a run of [".."] (only when the path
    is relative) followed by safe segments. *)
Lemma normalize_segments_form allow l :
  exists k T, normalize_segments allow l = (replicate k ".." ++ T)%list /\
              Forall safe_seg T /\ (allow = false -> k = 0).
Proof.
  destruct (foldl_norm_form allow [] l) as (k & T & HE & HT & Hk).
  { exists 0, []. naive_solver. }
  exists k, (reverse T). unfold normalize_segments. rewrite HE.
  rewrite reverse_app, reverse_replicate. split; [done|]. split; [|done].
  by apply Forall_reverse.
Qed.

Lemma norm_steps_dotdot j k :
  foldl (norm_step true) (replicate j "..") (replicate k "..") =
  replicate (j + k) "..".
Proof.
  revert j. induction k as [|k IH]; intros j; simpl; [by rewrite Nat.add_0_r|].
  replace (norm_step true (replicate j "..") "..") with (replicate (S j) "..").
  - rewrite IH. by rewrite Nat.add_succ_r.
  - by destruct j.
Qed.

(** A list of segments in normal form is left as it is. *)
Lemma normalize_segments_fixed allow k T :
  (allow = false -> k = 0) -> Forall safe_seg T ->
  normalize_segments allow (replicate k ".." ++ T)%list =
  (replicate k ".." ++ T)%list.
Proof.
  intros Hk HT. rewrite normalize_segments_app_safe by done. f_equal.
  destruct allow.
  - unfold normalize_segments.
    pose proof (norm_steps_dotdot 0 k) as Hd. simpl in Hd.
    by rewrite Hd, reverse_replicate.
  - by rewrite Hk.
Qed.

Lemma normalize_segments_idem allow l :
  normalize_segments allow (normalize_segments allow l) =
  normalize_segments allow l.
Proof.
  destruct (normalize_segments_form allow l) as (k & T & -> & HT & Hk).
  by apply normalize_segments_fixed.
Qed.

Section Keep.
(** A property of segments that [".."] has is kept by normalisation. *)
Context (P : string -> Prop) (HP : P "..").

Lemma norm_step_keep allow st seg :
  Forall P st -> P seg -> Forall P (norm_step allow st seg).
Proof.
  intros Hs Hseg. unfold norm_step. repeat case_decide; try done.
  - destruct st as [|top rest]; [destruct allow; by repeat constructor|].
  inversion Hs; subst. case_decide; [|done].
  destruct allow; by repeat constructor.
  - by constructor.
Qed.

Lemma normalize_segments_keep allow l :
  Forall P l -> Forall P (normalize_segments allow l).
Proof.
  intros Hl. unfold normalize_segments. apply Forall_reverse.
  assert (Forall P (@nil string)) as H0 by constructor. revert H0.
  generalize (@nil string) as st.
  induction l as [|x l IH]; intros st Hst; simpl; [done|].
  inversion Hl; subst. by apply IH, norm_step_keep.
Qed.
End Keep.

(** The pieces of a path that normalisation produces: non-empty and free of
    the separator. *)
Definition piece (s : string) : Prop := s <> "" /\ str_has sep s = false.

Lemma normalize_segments_pieces allow p :
  Forall piece (normalize_segments allow (split_on sep p)).
Proof.
  destruct (normalize_segments_form allow (split_on sep p)) as (k & T & HE & HT & _).
  apply Forall_forall. intros x Hx. split.
  - rewrite HE in Hx. apply elem_of_app in Hx as [Hx|Hx].
    + apply elem_of_replicate in Hx as [-> _]. done.
    + eapply Forall_forall in HT; [|exact Hx]. apply HT.
  - revert x Hx. apply Forall_forall.
    apply (normalize_segments_keep (fun s => str_has sep s = false)); [done|].
    apply split_on_pieces.
Qed.

Lemma join_on_nonempty c S : S <> [] -> Forall (fun s => s <> "") S -> join_on c S <> "".
Proof.
  intros Hne HS. destruct S as [|h t]; [done|]. inversion HS; subst.
  destruct t; [done|]. unfold join_on. rewrite concat_cons_sep by done.
  by destruct h.
Qed.

Lemma is_abs_app h x : h <> "" -> is_abs (h ++ x) = is_abs h.
Proof. by destruct h. Qed.

Lemma is_abs_piece h : piece h -> is_abs h = false.
Proof.
  intros [Hne Hs]. destruct h as [|a h]; [done|]. simpl.
  unfold str_has in Hs. simpl in Hs. apply bool_decide_eq_false_2.
  intros ->. by rewrite bool_decide_eq_true_2 in Hs.
Qed.

Lemma normalize_segments_empty_l allow l :
  normalize_segments allow ("" :: l) = normalize_segments allow l.
Proof. reflexivity. Qed.

Lemma normalize_segments_empty_r allow l :
  normalize_segments allow (l ++ [""])%list = normalize_segments allow l.
Proof. unfold normalize_segments. by rewrite foldl_app. Qed.

(** How a list of pieces is written back as a path by [normalize]: the
    written path has the absoluteness chosen and the same segments. *)
Lemma render_segs (abs trail : bool) S allow :
  S <> [] -> Forall piece S ->
  let body := join_on sep S in
  let out := ((if abs then String sep body else body) ++
              (if trail then "/" else ""))%string in
  is_abs out = abs /\
  normalize_segments allow (split_on sep out) = normalize_segments allow S.
Proof.
  intros Hne HS body out.
  assert (Hb : body <> "").
  { apply join_on_nonempty; [done|]. eapply Forall_impl; [done|]. by intros ? []. }
  assert (Hsplit : split_on sep body = S).
  { apply split_join; [done|]. eapply Forall_impl; [done|]. by intros ? []. }
  assert (Habs : is_abs body = false).
  { destruct S as [|h t]; [done|]. inversion HS; subst. unfold body.
    destruct t; [by apply is_abs_piece|].
    unfold join_on. rewrite concat_cons_sep by done.
    rewrite is_abs_app by (by destruct H1). by apply is_abs_piece. }
  unfold out. destruct abs, trail; simpl.
  - split; [done|]. try rewrite decide_True by done.
    change (String "/" "") with (String sep "").
    by rewrite split_on_app_sep, Hsplit, normalize_segments_empty_l,
      normalize_segments_empty_r.
  - split; [done|]. try rewrite decide_True by done.
    by rewrite string_app_nil_r, Hsplit, normalize_segments_empty_l.
  - split; [by rewrite is_abs_app|].
    change (String "/" "") with (String sep "").
    by rewrite split_on_app_sep, Hsplit, normalize_segments_empty_r.
  - rewrite string_app_nil_r. by rewrite Hsplit.
Qed.

(** [normalize] keeps the absoluteness and the segments of a path. *)
Lemma normalize_segs p :
  p <> "" -> is_abs (normalize p) = is_abs p /\ path_segs (normalize p) = path_segs p.
Proof.
  intros Hp. unfold normalize. rewrite decide_False by done.
  pose proof (normalize_segments_pieces (negb (is_abs p)) p) as HS.
  unfold path_segs at 2.
  destruct (normalize_segments (negb (is_abs p)) (split_on sep p)) as [|h t] eqn:E.
  - simpl. try rewrite decide_True by done.
    by destruct (is_abs p), (ends_with_sep p).
  - rewrite decide_False.
    2:{ apply join_on_nonempty; [done|]. eapply Forall_impl; [done|]. by intros ? []. }
    destruct (render_segs (is_abs p) (ends_with_sep p) (h :: t) (negb (is_abs p)))
      as [Habs Hsegs]; [done|done|].
    split; [done|]. unfold path_segs. rewrite Habs, Hsegs, <- E.
    apply normalize_segments_idem.
Qed.

(** A relative path that does not end with a separator and has segments is
    written by [normalize] as its segments joined with ["/"]. *)
Lemma split_normalize_rel p :
  is_abs p = false -> ends_with_sep p = false -> path_segs p <> [] ->
  split_on sep (normalize p) = path_segs p.
Proof.
  intros Ha Ht Hne. assert (Hp : p <> "") by (intros ->; done).
  pose proof (normalize_segments_pieces (negb (is_abs p)) p) as HS.
  unfold normalize, path_segs in *. rewrite decide_False by done.
  rewrite Ha, Ht in *. simpl.
  rewrite decide_False.
  2:{ apply join_on_nonempty; [done|]. eapply Forall_impl; [done|]. by intros ? []. }
  rewrite string_app_nil_r. apply split_join; [done|].
  eapply Forall_impl; [done|]. by intros ? [].
Qed.

Lemma join_two a b :
  a <> "" -> b <> "" -> join [a; b] = normalize (a ++ String sep b).
Proof.
  intros Ha Hb. unfold join. rewrite !filter_cons_True by done. by rewrite filter_nil.
Qed.

(** [path.join(root, key)] for a key made of safe segments: the root's
    segments followed by the key's. *)
Lemma join_safe_segs root key :
  root <> "" -> key <> "" -> Forall safe_seg (split_on sep key) ->
  is_abs (join [root; key]) = is_abs root /\
  path_segs (join [root; key]) = (path_segs root ++ split_on sep key)%list.
Proof.
  intros Hr Hk Hsafe. rewrite join_two by done.
  assert (Hne : (root ++ String sep key)%string <> "") by (by destruct root).
  destruct (normalize_segs _ Hne) as [-> ->].
  rewrite is_abs_app by done. split; [done|].
  unfold path_segs. rewrite is_abs_app by done.
  by rewrite split_on_app_sep, normalize_segments_app_safe.
Qed.

(** Joining the storage root with a key of safe segments names an entry
    strictly under the root. *)
Lemma join_within_root root key :
  root <> "" -> key <> "" -> Forall safe_seg (split_on sep key) ->
  within_root root (join [root; key]).
Proof.
  intros Hr Hk Hs. destruct (join_safe_segs root key) as [Ha Hp]; [done..|].
  split; [done|]. exists (split_on sep key). split; [apply split_on_nonempty|].
  by split.
Qed.

Lemma split_on_single_empty c s : split_on c s = [""] -> s = "".
Proof. intros H. rewrite <- (join_split c s), H. done. Qed.

Lemma split_abs s : is_abs s = true -> exists t, split_on sep s = "" :: t.
Proof.
  destruct s as [|a s]; [done|]. simpl. intros Ha%bool_decide_eq_true_1.
  subst. by eexists.
Qed.

Lemma split_trailing s : ends_with_sep s = true -> last (split_on sep s) = Some "".
Proof.
  induction s as [|a s IH]; [done|]. intros H.
  destruct s as [|b s'].
  - apply bool_decide_eq_true_1 in H. subst. done.
  - specialize (IH H). remember (String b s') as t0 eqn:Et. simpl.
    pose proof (split_on_nonempty sep t0) as Hne.
    case_decide.
    + destruct (split_on sep t0); [done|]. by simpl in *.
    + destruct (split_on sep t0) as [|h [|h' t]] eqn:E; [done| |].
      * simpl in IH. simplify_eq. apply split_on_single_empty in E. by subst.
      * by simpl in *.
Qed.

Lemma safe_not_abs s : Forall safe_seg (split_on sep s) -> is_abs s = false.
Proof.
  intros Hs. destruct (is_abs s) eqn:E; [|done]. apply split_abs in E as [t Et].
  rewrite Et in Hs. inversion Hs as [|? ? [? _] _]. done.
Qed.

Lemma safe_not_trailing s : Forall safe_seg (split_on sep s) -> ends_with_sep s = false.
Proof.
  intros Hs. destruct (ends_with_sep s) eqn:E; [|done]. apply split_trailing in E.
  apply last_Some in E as [l El]. rewrite El, Forall_app in Hs.
  destruct Hs as [_ Hs]. inversion Hs as [|? ? [? _] _]. done.
Qed.

Lemma ends_with_sep_app a b : b <> "" -> ends_with_sep (a ++ b) = ends_with_sep b.
Proof.
  intros Hb. induction a as [|x a IH]; [done|]. simpl.
  destruct (a ++ b) eqn:E; [by destruct a, b|]. by rewrite <- IH.
Qed.

Lemma normalize_segments_drop_empty allow l1 l2 :
  normalize_segments allow (l1 ++ "" :: l2)%list = normalize_segments allow (l1 ++ l2)%list.
Proof. unfold normalize_segments. by rewrite !foldl_app. Qed.

Lemma path_segs_safe s : Forall safe_seg (split_on sep s) -> path_segs s = split_on sep s.
Proof.
  intros Hs. unfold path_segs. rewrite safe_not_abs by done. simpl.
  pose proof (normalize_segments_app_safe true [] (split_on sep s) Hs) as E.
  simpl in E. rewrite E. reflexivity.
Qed.

(** A relative path that does not end with a separator is written by
    [normalize] as its segments joined with ["/"]. *)
Lemma normalize_as_segs s :
  is_abs s = false -> ends_with_sep s = false -> path_segs s <> [] ->
  normalize s = join_on sep (path_segs s).
Proof.
  intros Ha Ht Hne. rewrite <- (join_split sep (normalize s)).
  by rewrite split_normalize_rel.
Qed.

(** A path made only of safe segments is already normal: [normalize]
    returns it as it is. *)
Lemma normalize_safe s :
  Forall safe_seg (split_on sep s) -> normalize s = s.
Proof.
  intros Hs. rewrite normalize_as_segs, path_segs_safe, join_split; try done.
  - by apply safe_not_abs.
  - by apply safe_not_trailing.
  - rewrite path_segs_safe by done. apply split_on_nonempty.
Qed.

(** The segments of [a/b] are those of [a] and of [b]. *)
Lemma split_on_slash a b :
  split_on sep (a ++ String sep b) = (split_on sep a ++ split_on sep b)%list.
Proof. apply split_on_app_sep. Qed.

End NodePath.
