(* ===== verification/NodeFs.v ===== *)
(** * NodeFs: [node:fs/promises] and [existsSync], the disk the backend runs on

    The filesystem is a finite map from canonical paths ([NodePath.canon])
    to entries (a file with its bytes and modification time, or a
    directory), a map of injected faults (a path whose every access fails
    with the given errno: a permission problem, an I/O error) and a clock.
    The working directory ["."] and the root ["/"] always exist.

    Each primitive is written after the behaviour Node documents for it on
    Linux: which errno it rejects with, and what it changes.  A rejected
    call changes nothing.  The primitives are the environment of the
    repository's code, not part of it. *)

From S2P Require Import Prelude NodePath.

Local Open Scope string_scope.
Local Open Scope async_scope.

Module NodeFs.
Import NodePath.

Inductive errno := ENOENT | EACCES | EISDIR | ENOTDIR | EEXIST | EIO.

#[export] Instance errno_eq_dec : EqDecision errno.
Proof. solve_decision. Defined.

(** [error.code] *)
Definition errno_code (e : errno) : string :=
  match e with
  | ENOENT => "ENOENT" | EACCES => "EACCES" | EISDIR => "EISDIR"
  | ENOTDIR => "ENOTDIR" | EEXIST => "EEXIST" | EIO => "EIO"
  end.

(** [NodeJS.ErrnoException]: the code, the system call and the path. *)
Record fs_error := FsError { code : errno; syscall : string; err_path : string }.

Inductive node :=
| NFile (data : list Byte.byte) (mtime : Z)
| NDir (mtime : Z).

Record fsys := Fsys {
  fs_nodes : gmap string node;
  fs_faults : gmap string errno;
  fs_now : Z
}.

(** The result of [fs.stat]. *)
Record stats := Stats { st_size : nat; st_mtime : Z; st_is_file : bool }.

(** The size [stat] reports for a directory on ext4. *)
Definition dir_block_size : nat := 4096.

Abbreviation FS := (ST fsys fs_error).

Definition is_root_dir (k : string) : bool := bool_decide (k = "." \/ k = "/").

Definition fail {A} (e : errno) (sys p : string) : FS A :=
  throw (FsError e sys p).

(** The entry at a path, with the fault check every primitive starts with. *)
Definition entry (fs : fsys) (k : string) : option node :=
  if is_root_dir k then Some (NDir 0) else fs_nodes fs !! k.

Definition with_path {A} (sys p : string)
  (k : string -> option node -> FS A) : FS A :=
  fun fs =>
    let c := canon p in
    match fs_faults fs !! c with
    | Some e => fail e sys p fs
    | None => k c (entry fs c) fs
    end.

(** [existsSync(p)]: synchronous, never throws; any failure reads as
    [false]. *)
Definition existsSync (p : string) (fs : fsys) : bool :=
  let c := canon p in
  match fs_faults fs !! c, entry fs c with
  | None, Some _ => true
  | _, _ => false
  end.

(** [fs.readFile(p)] *)
Definition readFile (p : string) : FS (list Byte.byte) :=
  with_path "open" p (fun _ e =>
    match e with
    | Some (NFile d _) => ret d
    | Some (NDir _) => fail EISDIR "read" p
    | None => fail ENOENT "open" p
    end).

(** [fs.stat(p)] *)
Definition stat (p : string) : FS stats :=
  with_path "stat" p (fun _ e =>
    match e with
    | Some (NFile d m) => ret (Stats (List.length d) m true)
    | Some (NDir m) => ret (Stats dir_block_size m false)
    | None => fail ENOENT "stat" p
    end).

(** [fs.access(p)] with the default mode [F_OK] *)
Definition access (p : string) : FS unit :=
  with_path "access" p (fun _ e =>
    match e with
    | Some _ => ret tt
    | None => fail ENOENT "access" p
    end).

(** [fs.unlink(p)]: Linux refuses to unlink a directory with EISDIR. *)
Definition unlink (p : string) : FS unit :=
  with_path "unlink" p (fun c e =>
    match e with
    | Some (NFile _ _) =>
        modify (fun fs => Fsys (delete c (fs_nodes fs)) (fs_faults fs) (fs_now fs))
    | Some (NDir _) => fail EISDIR "unlink" p
    | None => fail ENOENT "unlink" p
    end).

(** The canonical path of the directory holding an entry. *)
Definition parent (p : string) : string := canon (dirname (canon p)).

(** [fs.writeFile(p, data)]: creates or truncates a file whose directory
    exists. *)
Definition writeFile (p : string) (data : list Byte.byte) : FS unit :=
  with_path "open" p (fun c e =>
    match e with
    | Some (NDir _) => fail EISDIR "open" p
    | _ =>
        fun fs =>
          match entry fs (parent p) with
          | Some (NDir _) =>
              (Ok tt, Fsys (<[c := NFile data (fs_now fs)]> (fs_nodes fs))
                           (fs_faults fs) (fs_now fs))
          | Some (NFile _ _) => fail ENOTDIR "open" p fs
          | None => fail ENOENT "open" p fs
          end
    end).

(** The canonical paths of a path's ancestors and of itself, top first. *)
Definition ancestors (p : string) : list string :=
  let S := path_segs p in
  map (fun i => canon ((if is_abs p then "/" else "") ++ join_on sep (take i S)))
      (seq 1 (List.length S)).

(** One iteration of the loop of [fs.mkdir(p, { recursive: true })], one
    [mkdir] system call on the ancestor [a]: an existing directory is
    passed, a missing one created, a file in the way is an error (EEXIST
    when it is [p] itself, the [last] ancestor). *)
Definition mkdir_one (p a : string) (last : bool) : FS unit := fun fs =>
  match fs_faults fs !! a with
  | Some e => fail e "mkdir" p fs
  | None =>
      match entry fs a with
      | Some (NDir _) => ret tt fs
      | Some (NFile _ _) => fail (if last then EEXIST else ENOTDIR) "mkdir" p fs
      | None =>
          (Ok tt, Fsys (<[a := NDir (fs_now fs)]> (fs_nodes fs)) (fs_faults fs)
                       (fs_now fs))
      end
  end.

(** The loop over the ancestors, top first. *)
Fixpoint mkdir_chain (p : string) (ancs : list string) : FS unit :=
  match ancs with
  | [] => ret tt
  | a :: rest => mkdir_one p a (bool_decide (rest = [])) ;;! mkdir_chain p rest
  end.

(** [fs.mkdir(p, { recursive: true })] *)
Definition mkdir_recursive (p : string) : FS unit := mkdir_chain p (ancestors p).

(** ** Lemmas *)

Section Lemmas.
Context (p : string) (fs : fsys).

Lemma with_path_fault {A} sys (k : string -> option node -> FS A) e :
  fs_faults fs !! canon p = Some e -> with_path sys p k fs = (Err (FsError e sys p), fs).
Proof. unfold with_path. by intros ->. Qed.

Lemma with_path_clear {A} sys (k : string -> option node -> FS A) :
  fs_faults fs !! canon p = None -> with_path sys p k fs = k (canon p) (entry fs (canon p)) fs.
Proof. unfold with_path. by intros ->. Qed.
End Lemmas.

Lemma entry_insert nodes' faults now k c n :
  is_root_dir c = false ->
  entry (Fsys (<[c := n]> nodes') faults now) k =
  if decide (k = c) then Some n else entry (Fsys nodes' faults now) k.
Proof.
  intros Hc. unfold entry; simpl. case_decide; subst.
  - rewrite Hc. by rewrite lookup_insert_eq.
  - destruct (is_root_dir k); [done|]. by rewrite lookup_insert_ne.
Qed.

Lemma entry_delete nodes' faults now k c :
  entry (Fsys (delete c nodes') faults now) k =
  if decide (k = c) then (if is_root_dir k then Some (NDir 0) else None)
  else entry (Fsys nodes' faults now) k.
Proof.
  unfold entry; simpl. case_decide; subst.
  - destruct (is_root_dir c); [done|]. by rewrite lookup_delete_eq.
  - destruct (is_root_dir k); [done|]. by rewrite lookup_delete_ne.
Qed.

(** A [writeFile] that succeeded left the file with the bytes written and
    changed nothing but that entry. *)
Lemma writeFile_Ok_inv p d fs fs' :
  writeFile p d fs = (Ok tt, fs') ->
  fs_faults fs !! canon p = None /\ is_root_dir (canon p) = false /\
  fs' = Fsys (<[canon p := NFile d (fs_now fs)]> (fs_nodes fs)) (fs_faults fs) (fs_now fs).
Proof.
  unfold writeFile, with_path.
  destruct (fs_faults fs !! canon p) eqn:Hf; [done|].
  destruct (is_root_dir (canon p)) eqn:Hr; unfold entry at 1; rewrite Hr.
  - done.
  - destruct (fs_nodes fs !! canon p) as [[|]|]; simpl;
      destruct (entry fs (parent p)) as [[|]|]; naive_solver.
Qed.

Lemma readFile_file p fs d m :
  fs_faults fs !! canon p = None -> entry fs (canon p) = Some (NFile d m) ->
  readFile p fs = (Ok d, fs).
Proof. intros Hf He. unfold readFile. rewrite with_path_clear, He by done. done. Qed.

Lemma readFile_missing p fs :
  fs_faults fs !! canon p = None -> entry fs (canon p) = None ->
  readFile p fs = (Err (FsError ENOENT "open" p), fs).
Proof. intros Hf He. unfold readFile. rewrite with_path_clear, He by done. done. Qed.

Lemma stat_file p fs d m :
  fs_faults fs !! canon p = None -> entry fs (canon p) = Some (NFile d m) ->
  stat p fs = (Ok (Stats (List.length d) m true), fs).
Proof. intros Hf He. unfold stat. rewrite with_path_clear, He by done. done. Qed.

Lemma stat_missing p fs :
  fs_faults fs !! canon p = None -> entry fs (canon p) = None ->
  stat p fs = (Err (FsError ENOENT "stat" p), fs).
Proof. intros Hf He. unfold stat. rewrite with_path_clear, He by done. done. Qed.

Lemma stat_dir p fs m :
  fs_faults fs !! canon p = None -> entry fs (canon p) = Some (NDir m) ->
  stat p fs = (Ok (Stats dir_block_size m false), fs).
Proof. intros Hf He. unfold stat. rewrite with_path_clear, He by done. done. Qed.

Lemma readFile_dir p fs m :
  fs_faults fs !! canon p = None -> entry fs (canon p) = Some (NDir m) ->
  readFile p fs = (Err (FsError EISDIR "read" p), fs).
Proof. intros Hf He. unfold readFile. rewrite with_path_clear, He by done. done. Qed.

Lemma unlink_missing p fs :
  fs_faults fs !! canon p = None -> entry fs (canon p) = None ->
  unlink p fs = (Err (FsError ENOENT "unlink" p), fs).
Proof. intros Hf He. unfold unlink. rewrite with_path_clear, He by done. done. Qed.

Lemma unlink_Err_same p fs e fs' : unlink p fs = (Err e, fs') -> fs' = fs.
Proof.
  unfold unlink, with_path. destruct (fs_faults fs !! canon p).
  - cbv [fail throw]. naive_solver.
  - destruct (entry fs (canon p)) as [[|]|]; cbv [modify fail throw]; naive_solver.
Qed.

(** An [unlink] that succeeded removed the file. *)
Lemma unlink_Ok_inv p fs fs' :
  unlink p fs = (Ok tt, fs') ->
  fs_faults fs !! canon p = None /\ is_root_dir (canon p) = false /\
  fs' = Fsys (delete (canon p) (fs_nodes fs)) (fs_faults fs) (fs_now fs).
Proof.
  unfold unlink, with_path.
  destruct (fs_faults fs !! canon p) eqn:Hf; [done|].
  destruct (is_root_dir (canon p)) eqn:Hr; unfold entry at 1; rewrite Hr; [done|].
  destruct (fs_nodes fs !! canon p) as [[|]|]; cbv [modify fail throw]; naive_solver.
Qed.

(** ** Frames *)

(** [fs'] has every entry of [fs] but possibly [x], no file [fs] did not
    have but possibly at [x] (what it adds elsewhere are directories), and
    the same faults and clock. *)
Definition fs_extends_except (x : string) (fs fs' : fsys) : Prop :=
  fs_faults fs' = fs_faults fs /\ fs_now fs' = fs_now fs /\
  (forall q n, q <> x -> entry fs q = Some n -> entry fs' q = Some n) /\
  (forall q d m, q <> x -> entry fs' q = Some (NFile d m) -> entry fs q = Some (NFile d m)).

Lemma fs_extends_refl x fs : fs_extends_except x fs fs.
Proof. done. Qed.

Lemma fs_extends_trans x fs1 fs2 fs3 :
  fs_extends_except x fs1 fs2 -> fs_extends_except x fs2 fs3 ->
  fs_extends_except x fs1 fs3.
Proof.
  intros (F1 & N1 & E1 & B1) (F2 & N2 & E2 & B2).
  split; [congruence|]. split; [congruence|]. split; eauto.
Qed.

Lemma mkdir_one_extends x p a l fs r fs' :
  mkdir_one p a l fs = (r, fs') -> fs_extends_except x fs fs'.
Proof.
  unfold mkdir_one. intros H.
  destruct (fs_faults fs !! a); [cbv [fail throw] in H; simplify_eq; done|].
  destruct (entry fs a) as [[|]|] eqn:Ea; cbv [fail throw ret] in H; simplify_eq;
    [done|done|].
  destruct (is_root_dir a) eqn:Ra; [unfold entry in Ea; by rewrite Ra in Ea|].
  split; [done|]. split; [done|].
  split; [intros q n' Hq Hn|intros q d m Hq Hn]; rewrite ?entry_insert in * by done.
  - case_decide; [subst; by rewrite Ea in Hn|done].
  - by case_decide.
Qed.

Lemma mkdir_chain_extends x p ancs fs r fs' :
  mkdir_chain p ancs fs = (r, fs') -> fs_extends_except x fs fs'.
Proof.
  revert fs. induction ancs as [|a ancs IH]; intros fs H; simpl in H.
  - cbv [ret] in H. simplify_eq. done.
  - unfold bind in H. destruct (mkdir_one p a _ fs) as [[[]|e] fs1] eqn:E1;
      apply (mkdir_one_extends x) in E1; [|simplify_eq; done].
    eapply fs_extends_trans; [exact E1|]. by apply IH.
Qed.

Lemma mkdir_recursive_extends x p fs r fs' :
  mkdir_recursive p fs = (r, fs') -> fs_extends_except x fs fs'.
Proof. apply mkdir_chain_extends. Qed.

(** A [writeFile] that failed changed nothing. *)
Lemma writeFile_Err_same p d fs e fs' : writeFile p d fs = (Err e, fs') -> fs' = fs.
Proof.
  unfold writeFile, with_path. destruct (fs_faults fs !! canon p);
    [cbv [fail throw]; naive_solver|].
  destruct (entry fs (canon p)) as [[|]|]; cbv [fail throw];
    try destruct (entry fs (parent p)) as [[|]|]; naive_solver.
Qed.

Lemma writeFile_extends p d fs r fs' :
  writeFile p d fs = (r, fs') -> fs_extends_except (canon p) fs fs'.
Proof.
  destruct r as [[]|e].
  - intros (_ & Hr & ->)%writeFile_Ok_inv. split; [done|]. split; [done|].
    split; [intros q n Hq Hn|intros q d' m Hq Hn];
      rewrite entry_insert in * by done; by rewrite decide_False in * by done.
  - intros ->%writeFile_Err_same. apply fs_extends_refl.
Qed.

(** An [unlink] changes nothing but the entry it removes. *)
Lemma unlink_extends p fs r fs' :
  unlink p fs = (r, fs') -> fs_extends_except (canon p) fs fs'.
Proof.
  destruct r as [[]|err].
  - intros (_ & Hr & ->)%unlink_Ok_inv. split; [done|]. split; [done|].
    split; [intros q n Hq Hn|intros q d m Hq Hn];
      rewrite entry_delete in * by done; by rewrite decide_False in * by done.
  - intros ->%unlink_Err_same. apply fs_extends_refl.
Qed.

(** The reads change nothing. *)
Lemma with_path_read {A} sys p (k : string -> option node -> FS A) fs r fs' :
  (forall c n fs0 r0 fs1, k c n fs0 = (r0, fs1) -> fs1 = fs0) ->
  with_path sys p k fs = (r, fs') -> fs' = fs.
Proof.
  unfold with_path. intros Hk H.
  destruct (fs_faults fs !! canon p); [by cbv [fail throw] in H; simplify_eq|].
  by apply Hk in H.
Qed.

Lemma readFile_same p fs r fs' : readFile p fs = (r, fs') -> fs' = fs.
Proof. apply with_path_read. intros c [[]|] ???; cbv [ret fail throw]; congruence. Qed.

Lemma stat_same p fs r fs' : stat p fs = (r, fs') -> fs' = fs.
Proof. apply with_path_read. intros c [[]|] ???; cbv [ret fail throw]; congruence. Qed.

Lemma access_same p fs r fs' : access p fs = (r, fs') -> fs' = fs.
Proof. apply with_path_read. intros c [[]|] ???; cbv [ret fail throw]; congruence. Qed.

(** ** How the disk evolves

    [evolves D F fs fs']: [fs'] has the faults of [fs], and differs from it
    only at places where [fs] has no directory; there [fs'] has a directory
    at a place of [D], a file at a place of [F], or nothing.  Directories
    are never removed nor replaced.  The relation is a preorder, so the
    steps of a program compose. *)
Definition evolves (D F : string -> Prop) (fs fs' : fsys) : Prop :=
  fs_faults fs' = fs_faults fs /\
  forall q, entry fs' q = entry fs q \/
    ((forall m, entry fs q <> Some (NDir m)) /\
     ((D q /\ exists m, entry fs' q = Some (NDir m)) \/
      (F q /\ exists d m, entry fs' q = Some (NFile d m)) \/
      entry fs' q = None)).

#[export] Instance evolves_preorder D F : PreOrder (evolves D F).
Proof.
  split.
  - intros fs. split; [done|]. by left.
  - intros fs1 fs2 fs3 [F12 E12] [F23 E23]. split; [congruence|]. intros q.
    destruct (E12 q) as [H12|[N12 H12]], (E23 q) as [H23|[N23 H23]].
    + left. congruence.
    + right. split; [by rewrite <- H12|done].
    + right. split; [done|]. by rewrite H23.
    + by right.
Qed.

Section Evolves.
Context (D F : string -> Prop).

Lemma evolves_mono (D' F' : string -> Prop) fs fs' :
  (forall q, D q -> D' q) -> (forall q, F q -> F' q) ->
  evolves D F fs fs' -> evolves D' F' fs fs'.
Proof.
  intros HD HF [Hf E]. split; [done|]. intros q.
  destruct (E q) as [H|[N [[HDq H]|[[HFq H]|H]]]]; [by left|..]; right; split; auto.
Qed.

(** A directory stays. *)
Lemma evolves_dir fs fs' q m :
  evolves D F fs fs' -> entry fs q = Some (NDir m) -> entry fs' q = Some (NDir m).
Proof. intros [_ E] H. destruct (E q) as [->|[N _]]; [done|]. by destruct (N m). Qed.

Lemma mkdir_one_evolves p a l fs r fs' :
  mkdir_one p a l fs = (r, fs') -> evolves (fun q => q = a) F fs fs'.
Proof.
  unfold mkdir_one. intros H.
  destruct (fs_faults fs !! a); [cbv [fail throw] in H; simplify_eq; reflexivity|].
  destruct (entry fs a) as [[|]|] eqn:Ea; cbv [fail throw ret] in H; simplify_eq;
    [reflexivity|reflexivity|].
  destruct (is_root_dir a) eqn:Ra; [unfold entry in Ea; by rewrite Ra in Ea|].
  split; [done|]. intros q. rewrite entry_insert by done. case_decide; [subst|by left].
  right. rewrite Ea. split; [done|]. left. eauto.
Qed.

Lemma writeFile_evolves p d fs r fs' :
  writeFile p d fs = (r, fs') -> evolves D (fun q => q = canon p) fs fs'.
Proof.
  unfold writeFile, with_path. intros H.
  destruct (fs_faults fs !! canon p); [cbv [fail throw] in H; simplify_eq; reflexivity|].
  assert (Hins : (forall m, entry fs (canon p) <> Some (NDir m)) ->
    evolves D (fun q => q = canon p) fs
      (Fsys (<[canon p := NFile d (fs_now fs)]> (fs_nodes fs)) (fs_faults fs) (fs_now fs))).
  { intros Hn. destruct (is_root_dir (canon p)) eqn:Ra;
      [exfalso; apply (Hn 0%Z); unfold entry; by rewrite Ra|].
    split; [done|]. intros q. rewrite entry_insert by done.
    case_decide; [subst|by left]. right. split; [done|]. right; left. eauto. }
  destruct (entry fs (canon p)) as [[|m0]|] eqn:Ec;
    [|cbv [fail throw] in H; simplify_eq; reflexivity|];
    (destruct (entry fs (parent p)) as [[|]|]; cbv [fail throw] in H; simplify_eq;
      [reflexivity|apply Hins; by intros ? [=]|reflexivity]).

Qed.

Lemma unlink_evolves p fs r fs' : unlink p fs = (r, fs') -> evolves D F fs fs'.
Proof.
  unfold unlink, with_path. intros H.
  destruct (fs_faults fs !! canon p); [cbv [fail throw] in H; simplify_eq; reflexivity|].
  destruct (entry fs (canon p)) as [[d m|]|] eqn:Ec; cbv [fail throw modify] in H;
    simplify_eq; [|reflexivity|reflexivity].
  split; [done|]. intros q. rewrite entry_delete. case_decide; [subst|by left].
  rewrite Ec. destruct (is_root_dir (canon p)) eqn:Ra;
    [unfold entry in Ec; by rewrite Ra in Ec|]. by right; split; [|right; right].
Qed.

Lemma readFile_evolves p fs r fs' : readFile p fs = (r, fs') -> evolves D F fs fs'.
Proof. intros ->%readFile_same. reflexivity. Qed.

Lemma stat_evolves p fs r fs' : stat p fs = (r, fs') -> evolves D F fs fs'.
Proof. intros ->%stat_same. reflexivity. Qed.

Lemma access_evolves p fs r fs' : access p fs = (r, fs') -> evolves D F fs fs'.
Proof. intros ->%access_same. reflexivity. Qed.
End Evolves.

(** A [mkdir] on a place with no fault and no file makes or finds a
    directory there. *)
Lemma mkdir_one_ok p a l fs :
  fs_faults fs !! a = None -> (forall d m, entry fs a <> Some (NFile d m)) ->
  exists fs', mkdir_one p a l fs = (Ok tt, fs') /\ exists m, entry fs' a = Some (NDir m).
Proof.
  intros Hf Hn. unfold mkdir_one. rewrite Hf.
  destruct (entry fs a) as [[d m|m]|] eqn:Ea; [by destruct (Hn d m)|by eauto|].
  destruct (is_root_dir a) eqn:Ra; [unfold entry in Ea; by rewrite Ra in Ea|].
  eexists. split; [done|]. rewrite entry_insert by done. rewrite decide_True; eauto.
Qed.

(** A [writeFile] to a place with no fault and no directory, whose parent
    is a directory, succeeds. *)
Lemma writeFile_ok p d fs :
  fs_faults fs !! canon p = None -> (forall m, entry fs (canon p) <> Some (NDir m)) ->
  (exists m, entry fs (parent p) = Some (NDir m)) ->
  exists fs', writeFile p d fs = (Ok tt, fs').
Proof.
  intros Hf Hn [m Hp]. unfold writeFile, with_path. rewrite Hf.
  destruct (entry fs (canon p)) as [[|m']|]; [|by destruct (Hn m')|];
    cbv beta; rewrite Hp; eauto.
Qed.

End NodeFs.
