(* ===== verification/Canon.v ===== *)
(** * Canon: canonical paths as lists of segments

    A canonical path ([NodePath.canon]) is determined by whether it is
    absolute and by its normalised segments.  [canon_of abs S] writes such
    a path back.  For safe segments (no [""], ["."] or [".."]) the writing
    is read back exactly ([canon_of_segs]), so that two canonical paths
    are equal exactly when their segments are ([canon_of_inj]), and the
    path functions the backend uses act on segments: [normalize] of a path
    without a trailing separator is [canon_of] of its segments
    ([normalize_canon]), [dirname] drops the last segment
    ([dirname_canon_of]), and [ancestors] are the prefixes
    ([ancestors_canon]).  These are the facts the concurrent model uses to
    show that the files an upload writes and the directories the backend
    creates never stand in each other's way. *)

From S2P Require Import Prelude NodePath NodeFs.

Local Open Scope string_scope.

Module Canon.
Import NodePath NodeFs.

Definition canon_of (abs : bool) (S : list string) : string :=
  if abs then String sep (join_on sep S)
  else if decide (S = []) then "." else join_on sep S.

Lemma canon_eq p : canon p = canon_of (is_abs p) (path_segs p).
Proof. reflexivity. Qed.

(** A segment of a canonical path: safe and free of the separator. *)
Definition name_seg (s : string) : Prop := safe_seg s /\ str_has sep s = false.

#[export] Instance name_seg_dec s : Decision (name_seg s).
Proof. unfold name_seg. apply _. Defined.

(** ** Lemmas *)

Lemma name_segs_split s :
  Forall safe_seg (split_on sep s) -> Forall name_seg (split_on sep s).
Proof.
  intros H. apply Forall_and; split; [done|]. apply split_on_pieces.
Qed.

Lemma name_segs_safe S : Forall name_seg S -> Forall safe_seg S.
Proof. intros H. eapply Forall_impl; [done|]. by intros ? []. Qed.

Lemma name_segs_free S : Forall name_seg S -> Forall (fun s => str_has sep s = false) S.
Proof. intros H. eapply Forall_impl; [done|]. by intros ? []. Qed.

Lemma name_segs_nonempty S : Forall name_seg S -> Forall (fun s => s <> "") S.
Proof. intros H. eapply Forall_impl; [done|]. by intros ? [[]]. Qed.

#[local] Hint Resolve name_segs_safe name_segs_free name_segs_nonempty : core.

Lemma split_on_sep_cons t : split_on sep (String sep t) = "" :: split_on sep t.
Proof. reflexivity. Qed.

(** [canon_of] is read back exactly: its absoluteness and its segments
    are the ones it was given. *)
Lemma canon_of_segs a S :
  Forall name_seg S -> is_abs (canon_of a S) = a /\ path_segs (canon_of a S) = S.
Proof.
  intros HS. destruct (decide (S = [])) as [->|Hne]; [by destruct a|].
  assert (Hsp : split_on sep (join_on sep S) = S) by (apply split_join; auto).
  destruct a; unfold canon_of.
  - split; [done|]. unfold path_segs. simpl is_abs.
    rewrite split_on_sep_cons, Hsp, normalize_segments_empty_l.
    apply (normalize_segments_app_safe false [] S). auto.
  - cbv iota. rewrite decide_False by done.
    assert (Hs : Forall safe_seg (split_on sep (join_on sep S))) by (rewrite Hsp; auto).
    split; [by apply safe_not_abs|]. by rewrite path_segs_safe.
Qed.

Lemma canon_canon_of a S : Forall name_seg S -> canon (canon_of a S) = canon_of a S.
Proof. intros HS. rewrite canon_eq. by destruct (canon_of_segs a S HS) as [-> ->]. Qed.

(** Two canonical paths of safe segments are equal exactly when their
    absoluteness and their segments are. *)
Lemma canon_of_inj a1 a2 S1 S2 :
  Forall name_seg S1 -> Forall name_seg S2 ->
  canon_of a1 S1 = canon_of a2 S2 -> a1 = a2 /\ S1 = S2.
Proof.
  intros H1 H2 E. destruct (canon_of_segs a1 S1 H1) as [A1 P1].
  destruct (canon_of_segs a2 S2 H2) as [A2 P2]. rewrite E in A1, P1. split; congruence.
Qed.

(** A path written without a trailing separator by [normalize] is the
    canonical path of its segments. *)
Lemma normalize_canon p :
  p <> "" -> ends_with_sep p = false -> path_segs p <> [] ->
  normalize p = canon_of (is_abs p) (path_segs p).
Proof.
  intros Hp Ht Hne. unfold normalize. rewrite decide_False by done.
  change (normalize_segments (negb (is_abs p)) (split_on sep p)) with (path_segs p).
  pose proof (normalize_segments_pieces (negb (is_abs p)) p) as HS.
  rewrite decide_False.
  2:{ apply join_on_nonempty; [done|]. eapply Forall_impl; [done|]. by intros ? []. }
  rewrite Ht, string_app_nil_r. unfold canon_of.
  destruct (is_abs p); [done|]. by rewrite decide_False.
Qed.

(** [path.join(root, key)] for a key of safe segments is the canonical
    path of the root's segments followed by the key's. *)
Lemma join_canon root key :
  root <> "" -> key <> "" -> Forall safe_seg (split_on sep key) ->
  join [root; key] = canon_of (is_abs root) (path_segs root ++ split_on sep key).
Proof.
  intros Hr Hk Hs. rewrite join_two by done.
  assert (Ha : is_abs (root ++ String sep key) = is_abs root) by (by rewrite is_abs_app).
  assert (Hp : path_segs (root ++ String sep key) = (path_segs root ++ split_on sep key)%list).
  { unfold path_segs. rewrite Ha, split_on_app_sep. by apply normalize_segments_app_safe. }
  rewrite <- Ha, <- Hp. apply normalize_canon.
  - by destruct root.
  - rewrite ends_with_sep_app by done. destruct key as [|c k]; [done|].
    change (ends_with_sep (String c k) = false). by apply safe_not_trailing.
  - rewrite Hp. intros [_ H]%app_eq_nil. by apply split_on_nonempty in H.
Qed.

(** The characters of a string free of the separator. *)
Lemma free_chars x : str_has sep x = false -> Forall (fun c => c <> sep) (list_of_string x).
Proof.
  unfold str_has. induction x as [|c x IH]; intros H; simpl in *; [done|].
  apply negb_false_iff, andb_prop in H as [Hc Hx]. constructor.
  - intros ->. by rewrite bool_decide_eq_true_2 in Hc.
  - apply IH. by rewrite Hx.
Qed.

Lemma dirname_scan_cons c r b :
  r <> [] ->
  dirname_scan (c :: r) b =
  if decide (c = sep) then (if b then dirname_scan r b else Some (reverse r))
  else dirname_scan r false.
Proof. by destruct r. Qed.

(** The scan of [dirname] through characters that are not separators. *)
Lemma dirname_scan_free l b : Forall (fun c => c <> sep) l -> dirname_scan l b = None.
Proof.
  revert b. induction l as [|c [|c' l] IH]; intros b Hl; [done|done|].
  inversion Hl as [|? ? Hc Hl']; subst.
  rewrite dirname_scan_cons, decide_False by done. by apply IH.
Qed.

Lemma dirname_scan_last l b :
  Forall (fun c => c <> sep) l -> dirname_scan (l ++ [sep]) b = None.
Proof.
  revert b. induction l as [|c l IH]; intros b Hl; [done|].
  inversion Hl as [|? ? Hc Hl']; subst. simpl app.
  rewrite dirname_scan_cons by (by destruct l). rewrite decide_False by done. by apply IH.
Qed.

Lemma dirname_scan_sep l r b :
  l <> [] -> Forall (fun c => c <> sep) l -> r <> [] ->
  dirname_scan (l ++ sep :: r) b = Some (reverse r).
Proof.
  revert b. induction l as [|c l IH]; intros b Hne Hl Hr; [done|].
  inversion Hl as [|? ? Hc Hl']; subst. simpl app.
  rewrite dirname_scan_cons by (by destruct l). rewrite decide_False by done.
  destruct l as [|c' l].
  - simpl app. rewrite dirname_scan_cons by done. by rewrite decide_True.
  - by apply IH.
Qed.

Lemma canon_of_rel_snoc S x :
  S <> [] -> canon_of false (S ++ [x]) = join_on sep S ++ String sep x.
Proof.
  intros Hne. unfold canon_of. cbv iota. rewrite decide_False by (by destruct S).
  by rewrite join_on_app.
Qed.

Lemma reverse_chars_sep s x :
  reverse (list_of_string (s ++ String sep x)) =
  (reverse (list_of_string x) ++ sep :: reverse (list_of_string s))%list.
Proof.
  unfold list_of_string. rewrite list_ascii_of_string_app. simpl.
  by rewrite reverse_app, reverse_cons, <- app_assoc.
Qed.

(** [dirname] drops the last segment of a canonical path. *)
Lemma dirname_canon_of a S x :
  Forall name_seg (S ++ [x]) -> dirname (canon_of a (S ++ [x])) = canon_of a S.
Proof.
  intros HS. apply Forall_app in HS as [HS Hx]. inversion Hx as [|? ? [[Hx0 _] Hxs] _]; subst.
  pose proof (free_chars x Hxs) as Hc.
  assert (Hl : reverse (list_of_string x) <> []).
  { destruct x; [done|]. unfold list_of_string. simpl. rewrite reverse_cons.
    intros [_ ?]%app_eq_nil. done. }
  assert (Hrev : Forall (fun c => c <> sep) (reverse (list_of_string x)))
    by (by apply Forall_reverse).
  destruct (decide (S = [])) as [->|Hne].
  - unfold dirname. destruct a.
    + unfold canon_of. simpl. change (list_of_string (String sep x)) with (sep :: list_of_string x).
      rewrite reverse_cons, dirname_scan_last by done. done.
    + unfold canon_of. simpl. rewrite decide_False by done.
      rewrite dirname_scan_free by done. change (join_on sep [x]) with x.
      rewrite is_abs_piece by done. done.
  - assert (Hj : join_on sep S <> "") by (apply join_on_nonempty; auto).
    assert (Hjl : reverse (list_of_string (join_on sep S)) <> []).
    { destruct (join_on sep S); [done|]. unfold list_of_string. simpl. rewrite reverse_cons.
      intros [_ ?]%app_eq_nil. done. }
    unfold dirname. destruct a.
    + unfold canon_of. rewrite join_on_app by done. change (join_on sep [x]) with x.
      change (String sep (join_on sep S ++ String sep x))
        with (String sep (join_on sep S) ++ String sep x).
      rewrite decide_False by done.
      rewrite reverse_chars_sep, dirname_scan_sep by (try done; unfold list_of_string;
        simpl; rewrite reverse_cons; intros [_ ?]%app_eq_nil; done).
      rewrite reverse_involutive, is_abs_app by done.
      replace (is_abs (String sep (join_on sep S))) with true by reflexivity.
      rewrite bool_decide_eq_false_2; [apply string_of_list_ascii_of_string|].
      unfold list_of_string. simpl. destruct (join_on sep S); [done|]. simpl. lia.
    + rewrite canon_of_rel_snoc by done.
      rewrite decide_False by (by destruct (join_on sep S)).
      rewrite reverse_chars_sep, dirname_scan_sep by done. rewrite reverse_involutive.
      rewrite is_abs_app by done. rewrite safe_not_abs by (rewrite split_join; auto).
      unfold canon_of. cbv iota. rewrite decide_False by done.
      apply string_of_list_ascii_of_string.
Qed.

(** The directory holding an entry at a canonical path of segments is the
    path of all the segments but the last. *)
Lemma parent_canon_of a S x :
  Forall name_seg (S ++ [x]) -> parent (canon_of a (S ++ [x])) = canon_of a S.
Proof.
  intros HS. unfold parent. rewrite canon_canon_of, dirname_canon_of by done.
  apply canon_canon_of. by apply Forall_app in HS as [? _].
Qed.

Lemma prefix_canon_of (a : bool) T :
  T <> [] -> ((if a then "/" else "") ++ join_on sep T)%string = canon_of a T.
Proof. intros Hne. unfold canon_of. destruct a; [done|]. by rewrite decide_False. Qed.

(** The ancestors [fs.mkdir] walks through are the canonical paths of the
    non-empty prefixes of the segments, shortest first. *)
Lemma ancestors_canon p :
  Forall safe_seg (path_segs p) ->
  ancestors p = map (fun i => canon_of (is_abs p) (take i (path_segs p)))
                    (seq 1 (List.length (path_segs p))).
Proof.
  intros Hs. assert (HS : Forall name_seg (path_segs p)).
  { apply Forall_and. split; [done|]. eapply Forall_impl;
      [apply (normalize_segments_pieces (negb (is_abs p)) p)|]. by intros ? []. }
  unfold ancestors. apply map_ext_in. intros i Hi%in_seq.
  rewrite prefix_canon_of.
  - apply canon_canon_of. by apply Forall_take.
  - destruct (path_segs p); simpl in *; [lia|]. destruct i; [lia|]. done.
Qed.

(** The ancestors of a canonical path of segments. *)
Lemma ancestors_canon_of a S :
  Forall name_seg S ->
  ancestors (canon_of a S) = map (fun i => canon_of a (take i S)) (seq 1 (List.length S)).
Proof.
  intros HS. destruct (canon_of_segs a S HS) as [Ha Hp].
  rewrite ancestors_canon; rewrite ?Ha, ?Hp; auto.
Qed.

End Canon.
