(* ===== verification/StorageUtils.v ===== *)
(** * StorageUtils: what the backend imports, and the platform's string functions

    - The error values of the program: Node's errno exceptions and
      [FileNotFoundError] of [lib/errors].
    - [toBuffer], [sanitizeFilename], [resolveStoragePrefix] of
      [storage-utils.ts] and [generateUUID] of [lib/utils]: these files are
      not under src/, so they are modelled from the spec.  The backend's
      theorems are proved against the class [KeyPrimitives], which states
      what the backend relies on (a sanitized name is non-empty and made of
      [A-Za-z0-9._-], is not ["."] or [".."]; the UUID source never repeats
      itself, yields lower-case hexadecimal digits and dashes, and no draw
      is another draw followed by a dash, as fixed-length UUIDs are); the
      instance [spec_key_primitives] discharges it.
    - [String.prototype.toLowerCase] and [encodeURI] for the code points
      below 256 that Rocq's [ascii] spans. *)

From Stdlib Require Import DecimalString DecimalNat.
From S2P Require Import Prelude NodePath NodeFs.

Local Open Scope string_scope.

Module StorageUtils.
Import NodeFs.

(** ** Errors *)

(** The values a rejected promise carries in this program. *)
Inductive exn :=
| ErrnoException (e : fs_error)
| FileNotFoundError (key : string) (cause : fs_error).

(** [(error as NodeJS.ErrnoException).code === "ENOENT"] *)
Definition is_enoent (e : fs_error) : bool :=
  bool_decide (errno_code (code e) = "ENOENT").

(** ** Content given to [upload] *)

(** A [Buffer], or a stream or iterable of chunks. *)
Inductive content :=
| BufferContent (b : list Byte.byte)
| ChunkContent (chunks : list (list Byte.byte)).

(** [toBuffer(content)]: one buffer with every byte, in order. *)
Definition toBuffer (c : content) : list Byte.byte :=
  match c with
  | BufferContent b => b
  | ChunkContent cs => List.concat cs
  end.

(** ** Characters *)

Definition char_between (lo hi : nat) (c : ascii) : bool :=
  Nat.leb lo (nat_of_ascii c) && Nat.leb (nat_of_ascii c) hi.

Definition is_digit := char_between 48 57.
Definition is_upper := char_between 65 90.
Definition is_lower := char_between 97 122.
Definition is_hex_lower (c : ascii) : bool := is_digit c || char_between 97 102 c.

Definition char_in (s : string) (c : ascii) : bool := str_has c s.

(** The characters a sanitized filename keeps. *)
Definition filename_char (c : ascii) : bool :=
  is_digit c || is_upper c || is_lower c || char_in "._-" c.

(** The characters of a UUID as [generateUUID] prints it. *)
Definition uuid_char (c : ascii) : bool := is_hex_lower c || char_in "-" c.

(** ** What the backend relies on *)

Class KeyPrimitives := {
  sanitizeFilename : string -> string;
  (** [generateUUID()] as the n-th draw of the generator. *)
  uuid_tape : nat -> string;
  sanitize_nonempty s : sanitizeFilename s <> "";
  sanitize_chars s : str_forall filename_char (sanitizeFilename s) = true;
  sanitize_not_dots s : sanitizeFilename s <> "." /\ sanitizeFilename s <> "..";
  uuid_nonempty n : uuid_tape n <> "";
  uuid_chars n : str_forall uuid_char (uuid_tape n) = true;
  uuid_inj n m : uuid_tape n = uuid_tape m -> n = m;
  (** No draw is another draw followed by a dash (a UUID has a fixed
      length), so [<uuid>-<name>] determines the draw. *)
  uuid_dash_free n m t : uuid_tape m <> uuid_tape n ++ String "-" t
}.

(** [resolveStoragePrefix()]: the configured namespace with the slashes at
    its ends removed, empty when none is configured. *)
Fixpoint drop_leading_slashes (s : string) : string :=
  match s with
  | String "/" s' => drop_leading_slashes s'
  | _ => s
  end.

Definition string_rev (s : string) : string :=
  string_of_list_ascii (reverse (list_ascii_of_string s)).

Definition resolveStoragePrefix (configured : option string) : string :=
  string_rev (drop_leading_slashes (string_rev
    (drop_leading_slashes (default "" configured)))).

(** ** A model of the helpers: the instance of [KeyPrimitives] *)

(** The part of a name after its last [/] or [\]. *)
Fixpoint after_last_sep (s : string) (acc : string) : string :=
  match s with
  | EmptyString => acc
  | String c s' =>
      if char_in "/\" c then after_last_sep s' ""
      else after_last_sep s' (acc ++ String c "")
  end.

Fixpoint keep_chars (p : ascii -> bool) (s : string) : string :=
  match s with
  | EmptyString => EmptyString
  | String c s' => if p c then String c (keep_chars p s') else keep_chars p s'
  end.

(** [sanitizeFilename(name)]: the last path component, without the
    characters outside [A-Za-z0-9._-]; ["file"] when nothing usable is
    left. *)
Definition spec_sanitizeFilename (name : string) : string :=
  let s := keep_chars filename_char (after_last_sep name "") in
  if decide (s = "" \/ s = "." \/ s = "..") then "file" else s.

Definition decimal (n : nat) : string := NilEmpty.string_of_uint (Nat.to_uint n).

(** The n-th draw of the generator, as digits (a hexadecimal string). *)
Definition spec_uuid_tape (n : nat) : string := String "0" (decimal n).

Lemma keep_chars_ok p s : str_forall p (keep_chars p s) = true.
Proof.
  induction s as [|c s IH]; simpl; [done|].
  destruct (p c) eqn:E; simpl; [by rewrite E, IH|done].
Qed.

Lemma decimal_digits u : str_forall is_digit (NilEmpty.string_of_uint u) = true.
Proof. induction u; simpl; by rewrite ?IHu. Qed.

Lemma decimal_inj n m : decimal n = decimal m -> n = m.
Proof.
  unfold decimal. intros H.
  apply (f_equal NilEmpty.uint_of_string) in H. rewrite !NilEmpty.usu in H.
  apply Unsigned.to_uint_inj. congruence.
Qed.

Lemma str_forall_impl (p q : ascii -> bool) s :
  (forall c, p c = true -> q c = true) ->
  str_forall p s = true -> str_forall q s = true.
Proof.
  intros Hpq. induction s as [|c s IH]; simpl; [done|].
  intros [Hc Hs]%andb_prop. by rewrite Hpq, IH.
Qed.

#[export] Program Instance spec_key_primitives : KeyPrimitives := {
  sanitizeFilename := spec_sanitizeFilename;
  uuid_tape := spec_uuid_tape
}.
Next Obligation.
  intros s. unfold spec_sanitizeFilename. case_decide as H; [done|]. naive_solver.
Qed.
Next Obligation.
  intros s. unfold spec_sanitizeFilename. case_decide; [done|]. apply keep_chars_ok.
Qed.
Next Obligation.
  intros s. unfold spec_sanitizeFilename. case_decide; [done|]. naive_solver.
Qed.
Next Obligation. done. Qed.
Next Obligation.
  intros n. unfold spec_uuid_tape. simpl.
  eapply str_forall_impl; [|apply decimal_digits].
  intros c Hc. unfold uuid_char, is_hex_lower. by rewrite Hc.
Qed.
Next Obligation.
  intros n m H. unfold spec_uuid_tape in H. injection H as H.
  by apply decimal_inj.
Qed.
Next Obligation.
  intros n m t H. unfold spec_uuid_tape in H.
  assert (D : str_forall is_digit (String "0" (decimal m)) = true)
    by (simpl; apply decimal_digits).
  rewrite H, str_forall_app in D. simpl in D.
  apply andb_prop in D as [_ D]. discriminate D.
Qed.

(** ** Platform string functions *)

(** [String.prototype.toLowerCase] on the code points below 256: the Latin
    capitals A-Z and U+00C0-U+00DE but U+00D7 move down by 32. *)
Definition to_lower_char (c : ascii) : ascii :=
  let n := nat_of_ascii c in
  if is_upper c || (char_between 192 222 c && negb (Nat.eqb n 215))
  then ascii_of_nat (n + 32) else c.

Fixpoint toLowerCase (s : string) : string :=
  match s with
  | EmptyString => EmptyString
  | String c s' => String (to_lower_char c) (toLowerCase s')
  end.

(** The characters [encodeURI] leaves as they are. *)
Definition uri_unescaped (c : ascii) : bool :=
  is_digit c || is_upper c || is_lower c || char_in ";,/?:@&=+$-_.!~*'()#" c.

Definition hex_upper (n : Z) : ascii :=
  if (n <? 10)%Z then ascii_of_nat (Z.to_nat n + 48)
  else ascii_of_nat (Z.to_nat n + 55).

Definition percent (b : Z) : string :=
  String "%" (String (hex_upper (Z.shiftr b 4)) (String (hex_upper (Z.land b 15)) "")).

(** The UTF-8 bytes of a code point below 256. *)
Definition utf8_bytes (n : Z) : list Z :=
  if (n <? 128)%Z then [n]
  else [Z.lor 192 (Z.shiftr n 6); Z.lor 128 (Z.land n 63)].

(** What [encodeURI] writes for one character: the character itself, or
    the [%XX] escapes of its UTF-8 bytes. *)
Definition encode_char (c : ascii) : string :=
  if uri_unescaped c then String c ""
  else String.concat "" (map percent (utf8_bytes (Z.of_nat (nat_of_ascii c)))).

(** [encodeURI(s)] *)
Fixpoint encodeURI (s : string) : string :=
  match s with
  | EmptyString => EmptyString
  | String c s' => encode_char c ++ encodeURI s'
  end.

End StorageUtils.
