(* ===== verification/FileStorageInterface.v ===== *)
(** * FileStorageInterface: the [FileStorage] contract of [file-storage.interface.ts]

    The interface file is not under src/; its types are modelled from the
    spec: [FileMetadata], [UploadOptions], the upload result, and the
    object of eight operations every backend returns, as a record of
    operations over the backend's state [W].  A call may reject with an
    [exn].

    The class [StorageContract] is what a backend promises its clients,
    stated over an abstract store (a finite map from keys to bytes) and an
    abstraction relation between the store and the backend's state: an
    upload stores the bytes under a fresh key, a download gives back what
    is stored, a delete removes the key, [exists] and [getMetadata] see
    what is stored, and a failed call leaves the store as it was.  The
    route's theorems are proved against this class; [LocalRefinement]
    proves the local backend an instance. *)

From S2P Require Import Prelude NodePath NodeFs StorageUtils.

Local Open Scope string_scope.

Module FileStorageInterface.
Import NodePath StorageUtils.

Record FileMetadata := {
  md_key : string;
  md_filename : string;
  md_contentType : string;
  md_size : nat;
  md_uploadedAt : Z
}.

(** [{ filename?, contentType? }] *)
Record UploadOptions := {
  opt_filename : option string;
  opt_contentType : option string
}.

Definition no_options : UploadOptions := {| opt_filename := None; opt_contentType := None |}.

Record UploadResult := {
  res_key : string;
  res_sourceUrl : string;
  res_metadata : FileMetadata
}.

(** A presigned direct-upload descriptor. *)
Record UploadUrl := { uu_url : string; uu_key : string; uu_method : string }.

Record UploadUrlOptions := { uuo_filename : option string; uuo_contentType : option string }.

(** The object a backend returns: its operations over its state [W]. *)
Record FileStorage (W : Type) := {
  upload : content -> UploadOptions -> ST W exn UploadResult;
  createUploadUrl : UploadUrlOptions -> ST W exn (option UploadUrl);
  download : string -> ST W exn (list Byte.byte);
  delete : string -> ST W exn unit;
  exists_ : string -> ST W exn bool;
  getMetadata : string -> ST W exn (option FileMetadata);
  getSourceUrl : string -> ST W exn string;
  getDownloadUrl : string -> ST W exn string
}.
Arguments upload {W} f c o.
Arguments createUploadUrl {W} f o.
Arguments download {W} f k.
Arguments delete {W} f k.
Arguments exists_ {W} f k.
Arguments getMetadata {W} f k.
Arguments getSourceUrl {W} f k.
Arguments getDownloadUrl {W} f k.

(** ** The contract *)

(** A key the contract speaks of: non-empty and made of plain segments
    (no [""], ["."] or [".."]), so that two different keys never name the
    same stored object. *)
Definition key_ok (k : string) : Prop := k <> "" /\ Forall safe_seg (split_on sep k).

#[export] Instance key_ok_dec k : Decision (key_ok k).
Proof. unfold key_ok. apply _. Defined.

(** The abstract state: the bytes stored under each key. *)
Abbreviation store := (gmap string (list Byte.byte)).

Class StorageContract {W} (st : FileStorage W) (abs : store -> W -> Prop) := {
  contract_upload σ w c o r w' :
    abs σ w -> upload st c o w = (r, w') ->
    match r with
    | Ok res =>
        key_ok (res_key res) /\ σ !! res_key res = None /\
        md_key (res_metadata res) = res_key res /\
        md_size (res_metadata res) = List.length (toBuffer c) /\
        abs (<[res_key res := toBuffer c]> σ) w'
    | Err _ => abs σ w'
    end;
  contract_download σ w k r w' :
    abs σ w -> key_ok k -> download st k w = (r, w') ->
    abs σ w' /\
    match σ !! k with Some d => r = Ok d | None => exists e, r = Err e end;
  contract_delete σ w k r w' :
    abs σ w -> key_ok k -> delete st k w = (r, w') ->
    match r with
    | Ok _ => abs (base.delete k σ) w'
    | Err _ => σ !! k = None /\ abs σ w'
    end;
  contract_exists σ w k r w' :
    abs σ w -> key_ok k -> exists_ st k w = (r, w') ->
    abs σ w' /\ exists b, r = Ok b /\ (is_Some (σ !! k) -> b = true);
  contract_getMetadata σ w k r w' :
    abs σ w -> key_ok k -> getMetadata st k w = (r, w') ->
    abs σ w' /\ exists o, r = Ok o /\
      forall d, σ !! k = Some d ->
        exists md, o = Some md /\ md_key md = k /\ md_size md = List.length d
}.

End FileStorageInterface.
