(* ===== verification/LocalFileStorage.v ===== *)
(** * LocalFileStorage: [createLocalFileStorage] of [local-file-storage.ts]

    The state of the backend is a [world]: the disk ([NodeFs.fsys]), the
    position of [generateUUID] on its tape, and the lines the logger wrote.
    Every operation of the object [createLocalFileStorage] returns is one
    definition in the monad [M] (an [async] function over the world that
    may reject with an [exn]); [getFilePath], [getPublicUrl],
    [ensureStorageDir] and [buildKey] are the helpers they share, as in the
    source.  The section variable [KP] is the contract of the imported
    helpers ([StorageUtils.KeyPrimitives]). *)

From S2P Require Import Prelude NodePath NodeFs StorageUtils FileStorageInterface.

Local Open Scope string_scope.
Local Open Scope async_scope.

Module LocalFileStorage.
Import NodePath NodeFs StorageUtils FileStorageInterface.

(** A line of the logger: [logger.info(msg)] or [logger.error(msg, error)]. *)
Inductive log_entry := LogInfo (msg : string) | LogError (msg : string) (error : exn).

Record world := World {
  w_fs : fsys;
  w_uuid : nat;
  w_log : list log_entry
}.

Abbreviation M := (ST world exn).

(** An [await] on a [fs/promises] call: its rejection is the errno
    exception. *)
Definition fs_call {A} (m : FS A) : M A := fun w =>
  match m (w_fs w) with
  | (Ok a, fs') => (Ok a, World fs' (w_uuid w) (w_log w))
  | (Err e, fs') => (Err (ErrnoException e), World fs' (w_uuid w) (w_log w))
  end.

Definition exists_sync (p : string) : M bool := fun w => (Ok (existsSync p (w_fs w)), w).

Definition log_info (msg : string) : M unit :=
  modify (fun w => World (w_fs w) (w_uuid w) (w_log w ++ [LogInfo msg])).

Definition log_error (msg : string) (error : exn) : M unit :=
  modify (fun w => World (w_fs w) (w_uuid w) (w_log w ++ [LogError msg error])).

(** [new Date()] *)
Definition new_date : M Z := fun w => (Ok (fs_now (w_fs w)), w).

(** [(error as NodeJS.ErrnoException).code === "ENOENT"] on a caught value. *)
Definition code_is_enoent (e : exn) : bool :=
  match e with
  | ErrnoException fe => is_enoent fe
  | FileNotFoundError _ _ => false
  end.

(** The extension table of [getMetadata]. *)
Definition contentTypeMap : list (string * string) := [
  (".jpg", "image/jpeg"); (".jpeg", "image/jpeg"); (".png", "image/png");
  (".gif", "image/gif"); (".webp", "image/webp"); (".svg", "image/svg+xml");
  (".pdf", "application/pdf"); (".txt", "text/plain");
  (".json", "application/json"); (".xml", "application/xml");
  (".csv", "text/csv"); (".md", "text/markdown"); (".html", "text/html");
  (".css", "text/css"); (".js", "application/javascript");
  (".zip", "application/zip")].

(** [contentTypeMap[ext]]: [undefined] for a key the object does not have. *)
Fixpoint lookup_table (t : list (string * string)) (k : string) : option string :=
  match t with
  | [] => None
  | (k', v) :: t' => if decide (k = k') then Some v else lookup_table t' k
  end.

Definition octet_stream : string := "application/octet-stream".

(** The environment the factory reads. *)
Abbreviation env := (gmap string string).

(** [getStoragePath()] *)
Definition getStoragePath (e : env) : string :=
  js_or (e !! "UPLOAD_STORAGE_PATH") "./uploads".

(** [getPublicBaseUrl()] *)
Definition getPublicBaseUrl (e : env) : string :=
  js_or (e !! "BETTER_AUTH_URL") (js_or (e !! "NEXT_PUBLIC_APP_URL") "").

Section Backend.
Context `{KP : KeyPrimitives}.

(** [generateUUID()]: the next draw of the generator. *)
Definition generateUUID : M string := fun w =>
  (Ok (uuid_tape (w_uuid w)), World (w_fs w) (S (w_uuid w)) (w_log w)).

(** [buildKey(filename)], with the module-level [STORAGE_PREFIX]. *)
Definition buildKey (STORAGE_PREFIX filename : string) : M string :=
  let safeName := sanitizeFilename (if decide (filename = "") then "file" else filename) in
  let! id := generateUUID in
  let prefix := if decide (STORAGE_PREFIX = "") then "" else STORAGE_PREFIX ++ "/" in
  ret (join [prefix; id ++ "-" ++ safeName]).

(** [getFilePath(key)] *)
Definition getFilePath (storagePath key : string) : string := join [storagePath; key].

(** [getPublicUrl(key)] *)
Definition getPublicUrl (publicBaseUrl key : string) : string :=
  publicBaseUrl ++ "/api/storage/files/" ++ encodeURI key.

(** [ensureStorageDir()] *)
Definition ensureStorageDir (storagePath : string) : M unit :=
  let! present := exists_sync storagePath in
  if present then ret tt
  else fs_call (mkdir_recursive storagePath) ;;!
   log_info ("Created storage directory: " ++ storagePath).

(** [upload(content, options)] *)
Definition upload_impl (STORAGE_PREFIX storagePath publicBaseUrl : string)
  (c : content) (options : UploadOptions) : M UploadResult :=
  ensureStorageDir storagePath ;;!
  let! buffer := ret (toBuffer c) in
  let filename := default "file" (opt_filename options) in
  let! key := buildKey STORAGE_PREFIX filename in
  let filePath := getFilePath storagePath key in
  let dir := dirname filePath in
  let! dir_present := exists_sync dir in
  (if dir_present then ret tt else fs_call (mkdir_recursive dir)) ;;!
  fs_call (writeFile filePath buffer) ;;!
  let! uploadedAt := new_date in
  let metadata := {| md_key := key; md_filename := basename key;
                 md_contentType := js_or (opt_contentType options) octet_stream;
                 md_size := List.length buffer; md_uploadedAt := uploadedAt |} in
  let sourceUrl := getPublicUrl publicBaseUrl key in
  log_info ("File uploaded: " ++ key ++ " (" ++ decimal (List.length buffer) ++ " bytes)") ;;!
  ret {| res_key := key; res_sourceUrl := sourceUrl; res_metadata := metadata |}.

(** [createUploadUrl(_options)] *)
Definition createUploadUrl_impl (_ : UploadUrlOptions) : M (option UploadUrl) := ret None.

(** [download(key)] *)
Definition download_impl (storagePath key : string) : M (list Byte.byte) :=
  let filePath := getFilePath storagePath key in
  catch (fs_call (readFile filePath))
  (fun error => match error with
              | ErrnoException fe =>
                  if is_enoent fe then throw (FileNotFoundError key fe) else throw error
              | _ => throw error
              end).

(** [delete(key)] *)
Definition delete_impl (storagePath key : string) : M unit :=
  let filePath := getFilePath storagePath key in
  catch (fs_call (unlink filePath) ;;! log_info ("File deleted: " ++ key))
  (fun error => if code_is_enoent error then ret tt else throw error).

(** [exists(key)] *)
Definition exists_impl (storagePath key : string) : M bool :=
  let filePath := getFilePath storagePath key in
  catch (fs_call (access filePath) ;;! ret true) (fun _ => ret false).

(** [getMetadata(key)] *)
Definition getMetadata_impl (storagePath key : string) : M (option FileMetadata) :=
  let filePath := getFilePath storagePath key in
  catch (let! stats := fs_call (stat filePath) in
     let ext := toLowerCase (extname key) in
     ret (Some {| md_key := key; md_filename := basename key;
                  md_contentType := js_or (lookup_table contentTypeMap ext) octet_stream;
                  md_size := st_size stats; md_uploadedAt := st_mtime stats |}))
  (fun error => if code_is_enoent error then ret None else throw error).

(** [getSourceUrl(key)] *)
Definition getSourceUrl_impl (publicBaseUrl key : string) : M string :=
  ret (getPublicUrl publicBaseUrl key).

(** [getDownloadUrl(key)] *)
Definition getDownloadUrl_impl (publicBaseUrl key : string) : M string :=
  ret (getPublicUrl publicBaseUrl key).

(** [createLocalFileStorage()]: the configuration is read once. *)
Definition createLocalFileStorage (STORAGE_PREFIX : string) (e : env) : FileStorage world :=
  let storagePath := getStoragePath e in
  let publicBaseUrl := getPublicBaseUrl e in
  {| upload := upload_impl STORAGE_PREFIX storagePath publicBaseUrl;
 createUploadUrl := createUploadUrl_impl;
 download := download_impl storagePath;
 delete := delete_impl storagePath;
 exists_ := exists_impl storagePath;
 getMetadata := getMetadata_impl storagePath;
 getSourceUrl := getSourceUrl_impl publicBaseUrl;
 getDownloadUrl := getDownloadUrl_impl publicBaseUrl |}.

End Backend.

(** ** Lemmas on the lifted primitives *)

Lemma fs_call_Ok {A} (m : FS A) w a fs' :
  m (w_fs w) = (Ok a, fs') -> fs_call m w = (Ok a, World fs' (w_uuid w) (w_log w)).
Proof. unfold fs_call. by intros ->. Qed.

Lemma fs_call_Err {A} (m : FS A) w e fs' :
  m (w_fs w) = (Err e, fs') ->
  fs_call m w = (Err (ErrnoException e), World fs' (w_uuid w) (w_log w)).
Proof. unfold fs_call. by intros ->. Qed.

Lemma fs_call_Ok_inv {A} (m : FS A) w a w' :
  fs_call m w = (Ok a, w') ->
  m (w_fs w) = (Ok a, w_fs w') /\ w_uuid w' = w_uuid w /\ w_log w' = w_log w.
Proof. unfold fs_call. destruct (m (w_fs w)) as [[|] ?]; naive_solver. Qed.

Lemma world_eta w : World (w_fs w) (w_uuid w) (w_log w) = w.
Proof. by destruct w. Qed.

#[export] Hint Rewrite world_eta : storage_rw.

(** The steps of [upload] that do not touch the disk. *)
(** ** Frames: what a step leaves alone *)

(** A step relates the world before it to the world after it by [R],
    whether it resolves or rejects. *)
Section Preserves.
Context (R : relation world) `{!PreOrder R}.

Definition preserves {A} (m : M A) : Prop := forall w r w', m w = (r, w') -> R w w'.

Lemma preserves_ret {A} (a : A) : preserves (ret a).
Proof. intros w r w' [= _ <-]. reflexivity. Qed.

Lemma preserves_bind {A B} (m : M A) (k : A -> M B) :
  preserves m -> (forall a, preserves (k a)) -> preserves (bind m k).
Proof.
  intros Hm Hk w r w'. unfold bind.
  destruct (m w) as [[a|e] w1] eqn:E; intros H.
  - etrans; [by apply (Hm _ _ _ E)|]. by apply (Hk a _ _ _ H).
  - injection H as _ <-. by apply (Hm _ _ _ E).
Qed.

Lemma preserves_catch {A} (m : M A) h :
  preserves m -> (forall e, preserves (h e)) -> preserves (catch m h).
Proof.
  intros Hm Hh w r w'. unfold catch.
  destruct (m w) as [[a|e] w1] eqn:E; intros H.
  - injection H as _ <-. by apply (Hm _ _ _ E).
  - etrans; [by apply (Hm _ _ _ E)|]. by apply (Hh e _ _ _ H).
Qed.

Lemma preserves_if {A} (b : bool) (m1 m2 : M A) :
  preserves m1 -> preserves m2 -> preserves (if b then m1 else m2).
Proof. by destruct b. Qed.

Lemma preserves_throw {A} (e : exn) : preserves (@throw _ _ A e).
Proof. intros w r w' [= _ <-]. reflexivity. Qed.
End Preserves.

#[export] Hint Resolve preserves_ret preserves_bind preserves_catch preserves_if
  preserves_throw : storage.
#[export] Hint Extern 3 (preserves _ (match ?x with _ => _ end)) => destruct x : storage.

(** The step does not draw from the UUID generator. *)
Definition same_uuid : relation world := fun w w' => w_uuid w' = w_uuid w.

#[export] Instance same_uuid_preorder : PreOrder same_uuid.
Proof. split; [done|]. intros ??? H1 H2. unfold same_uuid in *. congruence. Qed.

(** The step leaves every entry of the disk but [x] in place, adds no
    file but at [x], and keeps the faults and the clock as they were
    ([NodeFs.fs_extends_except] on the disks). *)
Definition keeps_entries (x : string) : relation world := fun w w' =>
  fs_extends_except x (w_fs w) (w_fs w').

#[export] Instance keeps_entries_preorder x : PreOrder (keeps_entries x).
Proof.
  split; [intros w; apply fs_extends_refl|].
  intros ???. unfold keeps_entries. apply fs_extends_trans.
Qed.

Lemma same_uuid_fs_call {A} (m : FS A) : preserves same_uuid (fs_call m).
Proof. intros w r w'. unfold fs_call. destruct (m (w_fs w)) as [[|] ?]; by intros [= _ <-]. Qed.

Lemma same_uuid_exists_sync p : preserves same_uuid (exists_sync p).
Proof. by intros w r w' [= _ <-]. Qed.

Lemma same_uuid_log_info msg : preserves same_uuid (log_info msg).
Proof. by intros w r w' [= _ <-]. Qed.

Lemma same_uuid_new_date : preserves same_uuid new_date.
Proof. by intros w r w' [= _ <-]. Qed.

Lemma keeps_exists_sync x p : preserves (keeps_entries x) (exists_sync p).
Proof. intros w r w' [= _ <-]. reflexivity. Qed.

Lemma keeps_log_info x msg : preserves (keeps_entries x) (log_info msg).
Proof. intros w r w' [= _ <-]. apply fs_extends_refl. Qed.

Lemma keeps_new_date x : preserves (keeps_entries x) new_date.
Proof. intros w r w' [= _ <-]. reflexivity. Qed.

Lemma keeps_fs_call {A} x (m : FS A) :
  (forall fs r fs', m fs = (r, fs') -> fs_extends_except x fs fs') ->
  preserves (keeps_entries x) (fs_call m).
Proof.
  intros Hm w r w'. unfold fs_call.
  destruct (m (w_fs w)) as [[|] fs'] eqn:E; intros [= _ <-]; exact (Hm _ _ _ E).
Qed.

Lemma keeps_mkdir x p : preserves (keeps_entries x) (fs_call (mkdir_recursive p)).
Proof. apply keeps_fs_call. intros. by eapply mkdir_recursive_extends. Qed.

Lemma keeps_writeFile p d : preserves (keeps_entries (canon p)) (fs_call (writeFile p d)).
Proof. apply keeps_fs_call. intros. by eapply writeFile_extends. Qed.

Lemma keeps_generateUUID `{KeyPrimitives} x : preserves (keeps_entries x) generateUUID.
Proof. intros w r w' [= _ <-]. apply fs_extends_refl. Qed.

Lemma keeps_buildKey `{KeyPrimitives} x P fn : preserves (keeps_entries x) (buildKey P fn).
Proof. unfold buildKey. eauto using keeps_generateUUID with storage typeclass_instances. Qed.

#[export] Hint Resolve keeps_generateUUID keeps_buildKey : storage.

#[export] Hint Resolve same_uuid_fs_call same_uuid_exists_sync same_uuid_log_info
  same_uuid_new_date keeps_exists_sync keeps_log_info keeps_new_date keeps_mkdir
  keeps_writeFile : storage.

Ltac pure_steps :=
  cbv [ret new_date log_info modify exists_sync generateUUID] in *; simplify_eq/=.

Lemma ensureStorageDir_same_uuid sp : preserves same_uuid (ensureStorageDir sp).
Proof. unfold ensureStorageDir. eauto 10 with storage typeclass_instances. Qed.

Lemma ensureStorageDir_keeps x sp : preserves (keeps_entries x) (ensureStorageDir sp).
Proof. unfold ensureStorageDir. eauto 10 with storage typeclass_instances. Qed.

#[export] Hint Resolve ensureStorageDir_same_uuid ensureStorageDir_keeps : storage.

(** The configured prefix is usable as a key namespace: empty, or a
    relative path of safe segments (what [resolveStoragePrefix] gives for a
    sane configuration). *)
Definition prefix_ok (P : string) : Prop := P = "" \/ Forall safe_seg (split_on sep P).

(** The key the spec describes: [<prefix>/<uuid>-<sanitized name>]. *)
Definition key_template (P id safeName : string) : string :=
  (if decide (P = "") then "" else P ++ "/") ++ id ++ "-" ++ safeName.

Section Theorems.
Context `{KP : KeyPrimitives}.

(** The last segment of a key: one safe segment, free of ["/"]. *)
Lemma key_name_piece n s :
  safe_seg (uuid_tape n ++ "-" ++ sanitizeFilename s) /\
  str_has sep (uuid_tape n ++ "-" ++ sanitizeFilename s) = false.
Proof.
  pose proof (uuid_chars n) as Hu. pose proof (uuid_nonempty n) as Hne.
  split.
  - destruct (uuid_tape n) as [|a u]; [done|]. simpl in Hu.
  apply andb_prop in Hu as [Ha _].
  repeat split; intros [=]; subst; done.
  - rewrite !str_has_app. rewrite (str_has_forall _ _ _ Hu) by done.
  by rewrite (str_has_forall _ _ _ (sanitize_chars s)).
Qed.

(** [buildKey] makes exactly the key [<prefix>/<uuid>-<sanitized
  name>] (without the prefix when none is configured) from the next UUID,
  and moves the generator on by one draw. *)
Lemma buildKey_spec_run P fn w :
  prefix_ok P ->
  buildKey P fn w =
  (Ok (key_template P (uuid_tape (w_uuid w))
       (sanitizeFilename (if decide (fn = "") then "file" else fn))),
 World (w_fs w) (S (w_uuid w)) (w_log w)).
Proof.
  intros HP. unfold buildKey, generateUUID, bind, ret, key_template. f_equal. f_equal.
  set (name := uuid_tape (w_uuid w) ++ "-" ++ _).
  destruct (key_name_piece (w_uuid w) (if decide (fn = "") then "file" else fn))
  as [Hsafe Hsep].
  fold name in Hsafe, Hsep.
  assert (Hname : split_on sep name = [name]) by (by apply split_on_no_sep).
  destruct HP as [->|HP].
  - rewrite decide_True by done. unfold join. simpl.
  rewrite filter_cons_False by (intros Hc; by apply Hc).
  rewrite filter_cons_True by (destruct Hsafe as [? _]; simpl; exact H). simpl.
  rewrite filter_nil. change (normalize name = name).
  apply normalize_safe. rewrite Hname. by apply Forall_singleton.
  - case_decide as HPe; [subst; inversion HP as [|? ? [Hc _] _]; done|].
  assert (HP1 : (P ++ "/")%string <> "") by (destruct P; simpl; intros [=]).
  rewrite join_two by (try done; by destruct Hsafe).
  assert (Hx : split_on sep ((P ++ "/") ++ String sep name) =
             (split_on sep P ++ "" :: [name])%list).
  { rewrite string_app_assoc. change ("/" ++ String sep name) with (String sep (String sep name)).
  rewrite split_on_app_sep. simpl. by rewrite Hname. }
  assert (Hsegs : path_segs ((P ++ "/") ++ String sep name) = (split_on sep P ++ [name])%list).
  { unfold path_segs. rewrite Hx. rewrite is_abs_app by done.
  rewrite is_abs_app by done.
  rewrite safe_not_abs by done. simpl.
  rewrite normalize_segments_drop_empty.
  pose proof (normalize_segments_app_safe true [] (split_on sep P ++ [name])) as E.
  simpl in E. rewrite E; [done|]. apply Forall_app. split; [done|].
  by apply Forall_singleton. }
  rewrite normalize_as_segs.
  + rewrite Hsegs, join_on_app by (try done; apply split_on_nonempty).
  rewrite join_split. simpl. by rewrite string_app_assoc.
  + rewrite !is_abs_app by done. by apply safe_not_abs.
  + rewrite ends_with_sep_app by (by destruct Hsafe).
  change (String sep name) with (String sep "" ++ name)%string.
  rewrite ends_with_sep_app by (by destruct Hsafe).
  apply safe_not_trailing. rewrite Hname. by apply Forall_singleton.
  + rewrite Hsegs. by destruct (split_on sep P).
Qed.

(** C26. [buildKey] makes exactly the key [<prefix>/<uuid>-<sanitized
  name>] (without the prefix when none is configured) from the next UUID,
  and moves the generator on by one draw. *)
Theorem buildKey_spec P fn w :
  prefix_ok P ->
  buildKey P fn w =
  (Ok (key_template P (uuid_tape (w_uuid w))
       (sanitizeFilename (if decide (fn = "") then "file" else fn))),
 World (w_fs w) (S (w_uuid w)) (w_log w)).
Proof. apply buildKey_spec_run. Qed.

(** [upload] stores the file under the key [buildKey] makes from the
  next UUID and the sanitized filename (["file"] when none or an empty one
  is given), and draws exactly one UUID. *)
Lemma upload_key_run P sp pb c o w r w' :
  prefix_ok P ->
  upload_impl P sp pb c o w = (Ok r, w') ->
  res_key r = key_template P (uuid_tape (w_uuid w))
            (sanitizeFilename (let f := default "file" (opt_filename o) in
                               if decide (f = "") then "file" else f)) /\
  w_uuid w' = S (w_uuid w).
Proof.
  intros HP H. unfold upload_impl in H.
  apply bind_Ok_inv in H as (? & w1 & Hens & H).
  pose proof (ensureStorageDir_same_uuid sp _ _ _ Hens) as U1.
  apply bind_Ok_inv in H as (buf & w2 & Hbuf & H). cbv [ret] in Hbuf. simplify_eq.
  apply bind_Ok_inv in H as (key & w3 & Hkey & H).
  rewrite buildKey_spec_run in Hkey by done. simplify_eq.
  match type of H with
  | bind ?m ?k _ = _ =>
  assert (U : preserves same_uuid (bind m k)) by (eauto 20 with storage typeclass_instances)
  end.
  pose proof (U _ _ _ H) as U2. unfold same_uuid in U1, U2. simpl in U2.
  do 5 peel H. pure_steps. split; [by rewrite U1|by rewrite U2, U1].
Qed.

(** C27. [upload] stores the file under the key [buildKey] makes from the
  next UUID and the sanitized filename (["file"] when none or an empty one
  is given), and draws exactly one UUID. *)
Theorem upload_key P sp pb c o w r w' :
  prefix_ok P ->
  upload_impl P sp pb c o w = (Ok r, w') ->
  res_key r = key_template P (uuid_tape (w_uuid w))
            (sanitizeFilename (let f := default "file" (opt_filename o) in
                               if decide (f = "") then "file" else f)) /\
  w_uuid w' = S (w_uuid w).
Proof. apply upload_key_run. Qed.

Lemma key_template_segs P n s :
  prefix_ok P ->
  split_on sep (key_template P (uuid_tape n) (sanitizeFilename s)) =
  ((if decide (P = "") then [] else split_on sep P) ++
 [(uuid_tape n ++ "-" ++ sanitizeFilename s)%string])%list.
Proof.
  intros HP. destruct (key_name_piece n s) as [Hsafe Hsep]. unfold key_template.
  case_decide; simpl; [by apply split_on_no_sep|].
  rewrite string_app_assoc. change ("/" ++ ?x) with (String sep x).
  rewrite split_on_app_sep. by rewrite (split_on_no_sep _ _ Hsep).
Qed.

Lemma key_template_safe P n s :
  prefix_ok P -> Forall safe_seg (split_on sep (key_template P (uuid_tape n) (sanitizeFilename s))).
Proof.
  intros HP. rewrite key_template_segs by done.
  apply Forall_app. split.
  - case_decide; [done|]. by destruct HP.
  - apply Forall_singleton. apply key_name_piece.
Qed.

(** C3. Path safety of generated keys: with a sane prefix, the file of
  every key [buildKey] makes lies strictly under the storage directory,
  whatever filename the caller supplied. *)
Theorem buildKey_within_root P sp fn w key w' :
  prefix_ok P -> sp <> "" -> buildKey P fn w = (Ok key, w') ->
  within_root sp (getFilePath sp key).
Proof.
  intros HP Hsp H. rewrite buildKey_spec_run in H by done. injection H as <- _.
  apply join_within_root; [done| |by apply key_template_safe].
  unfold key_template. destruct (uuid_tape (w_uuid w)) eqn:E;
  [by pose proof (uuid_nonempty (w_uuid w))|]. by case_decide; [|destruct P].
Qed.

(** What an [upload] that resolved did: the key it drew and the file it
  wrote under the storage directory. *)
Lemma upload_Ok_inv P sp pb c o w r w' :
  upload_impl P sp pb c o w = (Ok r, w') ->
  exists fs0,
  fs_faults fs0 !! canon (getFilePath sp (res_key r)) = None /\
  is_root_dir (canon (getFilePath sp (res_key r))) = false /\
  w_fs w' = Fsys (<[canon (getFilePath sp (res_key r)) :=
                  NFile (toBuffer c) (fs_now fs0)]> (fs_nodes fs0))
               (fs_faults fs0) (fs_now fs0).
Proof.
  unfold upload_impl. intros H.
  do 8 peel H. pure_steps.
  match goal with
  | Hc : fs_call (writeFile _ _) _ = (Ok ?u, _) |- _ =>
  destruct u; apply fs_call_Ok_inv in Hc as [Hwr _];
  apply writeFile_Ok_inv in Hwr as (Hf & Hr & Hw)
  end.
  eexists. split; [exact Hf|]. split; [exact Hr|]. exact Hw.
Qed.

(** What an [upload] that resolved answers: the public URL of its key,
  and metadata naming the key, its last segment, the content type the
  caller gave (the generic binary type when none), the byte count and
  the time of the write. *)
Lemma upload_result_run P sp pb c o w r w' :
  upload_impl P sp pb c o w = (Ok r, w') ->
  res_sourceUrl r = getPublicUrl pb (res_key r) /\
  res_metadata r = {| md_key := res_key r; md_filename := basename (res_key r);
                      md_contentType := js_or (opt_contentType o) octet_stream;
                      md_size := List.length (toBuffer c);
                      md_uploadedAt := fs_now (w_fs w') |}.
Proof. unfold upload_impl. intros H. do 8 peel H. pure_steps. done. Qed.

(** C28. What an [upload] that resolved answers: the public URL of its key,
  and metadata naming the key, its last segment, the content type the
  caller gave (the generic binary type when none), the byte count and
  the time of the write. *)
Theorem upload_result P sp pb c o w r w' :
  upload_impl P sp pb c o w = (Ok r, w') ->
  res_sourceUrl r = getPublicUrl pb (res_key r) /\
  res_metadata r = {| md_key := res_key r; md_filename := basename (res_key r);
                      md_contentType := js_or (opt_contentType o) octet_stream;
                      md_size := List.length (toBuffer c);
                      md_uploadedAt := fs_now (w_fs w') |}.
Proof. apply upload_result_run. Qed.

(** Round trip: after an [upload] resolves, downloading the key it
  returned gives back exactly the bytes uploaded. *)
Lemma upload_download_roundtrip_run P sp pb c o w r w' :
  upload_impl P sp pb c o w = (Ok r, w') ->
  download_impl sp (res_key r) w' = (Ok (toBuffer c), w').
Proof.
  intros H. apply upload_Ok_inv in H as (fs0 & Hf & Hr & Hw).
  unfold download_impl. apply catch_ok.
  rewrite (fs_call_Ok _ _ (toBuffer c) (w_fs w')); [by rewrite world_eta|].
  rewrite Hw. eapply readFile_file; [done|].
  rewrite entry_insert by done. by rewrite decide_True.
Qed.

(** C1. Round trip: after an [upload] resolves, downloading the key it
  returned gives back exactly the bytes uploaded. *)
Theorem upload_download_roundtrip P sp pb c o w r w' :
  upload_impl P sp pb c o w = (Ok r, w') ->
  download_impl sp (res_key r) w' = (Ok (toBuffer c), w').
Proof. apply upload_download_roundtrip_run. Qed.

(** ** Reading and removing a key *)

Section Key.
Context (sp key : string) (w : world).
Let fp := getFilePath sp key.
Let c := canon fp.

(** [download] of a key with no file behind it rejects with
  [FileNotFoundError] carrying the key and the ENOENT error, and
  changes nothing. *)
Lemma download_missing_run :
  fs_faults (w_fs w) !! c = None -> entry (w_fs w) c = None ->
  download_impl sp key w =
  (Err (FileNotFoundError key (FsError ENOENT "open" fp)), w).
Proof.
  intros Hf He. unfold download_impl.
  rewrite (catch_err _ _ w (ErrnoException (FsError ENOENT "open" fp)) w).
  - reflexivity.
  - rewrite (fs_call_Err _ _ (FsError ENOENT "open" fp) (w_fs w));
  [by rewrite world_eta|].
  by apply readFile_missing.
Qed.

(** C21. [download] of a key with no file behind it rejects with
  [FileNotFoundError] carrying the key and the ENOENT error, and
  changes nothing. *)
Theorem download_missing :
  fs_faults (w_fs w) !! c = None -> entry (w_fs w) c = None ->
  download_impl sp key w =
  (Err (FileNotFoundError key (FsError ENOENT "open" fp)), w).
Proof. apply download_missing_run. Qed.

(** Any other failure of the read reaches the caller unchanged: the
  same errno, system call and path, never a [FileNotFoundError]. *)
Lemma download_propagates_run e :
  fs_faults (w_fs w) !! c = Some e -> e <> ENOENT ->
  download_impl sp key w = (Err (ErrnoException (FsError e "open" fp)), w).
Proof.
  intros Hf He. unfold download_impl.
  rewrite (catch_err _ _ w (ErrnoException (FsError e "open" fp)) w).
  - unfold is_enoent. simpl.
  rewrite (bool_decide_eq_false_2 (errno_code e = "ENOENT")); [done|].
  by destruct e.
  - rewrite (fs_call_Err _ _ (FsError e "open" fp) (w_fs w));
  [by rewrite world_eta|].
  unfold readFile. by apply with_path_fault.
Qed.

(** C22. Any other failure of the read reaches the caller unchanged: the
  same errno, system call and path, never a [FileNotFoundError]. *)
Theorem download_propagates e :
  fs_faults (w_fs w) !! c = Some e -> e <> ENOENT ->
  download_impl sp key w = (Err (ErrnoException (FsError e "open" fp)), w).
Proof. apply download_propagates_run. Qed.

Lemma download_file d m :
  fs_faults (w_fs w) !! c = None -> entry (w_fs w) c = Some (NFile d m) ->
  download_impl sp key w = (Ok d, w).
Proof.
  intros Hf He. unfold download_impl. apply catch_ok.
  rewrite (fs_call_Ok _ _ d (w_fs w)); [by rewrite world_eta|].
  by eapply readFile_file.
Qed.

(** [exists] never rejects and changes nothing: it answers what
  [existsSync] would for the file of the key. *)
Lemma exists_is_existsSync_run :
  exists_impl sp key w = (Ok (existsSync fp (w_fs w)), w).
Proof.
  unfold exists_impl, existsSync, fs_call, access, with_path, catch, bind.
  unfold c, fp. destruct w as [fs u l]; simpl.
  destruct (fs_faults fs !! canon (getFilePath sp key)); [done|].
  by destruct (entry fs (canon (getFilePath sp key))).
Qed.

(** C25. [exists] never rejects and changes nothing: it answers what
  [existsSync] would for the file of the key, so a missing file and a
  file the process may not access both read as [false]. *)
Theorem exists_is_existsSync :
  exists_impl sp key w = (Ok (existsSync fp (w_fs w)), w).
Proof. apply exists_is_existsSync_run. Qed.

(** The metadata [getMetadata] derives from a file: the key, its last
  segment, the type of its lower-cased extension in the table (or the
  generic binary type), the byte length and the modification time. *)
Definition metadata_of (size : nat) (m : Z) : FileMetadata :=
  {| md_key := key; md_filename := basename key;
 md_contentType := js_or (lookup_table contentTypeMap (toLowerCase (extname key)))
                         octet_stream;
 md_size := size; md_uploadedAt := m |}.

(** [getMetadata] of a key with no file behind it resolves to
  [null], not an error, and changes nothing. *)
Lemma getMetadata_missing_run :
  fs_faults (w_fs w) !! c = None -> entry (w_fs w) c = None ->
  getMetadata_impl sp key w = (Ok None, w).
Proof.
  intros Hf He. unfold getMetadata_impl.
  rewrite (catch_err _ _ w (ErrnoException (FsError ENOENT "stat" fp)) w); [done|].
  apply bind_err. rewrite (fs_call_Err _ _ (FsError ENOENT "stat" fp) (w_fs w));
  [by rewrite world_eta|].
  by apply stat_missing.
Qed.

(** C24. [getMetadata] of a key with no file behind it resolves to
  [null], not an error, and changes nothing. *)
Theorem getMetadata_missing :
  fs_faults (w_fs w) !! c = None -> entry (w_fs w) c = None ->
  getMetadata_impl sp key w = (Ok None, w).
Proof. apply getMetadata_missing_run. Qed.

(** [getMetadata] of a file gives the metadata derived from its stat
  and its key. *)
Lemma getMetadata_file_run d m :
  fs_faults (w_fs w) !! c = None -> entry (w_fs w) c = Some (NFile d m) ->
  getMetadata_impl sp key w = (Ok (Some (metadata_of (List.length d) m)), w).
Proof.
  intros Hf He. unfold getMetadata_impl. apply catch_ok.
  rewrite (bind_ok _ _ w (Stats (List.length d) m true) w); [reflexivity|].
  rewrite (fs_call_Ok _ _ (Stats (List.length d) m true) (w_fs w));
  [by rewrite world_eta|].
  by eapply stat_file.
Qed.

(** C29. [getMetadata] of a file gives the metadata derived from its stat
  and its key. *)
Theorem getMetadata_file d m :
  fs_faults (w_fs w) !! c = None -> entry (w_fs w) c = Some (NFile d m) ->
  getMetadata_impl sp key w = (Ok (Some (metadata_of (List.length d) m)), w).
Proof. apply getMetadata_file_run. Qed.

(** A key naming a directory has metadata (the directory's stat). *)
Lemma getMetadata_dir m :
  fs_faults (w_fs w) !! c = None -> entry (w_fs w) c = Some (NDir m) ->
  getMetadata_impl sp key w = (Ok (Some (metadata_of dir_block_size m)), w).
Proof.
  intros Hf He. unfold getMetadata_impl. apply catch_ok.
  rewrite (bind_ok _ _ w (Stats dir_block_size m false) w); [reflexivity|].
  rewrite (fs_call_Ok _ _ (Stats dir_block_size m false) (w_fs w));
  [by rewrite world_eta|].
  by apply stat_dir.
Qed.

(** ... but cannot be read. *)
Lemma download_dir m :
  fs_faults (w_fs w) !! c = None -> entry (w_fs w) c = Some (NDir m) ->
  download_impl sp key w = (Err (ErrnoException (FsError EISDIR "read" fp)), w).
Proof.
  intros Hf He. unfold download_impl.
  rewrite (catch_err _ _ w (ErrnoException (FsError EISDIR "read" fp)) w); [done|].
  rewrite (fs_call_Err _ _ (FsError EISDIR "read" fp) (w_fs w)); [by rewrite world_eta|].
  by apply (readFile_dir _ _ m).
Qed.

(** A path whose every access fails with ENOENT reads as missing. *)
Lemma getMetadata_enoent :
  fs_faults (w_fs w) !! c = Some ENOENT -> getMetadata_impl sp key w = (Ok None, w).
Proof.
  intros Hf. unfold getMetadata_impl.
  rewrite (catch_err _ _ w (ErrnoException (FsError ENOENT "stat" fp)) w); [done|].
  apply bind_err. rewrite (fs_call_Err _ _ (FsError ENOENT "stat" fp) (w_fs w));
  [by rewrite world_eta|].
  unfold stat. by apply with_path_fault.
Qed.

Lemma download_enoent :
  fs_faults (w_fs w) !! c = Some ENOENT ->
  download_impl sp key w = (Err (FileNotFoundError key (FsError ENOENT "open" fp)), w).
Proof.
  intros Hf. unfold download_impl.
  rewrite (catch_err _ _ w (ErrnoException (FsError ENOENT "open" fp)) w); [done|].
  rewrite (fs_call_Err _ _ (FsError ENOENT "open" fp) (w_fs w)); [by rewrite world_eta|].
  unfold readFile. by apply with_path_fault.
Qed.

(** Any other failure of the stat reaches the caller unchanged. *)
Lemma getMetadata_propagates_run e :
  fs_faults (w_fs w) !! c = Some e -> e <> ENOENT ->
  getMetadata_impl sp key w = (Err (ErrnoException (FsError e "stat" fp)), w).
Proof.
  intros Hf He. unfold getMetadata_impl.
  rewrite (catch_err _ _ w (ErrnoException (FsError e "stat" fp)) w).
  - unfold code_is_enoent, is_enoent. simpl.
  rewrite (bool_decide_eq_false_2 (errno_code e = "ENOENT")); [done|].
  by destruct e.
  - apply bind_err. rewrite (fs_call_Err _ _ (FsError e "stat" fp) (w_fs w));
  [by rewrite world_eta|].
  unfold stat. by apply with_path_fault.
Qed.

(** Any other failure of the stat reaches the caller unchanged. *)
Theorem getMetadata_propagates e :
  fs_faults (w_fs w) !! c = Some e -> e <> ENOENT ->
  getMetadata_impl sp key w = (Err (ErrnoException (FsError e "stat" fp)), w).
Proof. apply getMetadata_propagates_run. Qed.

(** Deleting a key with no file behind it resolves and changes nothing. *)
Lemma delete_missing :
  fs_faults (w_fs w) !! c = None -> entry (w_fs w) c = None ->
  delete_impl sp key w = (Ok tt, w).
Proof.
  intros Hf He. unfold delete_impl.
  rewrite (catch_err _ _ w (ErrnoException (FsError ENOENT "unlink" fp)) w); [done|].
  apply bind_err.
  rewrite (fs_call_Err _ _ (FsError ENOENT "unlink" fp) (w_fs w));
  [by rewrite world_eta|].
  by apply unlink_missing.
Qed.

(** Deleting the key of a file removes the file and logs the deletion. *)
Lemma delete_file d m :
  fs_faults (w_fs w) !! c = None -> entry (w_fs w) c = Some (NFile d m) ->
  delete_impl sp key w =
  (Ok tt, World (Fsys (base.delete c (fs_nodes (w_fs w))) (fs_faults (w_fs w)) (fs_now (w_fs w)))
             (w_uuid w) (w_log w ++ [LogInfo ("File deleted: " ++ key)])).
Proof.
  intros Hf He. unfold delete_impl. apply catch_ok.
  rewrite (bind_ok _ _ w tt (World (Fsys (base.delete c (fs_nodes (w_fs w)))
    (fs_faults (w_fs w)) (fs_now (w_fs w))) (w_uuid w) (w_log w))); [reflexivity|].
  unfold fs_call, unlink. rewrite with_path_clear by exact Hf.
  fold fp c. by rewrite He.
Qed.

(** Deleting the key of a directory rejects with Linux's EISDIR. *)
Lemma delete_dir m :
  fs_faults (w_fs w) !! c = None -> entry (w_fs w) c = Some (NDir m) ->
  delete_impl sp key w = (Err (ErrnoException (FsError EISDIR "unlink" fp)), w).
Proof.
  intros Hf He. unfold delete_impl.
  rewrite (catch_err _ _ w (ErrnoException (FsError EISDIR "unlink" fp)) w); [done|].
  apply bind_err.
  rewrite (fs_call_Err _ _ (FsError EISDIR "unlink" fp) (w_fs w)); [by rewrite world_eta|].
  unfold unlink. rewrite with_path_clear by exact Hf. fold fp c. by rewrite He.
Qed.
End Key.

(** C23. [delete] is idempotent: once a delete of a key has resolved, a
  second delete of the same key resolves too, and changes nothing. *)
Theorem delete_idempotent sp key w w' :
  delete_impl sp key w = (Ok tt, w') -> delete_impl sp key w' = (Ok tt, w').
Proof.
  intros H. pose proof H as H0. unfold delete_impl in H.
  apply catch_Ok_inv in H as [H|(e & w1 & H1 & H)].
  - peel H. pure_steps.
  match goal with
  | Hc : fs_call (unlink _) _ = (Ok ?u, _) |- _ =>
    destruct u; apply fs_call_Ok_inv in Hc as (Hu & Hid & Hlog);
    apply unlink_Ok_inv in Hu as (Hf & Hr & Hw)
  end.
  apply delete_missing; simpl; rewrite Hw; [done|].
  rewrite entry_delete, decide_True by done. by rewrite Hr.
  - destruct (code_is_enoent e); [|by cbv [throw] in H].
  cbv [ret] in H. assert (w' = w1) as -> by congruence.
  assert (w1 = w) as ->; [|done].
  destruct (fs_call (unlink (getFilePath sp key)) w) as [[[]|e'] w2] eqn:Hu.
  + apply fs_call_Ok_inv in Hu as (Hu & _).
  by rewrite (bind_ok _ _ _ _ _ (fs_call_Ok _ _ _ _ Hu)) in H1.
  + rewrite (bind_err _ _ _ _ _ Hu) in H1. simplify_eq.
  unfold fs_call in Hu.
  destruct (unlink _ (w_fs w)) as [[|] fs2] eqn:E; [done|].
  apply unlink_Err_same in E. simplify_eq. by rewrite world_eta.
Qed.

Lemma key_template_inj P a b s : key_template P a s = key_template P b s -> a = b.
Proof.
  unfold key_template. intros H. apply string_app_inv_l in H.
  rewrite <- !string_app_assoc in H. apply string_app_inv_r in H.
  by apply string_app_inv_r in H.
Qed.

(** The key determines the draw it was made from, whatever the names. *)
Lemma key_template_uuid_inj P n m s1 s2 :
  key_template P (uuid_tape n) s1 = key_template P (uuid_tape m) s2 -> n = m.
Proof.
  unfold key_template. intros H. apply string_app_inv_l in H.
  destruct (string_app_eq_app _ _ _ _ H) as [(t & Ht & Hs)|(t & Ht & Hs)];
    (destruct t as [|x t]; [rewrite string_app_nil_r in Ht; by apply uuid_inj|]);
    simpl in Hs; injection Hs as <- _.
  - by destruct (uuid_dash_free n m t).
  - by destruct (uuid_dash_free m n t).
Qed.

Lemma key_template_nonempty P n s : key_template P (uuid_tape n) s <> "".
Proof.
  unfold key_template. pose proof (uuid_nonempty n).
  destruct (uuid_tape n); [done|]. by case_decide; [|destruct P].
Qed.

(** Two safe keys with the same file on disk are the same key. *)
Lemma canon_getFilePath_inj sp k1 k2 :
  sp <> "" -> k1 <> "" -> k2 <> "" ->
  Forall safe_seg (split_on sep k1) -> Forall safe_seg (split_on sep k2) ->
  canon (getFilePath sp k1) = canon (getFilePath sp k2) -> k1 = k2.
Proof.
  intros Hsp H1 H2 S1 S2. unfold getFilePath, canon.
  destruct (join_safe_segs sp k1) as [A1 ->]; [done..|].
  destruct (join_safe_segs sp k2) as [A2 ->]; [done..|].
  rewrite A1, A2.
  assert (HP : forall k, Forall safe_seg (split_on sep k) ->
 Forall (fun x => str_has sep x = false) (path_segs sp ++ split_on sep k)%list).
  { intros k Sk. apply Forall_app. split.
  - eapply Forall_impl; [apply normalize_segments_pieces|]. by intros ? [].
  - apply split_on_pieces. }
  assert (HJ : join_on sep (path_segs sp ++ split_on sep k1)%list =
           join_on sep (path_segs sp ++ split_on sep k2)%list -> k1 = k2).
  { intros HJ. apply (f_equal (split_on sep)) in HJ.
  assert (NE : forall k, (path_segs sp ++ split_on sep k)%list <> []).
  { intros k. destruct (path_segs sp); [apply split_on_nonempty|done]. }
  rewrite !split_join in HJ by (apply NE || apply HP; done).
  apply app_inv_head in HJ. by rewrite <- (join_split sep k1), HJ, join_split. }
  pose proof (split_on_nonempty sep k1). pose proof (split_on_nonempty sep k2).
  destruct (is_abs sp).
  - intros [= HJ']. by apply HJ.
  - repeat case_decide; try (by destruct (path_segs sp), (split_on sep k1));
  try (by destruct (path_segs sp), (split_on sep k2)); by apply HJ.
Qed.

(** An [upload] leaves every entry of the disk in place but the file it
  writes. *)
Lemma upload_keeps_others P sp pb c o w r w' :
  upload_impl P sp pb c o w = (Ok r, w') ->
  keeps_entries (canon (getFilePath sp (res_key r))) w w'.
Proof.
  unfold upload_impl. intros H.
  apply bind_Ok_inv in H as (? & w1 & Hens & H).
  apply bind_Ok_inv in H as (buf & w2 & Hbuf & H). cbv [ret] in Hbuf. simplify_eq.
  apply bind_Ok_inv in H as (key & w3 & Hkey & H).
  match type of H with
  | bind ?m ?k _ = _ =>
  assert (U : preserves (keeps_entries (canon (getFilePath sp key))) (bind m k))
    by (eauto 20 with storage typeclass_instances)
  end.
  pose proof (U _ _ _ H) as K3.
  pose proof (keeps_buildKey (canon (getFilePath sp key)) _ _ _ _ _ Hkey) as K2.
  pose proof (ensureStorageDir_keeps (canon (getFilePath sp key)) _ _ _ _ Hens) as K1.
  do 5 peel H. pure_steps. by rewrite K1, K2.
Qed.

(** Uniqueness: two uploads in a row with the same content and the same
  filename get two different keys, and after both each key still gives
  back its own bytes. *)
Theorem upload_twice_distinct P sp pb c1 c2 o w r1 w1 r2 w2 :
  prefix_ok P -> sp <> "" ->
  upload_impl P sp pb c1 o w = (Ok r1, w1) ->
  upload_impl P sp pb c2 o w1 = (Ok r2, w2) ->
  res_key r1 <> res_key r2 /\
  download_impl sp (res_key r1) w2 = (Ok (toBuffer c1), w2) /\
  download_impl sp (res_key r2) w2 = (Ok (toBuffer c2), w2).
Proof.
  intros HP Hsp U1 U2.
  destruct (upload_key_run _ _ _ _ _ _ _ _ HP U1) as [K1 N1].
  destruct (upload_key_run _ _ _ _ _ _ _ _ HP U2) as [K2 N2].
  assert (Hne : res_key r1 <> res_key r2).
  { rewrite K1, K2, N1. intros Hk%key_template_inj%uuid_inj. lia. }
  split; [done|]. split; [|by eapply upload_download_roundtrip_run].
  destruct (upload_Ok_inv _ _ _ _ _ _ _ _ U1) as (fs0 & Hf & Hr & Hw).
  destruct (upload_keeps_others _ _ _ _ _ _ _ _ U2) as (F & _ & E & _).
  eapply download_file.
  - rewrite F, Hw. exact Hf.
  - apply E.
  + intros Hc. apply Hne. eapply canon_getFilePath_inj; [done| | | | |exact Hc];
    rewrite ?K1, ?K2; eauto using key_template_nonempty, key_template_safe.
  + rewrite Hw, entry_insert by done. by rewrite decide_True.
Qed.

End Theorems.

(** ** Concrete runs *)

Definition hello : list Byte.byte := [Byte.x68; Byte.x65; Byte.x6c; Byte.x6c; Byte.x6f].

(** An empty disk at time 100, the generator at its 7th draw. *)
Definition demo_world : world := World (Fsys ∅ ∅ 100) 7 [].

Definition notes_options : UploadOptions :=
  {| opt_filename := Some "notes.txt"; opt_contentType := None |}.

(** A disk holding one uploaded file, and one whose only file may not be
    read (EACCES). *)
Definition stored_world : world :=
  World (Fsys {[ "uploads/07-notes.txt" := NFile hello 100 ]} ∅ 100) 8 [].

Definition locked_world : world :=
  World (Fsys {[ "uploads/07-notes.txt" := NFile hello 100 ]}
              {[ "uploads/07-notes.txt" := EACCES ]} 100) 8 [].

Lemma upload_download_roundtrip_witness :
  exists r w', upload_impl "" "./uploads" "" (BufferContent hello) notes_options demo_world
                 = (Ok r, w') /\
               download_impl "./uploads" (res_key r) w' = (Ok hello, w').
Proof.
  eexists _, _. split; [vm_compute; reflexivity|].
  apply (upload_download_roundtrip "" "./uploads" "" (BufferContent hello) notes_options
           demo_world). reflexivity.
Defined.

Lemma download_missing_witness :
  download_impl "./uploads" "nope.txt" demo_world =
    (Err (FileNotFoundError "nope.txt" (FsError ENOENT "open" "uploads/nope.txt")), demo_world).
Proof. apply download_missing; reflexivity. Defined.

Lemma download_propagates_witness :
  download_impl "./uploads" "07-notes.txt" locked_world =
    (Err (ErrnoException (FsError EACCES "open" "uploads/07-notes.txt")), locked_world).
Proof. apply download_propagates; [reflexivity|discriminate]. Defined.

Lemma delete_idempotent_witness :
  delete_impl "./uploads" "07-notes.txt" stored_world =
    (Ok tt, World (Fsys ∅ ∅ 100) 8 [LogInfo "File deleted: 07-notes.txt"]) /\
  delete_impl "./uploads" "07-notes.txt" (World (Fsys ∅ ∅ 100) 8 [LogInfo "File deleted: 07-notes.txt"]) =
    (Ok tt, World (Fsys ∅ ∅ 100) 8 [LogInfo "File deleted: 07-notes.txt"]).
Proof.
  assert (H : delete_impl "./uploads" "07-notes.txt" stored_world =
    (Ok tt, World (Fsys ∅ ∅ 100) 8 [LogInfo "File deleted: 07-notes.txt"]))
    by (vm_compute; reflexivity).
  split; [exact H|]. exact (delete_idempotent _ _ _ _ H).
Defined.

Lemma getMetadata_missing_witness :
  getMetadata_impl "./uploads" "nope.txt" demo_world = (Ok None, demo_world).
Proof. apply getMetadata_missing; reflexivity. Defined.

Lemma getMetadata_file_witness :
  getMetadata_impl "./uploads" "07-notes.txt" stored_world =
    (Ok (Some {| md_key := "07-notes.txt"; md_filename := "07-notes.txt";
                 md_contentType := "text/plain"; md_size := 5; md_uploadedAt := 100 |}),
     stored_world).
Proof.
  rewrite (getMetadata_file "./uploads" "07-notes.txt" stored_world hello 100)
    by reflexivity.
  vm_compute. reflexivity.
Defined.

Lemma getMetadata_propagates_witness :
  getMetadata_impl "./uploads" "07-notes.txt" locked_world =
    (Err (ErrnoException (FsError EACCES "stat" "uploads/07-notes.txt")), locked_world).
Proof. apply getMetadata_propagates; [reflexivity|discriminate]. Defined.

Lemma buildKey_spec_witness :
  prefix_ok "tenant-a" /\
  buildKey "tenant-a" "../../etc/passwd" demo_world =
    (Ok "tenant-a/07-passwd", World (Fsys ∅ ∅ 100) 8 []).
Proof.
  assert (HP : prefix_ok "tenant-a") by (right; repeat constructor; discriminate).
  split; [exact HP|]. rewrite (buildKey_spec _ _ _ HP). reflexivity.
Defined.

Lemma buildKey_within_root_witness :
  within_root "./uploads" (getFilePath "./uploads" "tenant-a/07-passwd").
Proof.
  apply (buildKey_within_root "tenant-a" "./uploads" "../../etc/passwd" demo_world
           "tenant-a/07-passwd" (World (Fsys ∅ ∅ 100) 8 [])).
  - right; repeat constructor; discriminate.
  - discriminate.
  - vm_compute. reflexivity.
Defined.

Lemma upload_key_witness :
  exists r w', upload_impl "" "./uploads" "" (BufferContent hello) notes_options demo_world
                 = (Ok r, w') /\ res_key r = "07-notes.txt" /\ w_uuid w' = 8.
Proof.
  eexists _, _. split; [vm_compute; reflexivity|].
  match goal with
  | |- res_key ?r = _ /\ w_uuid ?w' = _ =>
      assert (H : upload_impl "" "./uploads" "" (BufferContent hello) notes_options demo_world
                  = (Ok r, w')) by (vm_compute; reflexivity);
      destruct (upload_key _ _ _ _ _ _ _ _ (or_introl eq_refl) H) as [H1 H2]
  end.
  rewrite H1, H2. split; vm_compute; reflexivity.
Defined.

Lemma upload_result_witness :
  exists r w', upload_impl "" "./uploads" "" (BufferContent hello) notes_options demo_world
                 = (Ok r, w') /\ res_sourceUrl r = "/api/storage/files/07-notes.txt" /\
               md_size (res_metadata r) = 5.
Proof.
  eexists _, _. split; [vm_compute; reflexivity|].
  match goal with
  | |- res_sourceUrl ?r = _ /\ _ =>
      assert (H : exists w', upload_impl "" "./uploads" "" (BufferContent hello) notes_options
                demo_world = (Ok r, w')) by (eexists; vm_compute; reflexivity)
  end.
  destruct H as [w' H]. destruct (upload_result _ _ _ _ _ _ _ _ H) as [H1 H2].
  rewrite H1, H2. split; vm_compute; reflexivity.
Defined.

Lemma upload_twice_distinct_witness :
  exists r1 w1 r2 w2,
    upload_impl "" "./uploads" "" (BufferContent hello) notes_options demo_world = (Ok r1, w1) /\
    upload_impl "" "./uploads" "" (BufferContent hello) notes_options w1 = (Ok r2, w2) /\
    res_key r1 <> res_key r2 /\
    download_impl "./uploads" (res_key r1) w2 = (Ok hello, w2) /\
    download_impl "./uploads" (res_key r2) w2 = (Ok hello, w2).
Proof.
  eexists _, _, _, _. split; [vm_compute; reflexivity|]. split; [vm_compute; reflexivity|].
  match goal with
  | |- res_key ?r1 <> res_key ?r2 /\ download_impl _ _ ?w2 = _ /\ _ =>
      apply (upload_twice_distinct "" "./uploads" "" (BufferContent hello) (BufferContent hello)
               notes_options demo_world r1
               (snd (upload_impl "" "./uploads" "" (BufferContent hello) notes_options
                       demo_world)) r2 w2)
  end.
  - by left.
  - discriminate.
  - vm_compute. reflexivity.
  - vm_compute. reflexivity.
Defined.

(** C33. Finding: the content type [upload] reports for a [.png] upload without
    an explicit type is the generic binary type, while [getMetadata] of the
    same key, right after, infers [image/png] from the extension. *)
Theorem upload_metadata_type_differs :
  exists r w',
    upload_impl "" "./uploads" "" (BufferContent hello)
      {| opt_filename := Some "photo.png"; opt_contentType := None |} demo_world = (Ok r, w') /\
    md_contentType (res_metadata r) = "application/octet-stream" /\
    getMetadata_impl "./uploads" (res_key r) w' =
      (Ok (Some {| md_key := res_key r; md_filename := "07-photo.png";
                   md_contentType := "image/png"; md_size := 5; md_uploadedAt := 100 |}), w').
Proof. eexists _, _. split; [vm_compute; reflexivity|]. split; vm_compute; reflexivity. Qed.

End LocalFileStorage.
