(* ===== verification/LocalRefinement.v ===== *)
(** * LocalRefinement: the local backend implements the [FileStorage] contract

    [local_abs P sp σ w] relates an abstract store [σ] (the bytes under each
    key, [FileStorageInterface.store]) to a world of the local backend
    whose storage directory is [sp] and whose key prefix is [P]:
    - no faults are injected (every access either finds its entry or
      fails with ENOENT);
    - the store holds only well-formed keys ([key_ok]), and for every
      well-formed key it holds exactly the bytes of the file at
      [getFilePath sp key] (none when no file is there: nothing, or a
      directory);
    - no file sits at the path of a key the generator has not drawn yet.

    The lemmas below show that every operation of [createLocalFileStorage]
    keeps the relation and answers as the contract says, on every branch
    of its code; [local_contract] packs them as an instance of
    [StorageContract].  A failed [upload] may have created directories
    (by [ensureStorageDir] or [fs.mkdir]) but never a file: the
    combinators [on_err] and [never_err] follow the rejection through the
    handler. *)

From S2P Require Import Prelude NodePath NodeFs StorageUtils FileStorageInterface LocalFileStorage.

Local Open Scope string_scope.
Local Open Scope async_scope.

Module LocalRefinement.
Import NodePath NodeFs StorageUtils FileStorageInterface LocalFileStorage.

(** ** What a rejected step preserves *)

(** The step cannot reject. *)
Definition never_err {A} (m : M A) : Prop := forall w e w', m w <> (Err e, w').

Section OnErr.
Context (R : relation world) `{!PreOrder R}.

(** When the step rejects, it relates the world before to the world
    after by [R]. *)
Definition on_err {A} (m : M A) : Prop := forall w e w', m w = (Err e, w') -> R w w'.

Lemma on_err_bind {A B} (m : M A) (k : A -> M B) :
  preserves R m -> (forall a, on_err (k a)) -> on_err (bind m k).
Proof.
  intros Hm Hk w e w'. unfold bind. destruct (m w) as [[a|e'] w1] eqn:E; intros H.
  - etrans; [by apply (Hm _ _ _ E)|]. by apply (Hk a _ _ _ H).
  - injection H as _ <-. by apply (Hm _ _ _ E).
Qed.

(** The last fallible step of a sequence. *)
Lemma on_err_last {A B} (m : M A) (k : A -> M B) :
  on_err m -> (forall a, never_err (k a)) -> on_err (bind m k).
Proof.
  intros Hm Hk w e w'. unfold bind. destruct (m w) as [[a|e'] w1] eqn:E; intros H.
  - by apply Hk in H.
  - injection H as _ <-. by apply (Hm _ _ _ E).
Qed.
End OnErr.

Lemma never_err_ret {A} (a : A) : never_err (ret a).
Proof. by intros w e w'. Qed.

Lemma never_err_new_date : never_err new_date.
Proof. by intros w e w'. Qed.

Lemma never_err_log_info msg : never_err (log_info msg).
Proof. by intros w e w'. Qed.

Lemma never_err_bind {A B} (m : M A) (k : A -> M B) :
  never_err m -> (forall a, never_err (k a)) -> never_err (bind m k).
Proof.
  intros Hm Hk w e w'. unfold bind. destruct (m w) as [[a|e'] w1] eqn:E.
  - apply Hk.
  - by apply Hm in E.
Qed.

(** A failed [writeFile] changed nothing. *)
Lemma on_err_writeFile x p d : on_err (keeps_entries x) (fs_call (writeFile p d)).
Proof.
  intros w e w'. unfold fs_call.
  destruct (writeFile p d (w_fs w)) as [[|e'] fs'] eqn:E; [done|].
  intros [= _ <-]. apply writeFile_Err_same in E. subst. apply fs_extends_refl.
Qed.

(** ** The generator only moves forward *)

Definition uuid_le : relation world := fun w w' => w_uuid w <= w_uuid w'.

#[export] Instance uuid_le_preorder : PreOrder uuid_le.
Proof. split; [intros w; red; lia|intros ???; unfold uuid_le; lia]. Qed.

Lemma uuid_le_same {A} (m : M A) : preserves same_uuid m -> preserves uuid_le m.
Proof. intros Hm w r w' H. red. rewrite (Hm _ _ _ H). lia. Qed.

Lemma uuid_le_buildKey `{KeyPrimitives} P fn : preserves uuid_le (buildKey P fn).
Proof. intros w r w'. unfold buildKey, bind, generateUUID, ret. intros [= _ <-]. red; simpl; lia. Qed.

#[export] Hint Resolve on_err_bind on_err_last on_err_writeFile never_err_ret
  never_err_new_date never_err_log_info never_err_bind uuid_le_buildKey : storage.
#[export] Hint Extern 2 (preserves uuid_le _) => apply uuid_le_same : storage.

Section Frames.
Context `{KP : KeyPrimitives}.

(** A rejected [upload] created no file and changed none. *)
Lemma upload_on_err x P sp pb c o : on_err (keeps_entries x) (upload_impl P sp pb c o).
Proof. unfold upload_impl. eauto 20 with storage typeclass_instances. Qed.

Lemma upload_uuid_le P sp pb c o : preserves uuid_le (upload_impl P sp pb c o).
Proof. unfold upload_impl. eauto 20 with storage typeclass_instances. Qed.
End Frames.

(** ** The abstraction *)

Definition file_of (e : option node) : option (list Byte.byte) :=
  match e with Some (NFile d _) => Some d | _ => None end.

Section Abs.
Context `{KP : KeyPrimitives} (P sp : string).

(** The bytes of the file of a key, if there is a file. *)
Definition file_at (w : world) (k : string) : option (list Byte.byte) :=
  file_of (entry (w_fs w) (canon (getFilePath sp k))).

Record local_abs (σ : store) (w : world) : Prop := {
  abs_faults : fs_faults (w_fs w) = ∅;
  abs_keys : forall k d, σ !! k = Some d -> key_ok k;
  abs_files : forall k, key_ok k -> σ !! k = file_at w k;
  abs_fresh : forall n s, w_uuid w <= n ->
    file_at w (key_template P (uuid_tape n) (sanitizeFilename s)) = None
}.

(** A step that keeps the entries but [x] keeps the file of every key
    whose path is not [x]. *)
Lemma file_at_keep x w w' k :
  keeps_entries x w w' -> canon (getFilePath sp k) <> x -> file_at w' k = file_at w k.
Proof.
  intros (_ & _ & E & B) Hx. unfold file_at.
  destruct (entry (w_fs w) _) as [n|] eqn:Hn; [by rewrite (E _ n)|].
  destruct (entry (w_fs w') _) as [[d m|m]|] eqn:Hn'; [|done..].
  apply B in Hn'; [congruence|done].
Qed.

Lemma file_at_keep_all w w' k :
  (forall x, keeps_entries x w w') -> file_at w' k = file_at w k.
Proof.
  intros H. apply (file_at_keep (String "a" (canon (getFilePath sp k)))); [done|].
  intros Hc. apply (f_equal String.length) in Hc. simpl in Hc. lia.
Qed.

(** The relation survives a step that changes no file, adds no fault and
    does not move the generator back. *)
Lemma local_abs_frame σ w w' :
  local_abs σ w -> fs_faults (w_fs w') = fs_faults (w_fs w) ->
  uuid_le w w' -> (forall k, file_at w' k = file_at w k) -> local_abs σ w'.
Proof.
  intros [F K Fi Fr] HF HU Hk. split.
  - congruence.
  - done.
  - intros k Hok. rewrite Hk. by apply Fi.
  - intros n s Hn. rewrite Hk. apply Fr. red in HU. lia.
Qed.
(** A fresh installation: an empty disk without faults, any position of
    the generator, any log, stands for the empty store. *)
Lemma local_abs_empty now u l : local_abs ∅ (World (Fsys ∅ ∅ now) u l).
Proof.
  assert (E : forall k, file_at (World (Fsys ∅ ∅ now) u l) k = None).
  { intros k. unfold file_at, entry. simpl. by destruct (is_root_dir _). }
  split; [done|by intros ??|intros k _; by rewrite E|intros n s _; by rewrite E].
Qed.
End Abs.

(** ** The operations *)

Section Ops.
Context `{KP : KeyPrimitives} (P sp : string) (HP : prefix_ok P) (Hsp : sp <> "").

Lemma abs_no_fault σ w q : local_abs P sp σ w -> fs_faults (w_fs w) !! q = None.
Proof. intros [F _ _ _]. rewrite F. apply lookup_empty. Qed.

Lemma key_path_inj k1 k2 :
  key_ok k1 -> key_ok k2 -> canon (getFilePath sp k1) = canon (getFilePath sp k2) -> k1 = k2.
Proof. intros [? ?] [? ?]. by apply canon_getFilePath_inj. Qed.

Lemma template_key_ok n s : key_ok (key_template P (uuid_tape n) (sanitizeFilename s)).
Proof. split; [apply key_template_nonempty|by apply key_template_safe]. Qed.

(** Split on what is at the path of a well-formed key, with the store's
    view of it. *)
Ltac entry_cases A k Hk :=
  let Hf := fresh "Hf" in let Hs := fresh "Hs" in
  pose proof (abs_no_fault _ _ (canon (getFilePath sp k)) A) as Hf;
  pose proof (abs_files _ _ _ _ A k Hk) as Hs; unfold file_at in Hs;
  destruct (entry (w_fs _) (canon (getFilePath sp k))) as [[?d ?m|?m]|] eqn:?E;
  simpl in Hs.

Lemma local_download σ w k r w' :
  local_abs P sp σ w -> key_ok k -> download_impl sp k w = (r, w') ->
  local_abs P sp σ w' /\
  match σ !! k with Some d => r = Ok d | None => exists e, r = Err e end.
Proof.
  intros A Hk H. entry_cases A k Hk; rewrite Hs.
  - rewrite (download_file sp k w _ _ Hf E) in H. by simplify_eq.
  - rewrite (download_dir sp k w _ Hf E) in H. simplify_eq. eauto.
  - rewrite (download_missing_run sp k w Hf E) in H. simplify_eq. eauto.
Qed.

Lemma local_getMetadata σ w k r w' :
  local_abs P sp σ w -> key_ok k -> getMetadata_impl sp k w = (r, w') ->
  local_abs P sp σ w' /\ exists o, r = Ok o /\
    forall d, σ !! k = Some d ->
      exists md, o = Some md /\ md_key md = k /\ md_size md = List.length d.
Proof.
  intros A Hk H. entry_cases A k Hk; rewrite Hs.
  - rewrite (getMetadata_file_run sp k w _ _ Hf E) in H. simplify_eq.
    split; [done|]. eexists; split; [done|]. intros d' [= <-]. by eexists.
  - rewrite (getMetadata_dir sp k w _ Hf E) in H. simplify_eq.
    split; [done|]. eexists; split; [done|]. by intros ? [=].
  - rewrite (getMetadata_missing_run sp k w Hf E) in H. simplify_eq.
    split; [done|]. eexists; split; [done|]. by intros ? [=].
Qed.

Lemma local_exists σ w k r w' :
  local_abs P sp σ w -> key_ok k -> exists_impl sp k w = (r, w') ->
  local_abs P sp σ w' /\ exists b, r = Ok b /\ (is_Some (σ !! k) -> b = true).
Proof.
  intros A Hk H. rewrite exists_is_existsSync_run in H. injection H as <- <-.
  split; [done|]. eexists; split; [done|]. unfold existsSync. cbv zeta.
  entry_cases A k Hk; rewrite Hs, Hf; [done|..]; by intros [? ?].
Qed.

(** The file of a key after the file at the path of [k] was removed. *)
Lemma file_at_delete w u l k k' :
  file_at sp (World (Fsys (base.delete (canon (getFilePath sp k)) (fs_nodes (w_fs w)))
                          (fs_faults (w_fs w)) (fs_now (w_fs w))) u l) k' =
  if decide (canon (getFilePath sp k') = canon (getFilePath sp k)) then None
  else file_at sp w k'.
Proof.
  unfold file_at. simpl. rewrite entry_delete.
  case_decide; [by destruct (is_root_dir _)|]. by destruct (w_fs w).
Qed.

Lemma local_delete σ w k r w' :
  local_abs P sp σ w -> key_ok k -> delete_impl sp k w = (r, w') ->
  match r with
  | Ok _ => local_abs P sp (base.delete k σ) w'
  | Err _ => σ !! k = None /\ local_abs P sp σ w'
  end.
Proof.
  intros A Hk H. entry_cases A k Hk.
  - rewrite (delete_file sp k w _ _ Hf E) in H. simplify_eq.
    destruct A as [F K Fi Fr]. split.
    + exact F.
    + intros k' d' [_ Hk']%lookup_delete_Some. eauto.
    + intros k' Hk'. rewrite file_at_delete. case_decide as Hc.
      * rewrite (key_path_inj k' k Hk' Hk Hc). apply lookup_delete_eq.
      * rewrite lookup_delete_ne by congruence. by apply Fi.
    + intros n s' Hn. rewrite file_at_delete. case_decide; [done|]. by apply Fr.
  - rewrite (delete_dir sp k w _ Hf E) in H. by simplify_eq.
  - rewrite (delete_missing sp k w Hf E) in H. simplify_eq.
    by rewrite delete_id.
Qed.

(** An upload that resolved stored the bytes under a fresh well-formed
    key, and the relation follows the store's insertion. *)
Lemma local_upload_ok σ w pb c o res w' :
  local_abs P sp σ w -> upload_impl P sp pb c o w = (Ok res, w') ->
  key_ok (res_key res) /\ σ !! res_key res = None /\
  md_key (res_metadata res) = res_key res /\
  md_size (res_metadata res) = List.length (toBuffer c) /\
  local_abs P sp (<[res_key res := toBuffer c]> σ) w'.
Proof.
  intros [F K Fi Fr] H.
  destruct (upload_key_run _ _ _ _ _ _ _ _ HP H) as [Hkey Hu].
  destruct (upload_Ok_inv _ _ _ _ _ _ _ _ H) as (fs0 & Hf0 & Hr0 & Hw).
  destruct (upload_result_run _ _ _ _ _ _ _ _ H) as [_ Hmd].
  pose proof (upload_keeps_others _ _ _ _ _ _ _ _ H) as Keep.
  set (key := res_key res) in *.
  assert (Hok : key_ok key) by (rewrite Hkey; apply template_key_ok).
  assert (Hother : forall k, key_ok k -> k <> key -> file_at sp w' k = file_at sp w k).
  { intros k Hk Hne. eapply file_at_keep; [exact Keep|].
    intros Hc. apply Hne. by apply key_path_inj. }
  rewrite Hmd. split; [done|]. split; [rewrite Fi, Hkey by done; apply Fr; lia|].
  do 2 (split; [done|]). split.
  - destruct Keep as [HF _]. congruence.
  - intros k d [[<- _]|[_ Hk]]%lookup_insert_Some; eauto.
  - intros k Hk. destruct (decide (k = key)) as [->|Hne].
    + rewrite lookup_insert_eq. unfold file_at. rewrite Hw, entry_insert by done.
      by rewrite decide_True.
    + rewrite lookup_insert_ne, Hother by done. by apply Fi.
  - intros n s Hn. rewrite Hu in Hn. rewrite Hother by
      (try apply template_key_ok; rewrite Hkey; intros Heq%key_template_uuid_inj; lia).
    apply Fr. lia.
Qed.

Lemma local_upload σ w pb c o r w' :
  local_abs P sp σ w -> upload_impl P sp pb c o w = (r, w') ->
  match r with
  | Ok res =>
      key_ok (res_key res) /\ σ !! res_key res = None /\
      md_key (res_metadata res) = res_key res /\
      md_size (res_metadata res) = List.length (toBuffer c) /\
      local_abs P sp (<[res_key res := toBuffer c]> σ) w'
  | Err _ => local_abs P sp σ w'
  end.
Proof.
  intros A H. destruct r as [res|e]; [by eapply local_upload_ok|].
  pose proof (fun x => upload_on_err x P sp pb c o w e w' H) as Keep.
  eapply local_abs_frame; [done| | |].
  - by destruct (Keep "").
  - exact (upload_uuid_le P sp pb c o w _ w' H).
  - intros k. by apply file_at_keep_all.
Qed.
End Ops.

Lemma getStoragePath_nonempty e : getStoragePath e <> "".
Proof. unfold getStoragePath, js_or. destruct (e !! _); [case_decide|]; done. Qed.

Lemma local_contract_laws `{KP : KeyPrimitives} P e :
  prefix_ok P -> StorageContract (createLocalFileStorage P e) (local_abs P (getStoragePath e)).
Proof.
  intros HP. pose proof (getStoragePath_nonempty e) as Hsp.
  split; simpl; intros.
  - by eapply local_upload.
  - by eapply local_download.
  - by eapply local_delete.
  - by eapply local_exists.
  - by eapply local_getMetadata.
Qed.

#[export] Instance local_contract `{KP : KeyPrimitives} P e (HP : prefix_ok P) :
  StorageContract (createLocalFileStorage P e) (local_abs P (getStoragePath e)) :=
  local_contract_laws P e HP.

(** C5. Refinement: with a sane key prefix, the local backend meets the
    [FileStorage] contract under the abstraction [local_abs]: every
    operation, on every branch of its code, answers as the contract says
    of the abstract store and keeps the abstraction. *)
Theorem local_refines_contract `{KP : KeyPrimitives} P e :
  prefix_ok P -> StorageContract (createLocalFileStorage P e) (local_abs P (getStoragePath e)).
Proof. apply local_contract_laws. Qed.

(** ** Concrete runs *)

Lemma local_refines_contract_witness :
  prefix_ok "" /\
  StorageContract (createLocalFileStorage "" ∅) (local_abs "" (getStoragePath ∅)).
Proof. split; [by left|]. apply local_refines_contract. by left. Defined.

End LocalRefinement.
