(* ===== verification/Traces.v ===== *)
(** * Traces: sequences of storage calls, and what the contract makes of them

    A client of a [FileStorage] issues calls one after the other (each
    request of the application is one call; a rejected call does not stop
    the next).  [exec] runs a list of calls [op] on a backend and collects
    the answers; [atrace] is the same sequence run on the abstract store,
    one [astep] per call, as the contract [StorageContract] describes it.

    [exec_refines_run] is the simulation: on any backend meeting the
    contract, every concrete run of well-formed calls is matched by an
    abstract run with the same answers, and the abstraction holds at the
    end.  What is proved on the abstract side (a stored key keeps its bytes
    until it is deleted, [atrace_keeps]) carries over to every backend
    ([contract_stored_until_deleted]) and to the local one from an empty
    disk through [LocalRefinement.local_contract]
    ([local_exec_refines], [local_stored_until_deleted]).  The local
    backend's keys never repeat along a run, from any state
    ([local_upload_keys_distinct]). *)

From S2P Require Import Prelude NodePath NodeFs StorageUtils FileStorageInterface LocalFileStorage LocalRefinement.

Local Open Scope string_scope.
Local Open Scope async_scope.

Module Traces.
Import NodePath NodeFs StorageUtils FileStorageInterface LocalFileStorage LocalRefinement.

(** The calls of the interface that read or change the store. *)
Inductive op :=
| OUpload (c : content) (o : UploadOptions)
| ODownload (k : string)
| ODelete (k : string)
| OExists (k : string)
| OGetMetadata (k : string).

Inductive reply :=
| RUpload (r : UploadResult)
| RBytes (d : list Byte.byte)
| RUnit
| RBool (b : bool)
| RMeta (m : option FileMetadata).

(** The call names only well-formed keys. *)
Definition op_ok (x : op) : Prop :=
  match x with
  | OUpload _ _ => True
  | ODownload k | ODelete k | OExists k | OGetMetadata k => key_ok k
  end.

#[export] Instance op_ok_dec x : Decision (op_ok x).
Proof. destruct x; simpl; apply _. Defined.

Section Run.
Context {W : Type} (st : FileStorage W).

Definition run_op (x : op) : ST W exn reply :=
  match x with
  | OUpload c o => let! r := upload st c o in ret (RUpload r)
  | ODownload k => let! d := download st k in ret (RBytes d)
  | ODelete k => FileStorageInterface.delete st k ;;! ret RUnit
  | OExists k => let! b := exists_ st k in ret (RBool b)
  | OGetMetadata k => let! m := getMetadata st k in ret (RMeta m)
  end.

Fixpoint exec (xs : list op) (w : W) : list (result reply exn) * W :=
  match xs with
  | [] => ([], w)
  | x :: xs' =>
      let (r, w1) := run_op x w in
      let (rs, w2) := exec xs' w1 in
      (r :: rs, w2)
  end.
End Run.

(** ** The abstract semantics *)

Inductive astep : store -> op -> result reply exn -> store -> Prop :=
| AUploadOk σ c o res :
    key_ok (res_key res) -> σ !! res_key res = None ->
    md_key (res_metadata res) = res_key res ->
    md_size (res_metadata res) = List.length (toBuffer c) ->
    astep σ (OUpload c o) (Ok (RUpload res)) (<[res_key res := toBuffer c]> σ)
| AUploadErr σ c o e : astep σ (OUpload c o) (Err e) σ
| ADownloadOk σ k d : σ !! k = Some d -> astep σ (ODownload k) (Ok (RBytes d)) σ
| ADownloadErr σ k e : σ !! k = None -> astep σ (ODownload k) (Err e) σ
| ADeleteOk σ k : astep σ (ODelete k) (Ok RUnit) (base.delete k σ)
| ADeleteErr σ k e : σ !! k = None -> astep σ (ODelete k) (Err e) σ
| AExists σ k b : (is_Some (σ !! k) -> b = true) -> astep σ (OExists k) (Ok (RBool b)) σ
| AGetMetadata σ k m :
    (forall d, σ !! k = Some d ->
       exists md, m = Some md /\ md_key md = k /\ md_size md = List.length d) ->
    astep σ (OGetMetadata k) (Ok (RMeta m)) σ.

Inductive atrace : store -> list op -> list (result reply exn) -> store -> Prop :=
| ANil σ : atrace σ [] [] σ
| ACons σ x r σ1 xs rs σ2 :
    astep σ x r σ1 -> atrace σ1 xs rs σ2 -> atrace σ (x :: xs) (r :: rs) σ2.

#[export] Hint Constructors astep atrace : storage.

(** ** Simulation *)

Section Refines.
Context {W : Type} (st : FileStorage W) (abs : store -> W -> Prop) `{SC : !StorageContract st abs}.

Lemma run_op_refines σ w x r w' :
  abs σ w -> op_ok x -> run_op st x w = (r, w') ->
  exists σ', astep σ x r σ' /\ abs σ' w'.
Proof.
  intros A Hx. destruct x as [c o|k|k|k|k]; simpl in Hx |- *; unfold bind, ret.
  - destruct (upload st c o w) as [[res|e] w1] eqn:E;
      pose proof (contract_upload σ w c o _ w1 A E) as C; intros [= <- <-].
    + destruct C as (? & ? & ? & ? & ?). eauto with storage.
    + eauto with storage.
  - destruct (download st k w) as [r0 w1] eqn:E.
    destruct (contract_download σ w k r0 w1 A Hx E) as [A1 C].
    destruct (σ !! k) eqn:Hk; [subst r0|destruct C as [e ->]];
      intros [= <- <-]; eauto with storage.
  - destruct (FileStorageInterface.delete st k w) as [[u|e] w1] eqn:E;
      pose proof (contract_delete σ w k _ w1 A Hx E) as C; intros [= <- <-].
    + eauto with storage.
    + destruct C. eauto with storage.
  - destruct (exists_ st k w) as [r0 w1] eqn:E.
    destruct (contract_exists σ w k r0 w1 A Hx E) as [A1 (b & -> & Hb)].
    intros [= <- <-]. eauto with storage.
  - destruct (getMetadata st k w) as [r0 w1] eqn:E.
    destruct (contract_getMetadata σ w k r0 w1 A Hx E) as [A1 (m & -> & Hm)].
    intros [= <- <-]. eauto with storage.
Qed.

Lemma exec_refines_run σ w xs rs w' :
  abs σ w -> Forall op_ok xs -> exec st xs w = (rs, w') ->
  exists σ', atrace σ xs rs σ' /\ abs σ' w'.
Proof.
  revert σ w rs. induction xs as [|x xs IH]; intros σ w rs A Hxs; simpl.
  - intros [= <- <-]. eauto with storage.
  - inversion Hxs as [|? ? Hx Hxs']; subst.
    destruct (run_op st x w) as [r w1] eqn:E1.
    destruct (exec st xs w1) as [rs1 w2] eqn:E2. intros [= <- <-].
    destruct (run_op_refines σ w x r w1 A Hx E1) as (σ1 & S1 & A1).
    destruct (IH σ1 w1 rs1 A1 Hxs' E2) as (σ2 & S2 & A2). eauto with storage.
Qed.
End Refines.

(** ** What the abstract semantics guarantees *)

(** A stored key keeps its bytes along a run that does not delete it:
    uploads take fresh keys and never overwrite. *)
Lemma atrace_keeps σ xs rs σ' k d :
  atrace σ xs rs σ' -> σ !! k = Some d -> ODelete k ∉ xs -> σ' !! k = Some d.
Proof.
  induction 1 as [|σ x r σ1 xs rs σ2 S _ IH]; intros Hk Hdel; [done|].
  apply IH; [|by intros ?; apply Hdel; right].
  inversion S; subst; try done.
  - rewrite lookup_insert_ne; [done|congruence].
  - rewrite lookup_delete_ne; [done|]. intros ->. apply Hdel. left.
Qed.

(** The keys of the uploads that resolved along a run, in order. *)
Definition upload_keys (rs : list (result reply exn)) : list string :=
  omap (fun r => match r with Ok (RUpload res) => Some (res_key res) | _ => None end) rs.

Section Client.
Context {W : Type} (st : FileStorage W) (abs : store -> W -> Prop) `{SC : !StorageContract st abs}.

(** Persistence, for every backend that meets the contract: once an
    upload has resolved, any sequence of calls on well-formed keys that
    does not delete its key leaves [download] of the key answering the
    uploaded bytes. *)
Lemma contract_stored_until_deleted σ w c o res w1 xs rs w2 :
  abs σ w -> upload st c o w = (Ok res, w1) ->
  Forall op_ok xs -> ODelete (res_key res) ∉ xs -> exec st xs w1 = (rs, w2) ->
  fst (download st (res_key res) w2) = Ok (toBuffer c).
Proof.
  intros A U Hxs Hdel E.
  destruct (contract_upload σ w c o _ w1 A U) as (Hok & _ & _ & _ & A1).
  destruct (exec_refines_run st abs _ w1 xs rs w2 A1 Hxs E) as (σ2 & T & A2).
  pose proof (atrace_keeps _ _ _ _ (res_key res) (toBuffer c) T) as K.
  rewrite lookup_insert_eq in K. specialize (K eq_refl Hdel).
  destruct (download st (res_key res) w2) as [r w3] eqn:D.
  destruct (contract_download σ2 w2 _ r w3 A2 Hok D) as [_ C].
  by rewrite K in C.
Qed.
End Client.

(** ** The local backend along a run *)

Section Local.
Context `{KP : KeyPrimitives} (P : string) (e : env) (HP : prefix_ok P).

(** C15. Refinement of the local backend: every run of well-formed calls from
    an empty disk is a run of the abstract store from the empty store,
    with the same answers. *)
Theorem local_exec_refines now u l xs rs w' :
  Forall op_ok xs ->
  exec (createLocalFileStorage P e) xs (World (Fsys ∅ ∅ now) u l) = (rs, w') ->
  exists σ', atrace ∅ xs rs σ' /\ local_abs P (getStoragePath e) σ' w'.
Proof.
  intros Hxs E. eapply (exec_refines_run _ _ (SC := local_contract P e HP)); [|done..].
  apply local_abs_empty.
Qed.

(** C13. Persistence on the local backend: after an upload onto an empty disk,
    any sequence of calls on well-formed keys that does not delete the
    uploaded key leaves [download] of the key answering the uploaded
    bytes; no later upload overwrites it. *)
Theorem local_stored_until_deleted now u l c o res w1 xs rs w2 :
  upload (createLocalFileStorage P e) c o (World (Fsys ∅ ∅ now) u l) = (Ok res, w1) ->
  Forall op_ok xs -> ODelete (res_key res) ∉ xs ->
  exec (createLocalFileStorage P e) xs w1 = (rs, w2) ->
  fst (download (createLocalFileStorage P e) (res_key res) w2) = Ok (toBuffer c).
Proof.
  intros U. eapply (contract_stored_until_deleted _ _ (SC := local_contract P e HP)); [|exact U].
  apply local_abs_empty.
Qed.

Lemma run_op_uuid_le x : preserves uuid_le (run_op (createLocalFileStorage P e) x).
Proof.
  destruct x; unfold run_op, createLocalFileStorage;
    cbn [upload download FileStorageInterface.delete exists_ getMetadata];
    unfold upload_impl, download_impl, delete_impl, exists_impl, getMetadata_impl;
    eauto 20 with storage typeclass_instances.
Qed.

(** Every key an upload of the run returned was drawn during the run. *)
Lemma exec_upload_keys xs w rs w' :
  exec (createLocalFileStorage P e) xs w = (rs, w') ->
  w_uuid w <= w_uuid w' /\ NoDup (upload_keys rs) /\
  Forall (fun k => exists n s, w_uuid w <= n < w_uuid w' /\
                               k = key_template P (uuid_tape n) (sanitizeFilename s))
         (upload_keys rs).
Proof.
  revert w rs w'. induction xs as [|x xs IH]; intros w rs w'; simpl.
  - intros [= <- <-]. split; [lia|]. split; constructor.
  - destruct (run_op _ x w) as [r w1] eqn:E1.
    destruct (exec _ xs w1) as [rs1 w2] eqn:E2. intros [= <- <-].
    pose proof (run_op_uuid_le x _ _ _ E1) as U1. red in U1.
    destruct (IH w1 rs1 w2 E2) as (U2 & ND & F).
    assert (F' : Forall (fun k => exists n s, w_uuid w <= n < w_uuid w2 /\
                   k = key_template P (uuid_tape n) (sanitizeFilename s)) (upload_keys rs1)).
    { eapply Forall_impl; [exact F|]. intros k (n & s & Hn & ->). exists n, s. split; [lia|done]. }
    split; [lia|].
    destruct x; simpl in E1; unfold bind, ret in E1;
      repeat match type of E1 with
      | context [match ?m with _ => _ end] => destruct m as [[?|?] ?] eqn:?
      end; simplify_eq; cbn [upload_keys omap]; try done.
    match goal with H : upload_impl _ _ _ _ _ _ = (Ok ?res, _) |- _ =>
      destruct (upload_key_run _ _ _ _ _ _ _ _ HP H) as [K N] end.
    rewrite N in F. split.
    + constructor; [|done]. intros Hin. eapply Forall_forall in F; [|exact Hin].
      destruct F as (n & s & Hn & Hk). rewrite K in Hk.
      apply key_template_uuid_inj in Hk. lia.
    + constructor; [|done]. rewrite K. eexists _, _. split; [|done]. lia.
Qed.

(** C14. Keys never repeat: the uploads of any run of the local backend, from
    any state, answer pairwise different keys, deleted ones included. *)
Theorem local_upload_keys_distinct xs w rs w' :
  exec (createLocalFileStorage P e) xs w = (rs, w') -> NoDup (upload_keys rs).
Proof. intros E. by destruct (exec_upload_keys xs w rs w' E) as (_ & ? & _). Qed.
End Local.

(** ** Concrete runs *)

(** Upload a file, read it back, ask for it, delete it, ask again. *)
Definition demo_ops : list op :=
  [OUpload (BufferContent hello) notes_options; ODownload "07-notes.txt";
   OExists "07-notes.txt"; ODelete "07-notes.txt"; OGetMetadata "07-notes.txt"].

Definition two_uploads : list op :=
  [OUpload (BufferContent hello) notes_options; OUpload (BufferContent hello) notes_options].

Definition other_ops : list op := [OExists "07-notes.txt"; ODelete "other.txt"].

Lemma local_exec_refines_witness :
  prefix_ok "" /\ Forall op_ok demo_ops /\
  exists rs w', exec (createLocalFileStorage "" ∅) demo_ops (World (Fsys ∅ ∅ 100) 7 []) = (rs, w') /\
    exists σ', atrace ∅ demo_ops rs σ' /\ local_abs "" (getStoragePath ∅) σ' w'.
Proof.
  split; [by left|].
  split; [apply (bool_decide_unpack (Forall op_ok demo_ops)); vm_compute; reflexivity|].
  eexists _, _. split; [vm_compute; reflexivity|].
  apply (local_exec_refines "" ∅ (or_introl eq_refl) 100 7 []);
    [apply (bool_decide_unpack (Forall op_ok demo_ops)); vm_compute; reflexivity
    |vm_compute; reflexivity].
Defined.

(** The world after the upload of the notes onto the empty disk. *)
Definition after_upload : world :=
  snd (upload (createLocalFileStorage "" ∅) (BufferContent hello) notes_options demo_world).

Lemma local_stored_until_deleted_witness :
  exists res,
    upload (createLocalFileStorage "" ∅) (BufferContent hello) notes_options demo_world
      = (Ok res, after_upload) /\
    fst (download (createLocalFileStorage "" ∅) (res_key res)
           (snd (exec (createLocalFileStorage "" ∅) other_ops after_upload))) = Ok hello.
Proof.
  eexists. split; [vm_compute; reflexivity|].
  apply (local_stored_until_deleted "" ∅ (or_introl eq_refl) 100 7 [] (BufferContent hello)
           notes_options _ after_upload other_ops
           (fst (exec (createLocalFileStorage "" ∅) other_ops after_upload))).
  - vm_compute. reflexivity.
  - apply (bool_decide_unpack (Forall op_ok other_ops)). vm_compute. reflexivity.
  - simpl. intros Hin. repeat (apply elem_of_cons in Hin as [Hin|Hin]; [discriminate Hin|]).
    by apply elem_of_nil in Hin.
  - apply surjective_pairing.
Defined.

Lemma local_upload_keys_distinct_witness :
  prefix_ok "" /\
  exists rs w', exec (createLocalFileStorage "" ∅) two_uploads demo_world = (rs, w') /\
    upload_keys rs = ["07-notes.txt"; "08-notes.txt"] /\ NoDup (upload_keys rs).
Proof.
  split; [by left|]. eexists _, _. split; [vm_compute; reflexivity|].
  split; [vm_compute; reflexivity|].
  apply (local_upload_keys_distinct "" ∅ (or_introl eq_refl) two_uploads demo_world _
           (snd (exec (createLocalFileStorage "" ∅) two_uploads demo_world))).
  vm_compute. reflexivity.
Defined.

End Traces.
