(* ===== verification/FilesRoute.v ===== *)
(** * FilesRoute: [GET] of [app/api/storage/files/[...path]/route.ts]

    The handler is given the configured driver name ([storageDriver]), the
    configured backend ([serverFileStorage]) and the decoded path segments
    Next.js passes as [params.path].  [Promise.all] over [getMetadata] and
    [download] is [promise_all2]: both operations run, in the order their
    I/O completes ([meta_first]), and the combined promise rejects with the
    first rejection in that order.  A response is a JSON error or the bytes
    with their headers. *)

From S2P Require Import Prelude NodePath NodeFs StorageUtils FileStorageInterface LocalFileStorage LocalRefinement.

Local Open Scope string_scope.
Local Open Scope async_scope.

Module FilesRoute.
Import NodePath NodeFs StorageUtils FileStorageInterface LocalFileStorage LocalRefinement.

Inductive response :=
| JsonResponse (status : Z) (error : string)
| FileResponse (status : Z) (body : list Byte.byte) (headers : list (string * string)).

Definition status_of (r : response) : Z :=
  match r with JsonResponse s _ => s | FileResponse s _ _ => s end.

(** [Promise.all([m1, m2])] when [m1]'s I/O completes first iff
    [meta_first]. *)
Definition promise_all2 {W E A B} (meta_first : bool) (m1 : ST W E A) (m2 : ST W E B)
  : ST W E (A * B) := fun w =>
  if meta_first then
    let (r1, w1) := m1 w in
    let (r2, w2) := m2 w1 in
    (match r1, r2 with
     | Ok a, Ok b => Ok (a, b)
     | Err e, _ => Err e
     | Ok _, Err e => Err e
     end, w2)
  else
    let (r2, w1) := m2 w in
    let (r1, w2) := m1 w1 in
    (match r2, r1 with
     | Ok b, Ok a => Ok (a, b)
     | Err e, _ => Err e
     | Ok _, Err e => Err e
     end, w2).

Definition dquote : string := String (ascii_of_nat 34) EmptyString.

Definition not_found : response := JsonResponse 404 "File not found".

(** The headers of a 200 answer for the metadata [md]. *)
Definition file_headers (md : FileMetadata) : list (string * string) :=
  [("Content-Type", md_contentType md);
   ("Content-Length", decimal (md_size md));
   ("Cache-Control", "public, max-age=31536000, immutable");
   ("Content-Disposition", "inline; filename=" ++ dquote ++ md_filename md ++ dquote)].

(** Lines 41-55: the answer once both reads have resolved. *)
Definition respond (both : option FileMetadata * list Byte.byte) : M response :=
  let (metadata, buffer) := both in
  match metadata with
  | None => ret not_found
  | Some md => ret (FileResponse 200 buffer (file_headers md))
  end.

(** Lines 56-66: the [catch] of the handler. *)
Definition serve_error (error : exn) : M response :=
  match error with
  | FileNotFoundError _ _ => ret not_found
  | _ => log_error "Error serving file:" error ;;!
         ret (JsonResponse 500 "Failed to serve file")
  end.

(** [GET(_request, { params })] *)
Definition GET (storageDriver : string) (serverFileStorage : FileStorage world)
    (path : list string) (meta_first : bool) : M response :=
  catch
    (if negb (bool_decide (storageDriver = "local")) then
       ret (JsonResponse 404 "This endpoint is only available for local storage")
     else
       let key := join_on "/" path in
       if decide (key = "") then ret (JsonResponse 400 "File path is required")
       else
         let! both := promise_all2 meta_first (getMetadata serverFileStorage key)
                                              (download serverFileStorage key) in
         respond both)
    serve_error.

(** Run both orders of [Promise.all] given what each operation does. *)
Ltac both_orders mf Hmeta Hdl :=
  destruct mf;
  (rewrite Hmeta || rewrite Hdl); cbn -[download_impl getMetadata_impl];
  (rewrite Hmeta || rewrite Hdl); reflexivity.

Section Route.
Context `{KP : KeyPrimitives}.

(** With any driver but the local one the route answers 404, whatever
  the path, and touches nothing. *)
Theorem GET_not_local drv st path mf w :
  drv <> "local" ->
  GET drv st path mf w =
  (Ok (JsonResponse 404 "This endpoint is only available for local storage"), w).
Proof.
  intros Hd. unfold GET. apply catch_ok. by rewrite bool_decide_eq_false_2.
Qed.

(** An empty path is a client error. *)
Lemma GET_empty_key_run st path mf w :
  join_on "/" path = "" ->
  GET "local" st path mf w = (Ok (JsonResponse 400 "File path is required"), w).
Proof.
  intros Hk. unfold GET. apply catch_ok. simpl. by rewrite Hk.
Qed.

(** An empty path is a client error. *)
Theorem GET_empty_key st path mf w :
  join_on "/" path = "" ->
  GET "local" st path mf w = (Ok (JsonResponse 400 "File path is required"), w).
Proof. apply GET_empty_key_run. Qed.

Section Local.
Context (P : string) (e : env) (path : list string) (w : world).
Let st := createLocalFileStorage P e.
Let sp := getStoragePath e.
Let key := join_on "/" path.
Let c := canon (getFilePath sp key).

(** A key with no file behind it is answered 404 "File not found",
  whichever of the two reads completes first, and nothing changes. *)
Lemma GET_missing_run mf :
  key <> "" -> fs_faults (w_fs w) !! c = None -> entry (w_fs w) c = None ->
  GET "local" st path mf w = (Ok not_found, w).
Proof.
  intros Hk Hf He. unfold GET.
  rewrite (catch_err _ _ w (FileNotFoundError key
  (FsError ENOENT "open" (getFilePath sp key))) w); [done|].
  simpl. fold key. rewrite decide_False by done.
  apply bind_err. unfold promise_all2. simpl. fold sp.
  pose proof (getMetadata_missing_run sp key w Hf He) as Hm.
  pose proof (download_missing_run sp key w Hf He) as Hd.
  both_orders mf Hm Hd.
Qed.

(** A key with no file behind it is answered 404 "File not found",
  whichever of the two reads completes first, and nothing changes. *)
Theorem GET_missing mf :
  key <> "" -> fs_faults (w_fs w) !! c = None -> entry (w_fs w) c = None ->
  GET "local" st path mf w = (Ok not_found, w).
Proof. apply GET_missing_run. Qed.

(** A file is answered 200 with its bytes and the headers built from
  its metadata, whichever of the two reads completes first. *)
Lemma GET_file_run mf d m :
  key <> "" -> fs_faults (w_fs w) !! c = None -> entry (w_fs w) c = Some (NFile d m) ->
  GET "local" st path mf w =
  (Ok (FileResponse 200 d (file_headers (metadata_of key (List.length d) m))), w).
Proof.
  intros Hk Hf He. unfold GET. apply catch_ok.
  simpl. fold key. rewrite decide_False by done.
  rewrite (bind_ok _ _ w (Some (metadata_of key (List.length d) m), d) w); [reflexivity|].
  unfold promise_all2. fold sp.
  pose proof (getMetadata_file_run sp key w d m Hf He) as Hm.
  pose proof (download_file sp key w d m Hf He) as Hd.
  both_orders mf Hm Hd.
Qed.

(** A file is answered 200 with its bytes and the headers built from
  its metadata, whichever of the two reads completes first. *)
Theorem GET_file mf d m :
  key <> "" -> fs_faults (w_fs w) !! c = None -> entry (w_fs w) c = Some (NFile d m) ->
  GET "local" st path mf w =
  (Ok (FileResponse 200 d (file_headers (metadata_of key (List.length d) m))), w).
Proof. apply GET_file_run. Qed.

(** Any other failure of the disk is answered 500 "Failed to serve
  file", whichever read fails first; the cause goes to the log, not to
  the client. *)
Lemma GET_fault_run mf err :
  key <> "" -> fs_faults (w_fs w) !! c = Some err -> err <> ENOENT ->
  exists w', GET "local" st path mf w = (Ok (JsonResponse 500 "Failed to serve file"), w').
Proof.
  intros Hk Hf He. unfold GET. unfold catch at 1. simpl. fold key.
  rewrite decide_False by done. unfold bind at 1, promise_all2. simpl. fold sp.
  pose proof (getMetadata_propagates_run sp key w err Hf He) as Hm.
  pose proof (download_propagates_run sp key w err Hf He) as Hd.
  destruct mf; (rewrite Hm || rewrite Hd); cbn -[download_impl getMetadata_impl];
  (rewrite Hm || rewrite Hd); eexists; reflexivity.
Qed.

(** C30. Any other failure of the disk is answered 500 "Failed to serve
  file", whichever read fails first; the cause goes to the log, not to
  the client. *)
Theorem GET_fault mf err :
  key <> "" -> fs_faults (w_fs w) !! c = Some err -> err <> ENOENT ->
  exists w', GET "local" st path mf w = (Ok (JsonResponse 500 "Failed to serve file"), w').
Proof. apply GET_fault_run. Qed.

(** A path whose every access fails with ENOENT is answered 404. *)
Lemma GET_enoent mf :
  key <> "" -> fs_faults (w_fs w) !! c = Some ENOENT ->
  GET "local" st path mf w = (Ok not_found, w).
Proof.
  intros Hk Hf. unfold GET.
  rewrite (catch_err _ _ w (FileNotFoundError key
  (FsError ENOENT "open" (getFilePath sp key))) w); [done|].
  simpl. fold key. rewrite decide_False by done.
  apply bind_err. unfold promise_all2. simpl. fold sp.
  pose proof (getMetadata_enoent sp key w Hf) as Hm.
  pose proof (download_enoent sp key w Hf) as Hd.
  both_orders mf Hm Hd.
Qed.

(** A key naming a directory is answered 500: its stat succeeds, its
  read fails. *)
Lemma GET_dir mf m :
  key <> "" -> fs_faults (w_fs w) !! c = None -> entry (w_fs w) c = Some (NDir m) ->
  exists w', GET "local" st path mf w = (Ok (JsonResponse 500 "Failed to serve file"), w').
Proof.
  intros Hk Hf He. unfold GET. unfold catch at 1. simpl. fold key.
  rewrite decide_False by done. unfold bind at 1, promise_all2. simpl. fold sp.
  pose proof (getMetadata_dir sp key w m Hf He) as Hm.
  pose proof (download_dir sp key w m Hf He) as Hd.
  destruct mf; (rewrite Hm || rewrite Hd); cbn -[download_impl getMetadata_impl];
  (rewrite Hm || rewrite Hd); eexists; reflexivity.
Qed.

(** C31. The two concurrent reads are a latency optimisation only: the
  answer does not depend on which completes first. *)
Theorem GET_order_irrelevant :
  fst (GET "local" st path true w) = fst (GET "local" st path false w).
Proof.
  destruct (decide (key = "")) as [Hk|Hk].
  { by rewrite !GET_empty_key_run. }
  destruct (fs_faults (w_fs w) !! c) as [err|] eqn:Ef.
  - destruct (decide (err = ENOENT)) as [->|Hne].
  + by rewrite !GET_enoent.
  + destruct (GET_fault_run true err) as [w1 ->]; [done..|].
  by destruct (GET_fault_run false err) as [w2 ->].
  - destruct (entry (w_fs w) c) as [[d m|m]|] eqn:Ee.
  + by rewrite !(GET_file_run _ d m).
  + destruct (GET_dir true m) as [w1 ->]; [done..|].
  by destruct (GET_dir false m) as [w2 ->].
  + by rewrite !GET_missing_run.
Qed.
End Local.

(** Segments that are plain names, joined into a key that is not empty,
  name a file strictly under the storage directory. *)
Lemma safe_key_within_root sp path :
  sp <> "" -> join_on "/" path <> "" ->
  Forall (fun s => safe_seg s /\ str_has "/" s = false) path ->
  within_root sp (getFilePath sp (join_on "/" path)).
Proof.
  intros Hsp Hne Hs.
  assert (Hsplit : split_on sep (join_on "/" path) = path).
  { apply split_join; [by intros ->|]. eapply Forall_impl; [done|]. by intros ? []. }
  apply join_within_root; [done..|].
  rewrite Hsplit. eapply Forall_impl; [done|]. by intros ? [].
Qed.

(** C32. A 200 answer of the route comes from inside the storage
  directory: when every segment of the request is a plain name, the
  route answers 200 only with the bytes of the file at the path it
  builds from the segments, and that path lies strictly under the
  storage directory. *)
Theorem GET_safe_path_within_root P e path mf w d hs w' :
  getStoragePath e <> "" ->
  Forall (fun s => safe_seg s /\ str_has "/" s = false) path ->
  GET "local" (createLocalFileStorage P e) path mf w = (Ok (FileResponse 200 d hs), w') ->
  within_root (getStoragePath e) (getFilePath (getStoragePath e) (join_on "/" path)) /\
  exists m, entry (w_fs w) (canon (getFilePath (getStoragePath e) (join_on "/" path))) =
            Some (NFile d m).
Proof.
  intros Hsp Hs HG.
  destruct (decide (join_on "/" path = "")) as [Hk|Hk].
  { by rewrite GET_empty_key_run in HG. }
  split; [by apply safe_key_within_root|].
  destruct (fs_faults (w_fs w) !! canon (getFilePath (getStoragePath e) (join_on "/" path)))
    as [err|] eqn:Ef.
  - destruct (decide (err = ENOENT)) as [->|Hne].
    + by rewrite GET_enoent in HG.
    + destruct (GET_fault_run P e path w mf err) as [w1 Hw1]; [done..|].
      by rewrite Hw1 in HG.
  - destruct (entry (w_fs w) (canon (getFilePath (getStoragePath e) (join_on "/" path))))
      as [[d' m|m]|] eqn:Ee.
    + rewrite (GET_file_run P e path w mf d' m) in HG by done.
      injection HG as -> _ _. by exists m.
    + destruct (GET_dir P e path w mf m) as [w1 Hw1]; [done..|].
      by rewrite Hw1 in HG.
    + by rewrite GET_missing_run in HG.
Qed.

(** End to end: after an [upload] through the local backend, a request
  for the segments of the returned key is answered 200 with the uploaded
  bytes and the headers of the key's metadata. *)
Lemma upload_then_GET_run P e c o w r w' mf :
  prefix_ok P ->
  upload (createLocalFileStorage P e) c o w = (Ok r, w') ->
  GET "local" (createLocalFileStorage P e) (split_on "/" (res_key r)) mf w' =
  (Ok (FileResponse 200 (toBuffer c)
       (file_headers (metadata_of (res_key r) (List.length (toBuffer c))
                                  (fs_now (w_fs w'))))), w').
Proof.
  intros HP H.
  change (upload_impl P (getStoragePath e) (getPublicBaseUrl e) c o w = (Ok r, w')) in H.
  destruct (upload_Ok_inv _ _ _ _ _ _ _ _ H) as (fs0 & Hf & Hr & Hw).
  destruct (upload_key_run _ _ _ _ _ _ _ _ HP H) as [K _].
  assert (Hk : res_key r <> "") by (rewrite K; apply key_template_nonempty).
  pose proof (GET_file_run P e (split_on "/" (res_key r)) w' mf (toBuffer c) (fs_now fs0)) as G.
  change (join_on "/" (split_on "/" (res_key r))) with
     (join_on sep (split_on sep (res_key r))) in G.
  rewrite join_split in G.
  assert (Hn : fs_now (w_fs w') = fs_now fs0) by (by rewrite Hw).
  rewrite Hn. apply G.
  - done.
  - rewrite Hw. exact Hf.
  - rewrite Hw, entry_insert by done. by rewrite decide_True.
Qed.

(** C2. End to end: after an [upload] through the local backend, a request
  for the segments of the returned key is answered 200 with the uploaded
  bytes, the content type inferred from the key's extension, the byte
  length, the long-lived cache directive and, as filename, the last
  segment of the key ([<uuid>-<name>], not the name uploaded). *)
Theorem upload_then_GET P e c o w r w' mf :
  prefix_ok P ->
  upload (createLocalFileStorage P e) c o w = (Ok r, w') ->
  GET "local" (createLocalFileStorage P e) (split_on "/" (res_key r)) mf w' =
  (Ok (FileResponse 200 (toBuffer c)
       (file_headers (metadata_of (res_key r) (List.length (toBuffer c))
                                  (fs_now (w_fs w'))))), w').
Proof. apply upload_then_GET_run. Qed.

End Route.

(** ** The route against the contract *)

Section Client.
Context (st : FileStorage world) (abs : store -> world -> Prop) `{SC : !StorageContract st abs}.

(** The two reads of the route on a well-formed key, in either order:
    both resolve when the key is stored, one rejects when it is not; the
    abstraction holds after them. *)
Lemma reads_contract σ w k mf :
  abs σ w -> key_ok k ->
  exists w', abs σ w' /\
  match σ !! k with
  | Some d => exists md,
      promise_all2 mf (getMetadata st k) (download st k) w = (Ok (Some md, d), w') /\
      md_key md = k /\ md_size md = List.length d
  | None => exists e, promise_all2 mf (getMetadata st k) (download st k) w = (Err e, w')
  end.
Proof.
  intros A Hk. unfold promise_all2. destruct mf.
  - destruct (getMetadata st k w) as [r1 w1] eqn:E1.
    destruct (contract_getMetadata σ w k r1 w1 A Hk E1) as [A1 (o & -> & Ho)].
    destruct (download st k w1) as [r2 w2] eqn:E2.
    destruct (contract_download σ w1 k r2 w2 A1 Hk E2) as [A2 C].
    exists w2. split; [done|]. destruct (σ !! k) as [d|].
    + destruct (Ho d eq_refl) as (md & -> & ? & ?). subst r2. by exists md.
    + destruct C as [e ->]. by exists e.
  - destruct (download st k w) as [r2 w1] eqn:E2.
    destruct (contract_download σ w k r2 w1 A Hk E2) as [A1 C].
    destruct (getMetadata st k w1) as [r1 w2] eqn:E1.
    destruct (contract_getMetadata σ w1 k r1 w2 A1 Hk E1) as [A2 (o & -> & Ho)].
    exists w2. split; [done|]. destruct (σ !! k) as [d|].
    + destruct (Ho d eq_refl) as (md & -> & ? & ?). subst r2. by exists md.
    + destruct C as [e ->]. by exists e.
Qed.

(** C18. The route serves what the store holds, for every backend that meets
    the contract: a request whose segments form a stored well-formed key
    is answered 200 with the stored bytes and the headers of the backend's
    metadata for the key (whose byte count is the stored length),
    whichever read completes first. *)
Theorem GET_contract_stored σ w path mf d :
  abs σ w -> key_ok (join_on "/" path) -> σ !! join_on "/" path = Some d ->
  exists md w', GET "local" st path mf w = (Ok (FileResponse 200 d (file_headers md)), w') /\
    md_key md = join_on "/" path /\ md_size md = List.length d /\ abs σ w'.
Proof.
  intros A Hk Hd. destruct (reads_contract σ w _ mf A Hk) as (w' & A' & R).
  rewrite Hd in R. destruct R as (md & R & Hkey & Hsize).
  exists md, w'. split; [|done]. unfold GET. apply catch_ok. simpl.
  rewrite decide_False by (by destruct Hk). by rewrite (bind_ok _ _ _ _ _ R).
Qed.

(** C19. ... and never serves a key the store does not hold: such a request is
    answered 404 or 500, whichever read completes first. *)
Theorem GET_contract_missing σ w path mf :
  abs σ w -> key_ok (join_on "/" path) -> σ !! join_on "/" path = None ->
  exists r w', GET "local" st path mf w = (Ok r, w') /\ (status_of r = 404%Z \/ status_of r = 500%Z).
Proof.
  intros A Hk Hd. destruct (reads_contract σ w _ mf A Hk) as (w1 & _ & R).
  rewrite Hd in R. destruct R as [e R]. unfold GET.
  rewrite (catch_err _ _ w e w1);
    [|simpl; rewrite decide_False by (by destruct Hk); by rewrite (bind_err _ _ _ _ _ R)]. destruct e as [fe|k' fe].
  - eexists _, _. split; [reflexivity|]. by right.
  - eexists _, _. split; [reflexivity|]. by left.
Qed.
End Client.

(** ** Concrete runs *)

Definition local_storage : FileStorage world := createLocalFileStorage "" ∅.

Lemma GET_not_local_witness :
  GET "s3" local_storage ["07-notes.txt"] true stored_world =
    (Ok (JsonResponse 404 "This endpoint is only available for local storage"), stored_world).
Proof. apply GET_not_local. discriminate. Defined.

Lemma GET_empty_key_witness :
  GET "local" local_storage [] true stored_world =
    (Ok (JsonResponse 400 "File path is required"), stored_world).
Proof. apply GET_empty_key. reflexivity. Defined.

Lemma GET_missing_witness :
  GET "local" local_storage ["nope.txt"] false stored_world = (Ok not_found, stored_world).
Proof. apply GET_missing; [discriminate|reflexivity|reflexivity]. Defined.

Lemma GET_file_witness :
  GET "local" local_storage ["07-notes.txt"] true stored_world =
    (Ok (FileResponse 200 hello
           [("Content-Type", "text/plain"); ("Content-Length", "5");
            ("Cache-Control", "public, max-age=31536000, immutable");
            ("Content-Disposition", "inline; filename=" ++ dquote ++ "07-notes.txt" ++ dquote)]),
     stored_world).
Proof.
  unfold local_storage.
  rewrite (GET_file "" ∅ ["07-notes.txt"] stored_world true hello 100);
    [|discriminate|reflexivity|reflexivity].
  vm_compute. reflexivity.
Defined.

Lemma GET_fault_witness :
  exists w', GET "local" local_storage ["07-notes.txt"] true locked_world =
             (Ok (JsonResponse 500 "Failed to serve file"), w').
Proof. apply (GET_fault "" ∅ _ _ true EACCES); [discriminate|reflexivity|discriminate]. Defined.

Lemma GET_safe_path_within_root_witness :
  within_root "./uploads" (getFilePath "./uploads" (join_on "/" ["07-notes.txt"])) /\
  exists m, entry (w_fs stored_world) (canon (getFilePath "./uploads" (join_on "/" ["07-notes.txt"]))) =
            Some (NFile hello m).
Proof.
  change "./uploads" with (getStoragePath ∅).
  apply (GET_safe_path_within_root "" ∅ ["07-notes.txt"] true stored_world hello
           (file_headers (metadata_of "07-notes.txt" 5 100)) stored_world).
  - discriminate.
  - apply (bool_decide_unpack _). vm_compute. reflexivity.
  - vm_compute. reflexivity.
Defined.

Lemma upload_then_GET_witness :
  exists r w',
    upload local_storage (BufferContent hello) notes_options demo_world = (Ok r, w') /\
    GET "local" local_storage (split_on "/" (res_key r)) true w' =
      (Ok (FileResponse 200 hello
             [("Content-Type", "text/plain"); ("Content-Length", "5");
              ("Cache-Control", "public, max-age=31536000, immutable");
              ("Content-Disposition", "inline; filename=" ++ dquote ++ "07-notes.txt" ++ dquote)]),
       w').
Proof.
  unfold local_storage. eexists _, _. split; [vm_compute; reflexivity|].
  match goal with
  | |- GET _ _ (split_on _ (res_key ?r)) _ ?w' = _ =>
      rewrite (upload_then_GET "" ∅ (BufferContent hello) notes_options demo_world r w' true)
  end.
  - vm_compute. reflexivity.
  - by left.
  - vm_compute. reflexivity.
Defined.

Lemma GET_contract_stored_witness :
  exists w, local_abs "" (getStoragePath ∅) {[ "07-notes.txt" := hello ]} w /\
  exists md w', GET "local" local_storage ["07-notes.txt"] true w =
                  (Ok (FileResponse 200 hello (file_headers md)), w') /\
    md_key md = "07-notes.txt" /\ md_size md = 5 /\
    local_abs "" (getStoragePath ∅) {[ "07-notes.txt" := hello ]} w'.
Proof.
  eassert (U : upload_impl "" "./uploads" "" (BufferContent hello) notes_options demo_world
               = (Ok _, _)) by (vm_compute; reflexivity).
  destruct (local_upload_ok "" "./uploads" (or_introl eq_refl) ltac:(done) ∅ demo_world
              "" (BufferContent hello) notes_options _ _ (local_abs_empty _ _ _ _ _) U)
    as (_ & _ & _ & _ & A).
  eexists. split; [exact A|].
  apply (GET_contract_stored local_storage _ (SC := local_contract "" ∅ (or_introl eq_refl))).
  - exact A.
  - apply (bool_decide_unpack (key_ok "07-notes.txt")). vm_compute. reflexivity.
  - vm_compute. reflexivity.
Defined.

Lemma GET_contract_missing_witness :
  exists r w', GET "local" local_storage ["nothing.txt"] false demo_world = (Ok r, w') /\
    (status_of r = 404%Z \/ status_of r = 500%Z).
Proof.
  apply (GET_contract_missing local_storage _ (SC := local_contract "" ∅ (or_introl eq_refl)) ∅).
  - apply local_abs_empty.
  - apply (bool_decide_unpack (key_ok "nothing.txt")). vm_compute. reflexivity.
  - vm_compute. reflexivity.
Defined.

(** A disk with a file outside the storage directory. *)
Definition passwd_world : world :=
  World (Fsys {[ "etc/passwd" := NFile hello 3 ]} ∅ 100) 0 [].

(** C4. Finding: the route does not check the key it rebuilds from the request.
    A request whose segments climb out of the storage directory (["..",
    "etc", "passwd"], or the single decoded segment ["../etc/passwd"]) is
    answered 200 with the bytes of a file outside the storage directory. *)
Theorem GET_serves_outside_root :
  GET "local" local_storage [".."; "etc"; "passwd"] true passwd_world =
    (Ok (FileResponse 200 hello
           [("Content-Type", "application/octet-stream"); ("Content-Length", "5");
            ("Cache-Control", "public, max-age=31536000, immutable");
            ("Content-Disposition", "inline; filename=" ++ dquote ++ "passwd" ++ dquote)]),
     passwd_world) /\
  GET "local" local_storage ["../etc/passwd"] false passwd_world =
    GET "local" local_storage [".."; "etc"; "passwd"] true passwd_world /\
  ~ within_root "./uploads" (getFilePath "./uploads" "../etc/passwd").
Proof.
  split; [vm_compute; reflexivity|]. split; [vm_compute; reflexivity|].
  intros [_ (rest & _ & _ & Hs)]. vm_compute in Hs. discriminate.
Qed.

End FilesRoute.
