(* ===== verification/SourceUrl.v ===== *)
(** * SourceUrl: from the URL an upload answers back to the route

    [getSourceUrl(key)] is [publicBaseUrl + "/api/storage/files/" +
    encodeURI(key)] ([LocalFileStorage.getPublicUrl]).  A client that
    follows it reaches the route [GET /api/storage/files/[...path]]: the
    URL parser ends the path at the first ["?"] or ["#"], and Next.js
    splits what follows the route's prefix on ["/"] and decodes each
    segment with [decodeURIComponent] to give [params.path].

    This file models that decoding: ECMAScript's [Decode] for the code
    points below 256 that [ascii] spans.  A [%XX] escape is a byte; a byte
    below 0x80 is a character; a lead byte 0xC2 or 0xC3 with a
    continuation byte is a character of U+0080-U+00FF; anything else
    ([URIError], or a valid sequence for a code point above U+00FF, which
    lies outside the model) is [None].  The decoding is the platform's,
    not repository code.

    The facts about single characters are checked by evaluation over the
    256 characters ([Prelude.ascii_forall_check]); the theorems follow by
    structural induction:
    - [decode_encodeURI]: [decodeURIComponent] inverts [encodeURI];
    - [sourceUrl_params]: the segments the route receives for the URL of a
      key free of ["?"] and ["#"] are the segments of the key;
    - [sourceUrl_serves]: the source URL of every upload leads the route
      back to the uploaded bytes, when the key prefix has no ["?"] or
      ["#"]. *)

From S2P Require Import Prelude NodePath NodeFs StorageUtils FileStorageInterface LocalFileStorage LocalRefinement FilesRoute.

Local Open Scope string_scope.

Module SourceUrl.
Import NodePath NodeFs StorageUtils FileStorageInterface LocalFileStorage LocalRefinement FilesRoute.

(** ** [decodeURIComponent] *)

(** The value of a hexadecimal digit, either case. *)
Definition hex_val (c : ascii) : option Z :=
  let n := Z.of_nat (nat_of_ascii c) in
  if is_digit c then Some (n - 48)%Z
  else if char_between 65 70 c then Some (n - 55)%Z
  else if char_between 97 102 c then Some (n - 87)%Z
  else None.

(** The byte of an escape [%h1h2]. *)
Definition hex_byte (h1 h2 : ascii) : option Z :=
  match hex_val h1, hex_val h2 with
  | Some x, Some y => Some (16 * x + y)%Z
  | _, _ => None
  end.

(** The character of a two-byte UTF-8 sequence, when its code point is
    below 256: lead byte 0xC2 or 0xC3, continuation byte [10xxxxxx]. *)
Definition utf8_two (b1 b2 : Z) : option ascii :=
  if ((b1 =? 194) || (b1 =? 195))%Z && (Z.land b2 192 =? 128)%Z
  then Some (ascii_of_nat (Z.to_nat (Z.lor (Z.shiftl (Z.land b1 31) 6) (Z.land b2 63))))
  else None.

Fixpoint decodeURIComponent (s : string) : option string :=
  match s with
  | EmptyString => Some EmptyString
  | String a s1 =>
      if Ascii.eqb a "%" then
        match s1 with
        | String h1 (String h2 rest) =>
            match hex_byte h1 h2 with
            | None => None
            | Some b =>
                if (b <? 128)%Z then
                  option_map (String (ascii_of_nat (Z.to_nat b))) (decodeURIComponent rest)
                else
                  match rest with
                  | String p (String h3 (String h4 rest')) =>
                      if Ascii.eqb p "%" then
                        match hex_byte h3 h4 with
                        | Some b2 =>
                            match utf8_two b b2 with
                            | Some c => option_map (String c) (decodeURIComponent rest')
                            | None => None
                            end
                        | None => None
                        end
                      else None
                  | _ => None
                  end
            end
        | _ => None
        end
      else option_map (String a) (decodeURIComponent s1)
  end.

(** The path of a URL, up to its query or fragment. *)
Fixpoint url_path (s : string) : string :=
  match s with
  | EmptyString => EmptyString
  | String a s' => if Ascii.eqb a "?" || Ascii.eqb a "#" then EmptyString else String a (url_path s')
  end.

Definition route_prefix : string := "/api/storage/files/".

(** [params.path] for a request whose URL is the base, the route's prefix
    and [rest]. *)
Definition next_params (rest : string) : option (list string) :=
  mapM decodeURIComponent (split_on "/" (url_path rest)).

(** ** One character *)

(** What the decoding needs of the escape of [c]: an unescaped character
    other than ["%"], or a one-byte escape of [c], or a two-byte escape of
    [c]. *)
Definition enc_ok (c : ascii) : bool :=
  match encode_char c with
  | String a EmptyString => negb (Ascii.eqb a "%") && Ascii.eqb a c
  | String p (String h1 (String h2 EmptyString)) =>
      Ascii.eqb p "%" &&
      match hex_byte h1 h2 with
      | Some b => (b <? 128)%Z && Ascii.eqb (ascii_of_nat (Z.to_nat b)) c
      | None => false
      end
  | String p (String h1 (String h2 (String q (String h3 (String h4 EmptyString))))) =>
      Ascii.eqb p "%" && Ascii.eqb q "%" &&
      match hex_byte h1 h2, hex_byte h3 h4 with
      | Some b, Some b2 =>
          negb (b <? 128)%Z &&
          match utf8_two b b2 with Some c' => Ascii.eqb c' c | None => false end
      | _, _ => false
      end
  | _ => false
  end.

Lemma enc_ok_all c : enc_ok c = true.
Proof. revert c. apply ascii_forall_check. vm_compute. reflexivity. Qed.

(** The escape of a character other than ["/"], ["?"] and ["#"] has none
    of them; ["/"] is left as it is. *)
Definition sep_ok (c : ascii) : bool :=
  (if Ascii.eqb c "/" then String.eqb (encode_char c) "/"
   else negb (str_has "/" (encode_char c))) &&
  (Ascii.eqb c "?" || negb (str_has "?" (encode_char c))) &&
  (Ascii.eqb c "#" || negb (str_has "#" (encode_char c))).

Lemma sep_ok_all c : sep_ok c = true.
Proof. revert c. apply ascii_forall_check. vm_compute. reflexivity. Qed.

Lemma decode_encode_char c r :
  decodeURIComponent (encode_char c ++ r) = option_map (String c) (decodeURIComponent r).
Proof.
  pose proof (enc_ok_all c) as H. unfold enc_ok in H.
  destruct (encode_char c) as [|a [|h1 [|h2 [|q [|h3 [|h4 [|]]]]]]]; try done; simpl.
  - apply andb_prop in H as [Ha Hc]. apply negb_true_iff in Ha.
    apply Ascii.eqb_eq in Hc. subst. by rewrite Ha.
  - apply andb_prop in H as [Hp H]. rewrite Hp.
    destruct (hex_byte h1 h2) as [b|]; [|done].
    apply andb_prop in H as [Hb Hc]. apply Ascii.eqb_eq in Hc. by rewrite Hb, Hc.
  - apply andb_prop in H as [Hpq H]. apply andb_prop in Hpq as [Hp Hq]. rewrite Hp.
    destruct (hex_byte h1 h2) as [b|], (hex_byte h3 h4) as [b2|]; try done.
    apply andb_prop in H as [Hb Hc]. apply negb_true_iff in Hb. rewrite Hb, Hq.
    destruct (utf8_two b b2) as [c'|]; [|done]. apply Ascii.eqb_eq in Hc. by subst.
Qed.

(** ** Strings *)

(** Decoding inverts [encodeURI], on every string. *)
Lemma decode_encodeURI s : decodeURIComponent (encodeURI s) = Some s.
Proof.
  induction s as [|c s IH]; [done|]. simpl. by rewrite decode_encode_char, IH.
Qed.

Lemma split_encodeURI s : split_on "/" (encodeURI s) = map encodeURI (split_on "/" s).
Proof.
  induction s as [|c s IH]; [done|]. simpl.
  pose proof (sep_ok_all c) as H. unfold sep_ok in H.
  apply andb_prop in H as [H _]. apply andb_prop in H as [H _].
  destruct (Ascii.eqb c "/") eqn:Hc.
  - apply Ascii.eqb_eq in Hc. subst. apply String.eqb_eq in H. rewrite H.
    change ("/" ++ encodeURI s) with (String "/" (encodeURI s)). simpl. by rewrite IH.
  - apply negb_true_iff in H. rewrite split_on_app_nosep by done. rewrite IH.
    rewrite decide_False by (intros ->; by rewrite Ascii.eqb_refl in Hc).
    pose proof (split_on_nonempty "/" s). by destruct (split_on "/" s).
Qed.

Lemma url_path_app_free x t :
  str_has "?" x = false -> str_has "#" x = false -> url_path (x ++ t) = x ++ url_path t.
Proof.
  unfold str_has. induction x as [|a x IH]; intros Hq Hh; [done|]. simpl in *.
  apply negb_false_iff in Hq, Hh. apply andb_prop in Hq as [Hqa Hq].
  apply andb_prop in Hh as [Hha Hh].
  destruct (Ascii.eqb a "?") eqn:Ea; [apply Ascii.eqb_eq in Ea; subst; by rewrite bool_decide_true in Hqa|].
  destruct (Ascii.eqb a "#") eqn:Eb; [apply Ascii.eqb_eq in Eb; subst; by rewrite bool_decide_true in Hha|].
  simpl. rewrite IH; [done|by apply negb_false_iff..].
Qed.

(** A key free of ["?"] and ["#"] is written in its URL whole. *)
Lemma url_path_encodeURI s :
  str_has "?" s = false -> str_has "#" s = false -> url_path (encodeURI s) = encodeURI s.
Proof.
  induction s as [|c s IH]; [done|]. intros Hq Hh. simpl.
  change (String c s) with (String c "" ++ s) in Hq, Hh.
  rewrite str_has_app in Hq, Hh. apply orb_false_iff in Hq as [Hqc Hq].
  apply orb_false_iff in Hh as [Hhc Hh].
  pose proof (sep_ok_all c) as H. unfold sep_ok in H.
  apply andb_prop in H as [H Hhash]. apply andb_prop in H as [_ Hquery].
  rewrite url_path_app_free, IH; [done..| |].
  - destruct (Ascii.eqb c "?") eqn:E; [|by apply negb_true_iff in Hquery].
    apply Ascii.eqb_eq in E. subst. discriminate Hqc.
  - destruct (Ascii.eqb c "#") eqn:E; [|by apply negb_true_iff in Hhash].
    apply Ascii.eqb_eq in E. subst. discriminate Hhc.
Qed.

(** ** The source URL of a key *)

Lemma sourceUrl_params_run pb key :
  str_has "?" key = false -> str_has "#" key = false ->
  exists rest, getPublicUrl pb key = pb ++ route_prefix ++ rest /\
               next_params rest = Some (split_on "/" key).
Proof.
  intros Hq Hh. exists (encodeURI key). split; [reflexivity|].
  unfold next_params. rewrite url_path_encodeURI, split_encodeURI by done.
  apply mapM_Some_2. induction (split_on "/" key) as [|x l IH]; constructor; [|done].
  apply decode_encodeURI.
Qed.

(** C20. Round trip of a key through its URL: the source URL of a key free of
    ["?"] and ["#"] is the base, the route's prefix and a path whose
    decoded segments, as Next.js gives them to the route, are exactly the
    segments of the key. *)
Theorem sourceUrl_params pb key :
  str_has "?" key = false -> str_has "#" key = false ->
  exists rest, getPublicUrl pb key = pb ++ route_prefix ++ rest /\
               next_params rest = Some (split_on "/" key).
Proof. apply sourceUrl_params_run. Qed.

Section Keys.
Context `{KP : KeyPrimitives}.

(** A character that no UUID and no sanitized name has, and that is
    neither ["/"] nor ["-"], is absent from a key with a prefix free of it. *)
Lemma key_template_free ch P n s :
  uuid_char ch = false -> filename_char ch = false -> ch <> "/"%char ->
  str_has ch P = false -> str_has ch (key_template P (uuid_tape n) (sanitizeFilename s)) = false.
Proof.
  intros Hu Hf Hs HP. unfold key_template.
  assert (Hdash : str_has ch "-" = false).
  { unfold str_has. simpl. rewrite bool_decide_false; [done|].
    intros <-. by vm_compute in Hf. }
  rewrite !str_has_app, (str_has_forall _ _ _ (uuid_chars n)),
    (str_has_forall _ _ _ (sanitize_chars s)), Hdash by done.
  case_decide; [done|]. rewrite str_has_app, HP. simpl.
  unfold str_has. simpl. by rewrite bool_decide_false.
Qed.

(** C16. The URL of an upload serves it: when the key prefix is sane and has no
    ["?"] or ["#"], the source URL an [upload] answers is the base, the
    route's prefix and a path whose decoded segments make the route answer
    200 with the uploaded bytes and the key's headers. *)
Theorem sourceUrl_serves P e c o w r w' mf :
  prefix_ok P -> str_has "?" P = false -> str_has "#" P = false ->
  upload (createLocalFileStorage P e) c o w = (Ok r, w') ->
  exists rest segs,
    res_sourceUrl r = getPublicBaseUrl e ++ route_prefix ++ rest /\
    next_params rest = Some segs /\
    GET "local" (createLocalFileStorage P e) segs mf w' =
    (Ok (FileResponse 200 (toBuffer c)
          (file_headers (metadata_of (res_key r) (List.length (toBuffer c))
                                     (fs_now (w_fs w'))))), w').
Proof.
  intros HP Hq Hh U. pose proof U as U'.
  change (upload_impl P (getStoragePath e) (getPublicBaseUrl e) c o w = (Ok r, w')) in U'.
  destruct (upload_result_run _ _ _ _ _ _ _ _ U') as [Hurl _].
  destruct (upload_key_run _ _ _ _ _ _ _ _ HP U') as [K _].
  destruct (sourceUrl_params_run (getPublicBaseUrl e) (res_key r)) as (rest & Hrest & Hp);
    [rewrite K; by apply key_template_free..|].
  exists rest, (split_on "/" (res_key r)). rewrite Hurl.
  split; [done|]. split; [done|]. by apply (upload_then_GET_run P e c o w).
Qed.
End Keys.

(** ** Concrete runs *)

(** A key with a space, a percent sign and a Latin-1 letter (U+00E9). *)
Definition odd_key : string := "my docs/caf" ++ String (ascii_of_nat 233) " 50%.txt".

Lemma sourceUrl_params_witness :
  str_has "?" odd_key = false /\ str_has "#" odd_key = false /\
  encodeURI odd_key = "my%20docs/caf%C3%A9%2050%25.txt" /\
  exists rest, getPublicUrl "https://chat.example" odd_key =
                 "https://chat.example" ++ route_prefix ++ rest /\
               next_params rest = Some ["my docs"; "caf" ++ String (ascii_of_nat 233) " 50%.txt"].
Proof.
  split; [vm_compute; reflexivity|]. split; [vm_compute; reflexivity|].
  split; [vm_compute; reflexivity|].
  apply (sourceUrl_params "https://chat.example" odd_key); vm_compute; reflexivity.
Defined.

Lemma sourceUrl_serves_witness :
  exists r w', upload (createLocalFileStorage "" ∅) (BufferContent hello) notes_options demo_world
                 = (Ok r, w') /\
  exists rest segs,
    res_sourceUrl r = getPublicBaseUrl ∅ ++ route_prefix ++ rest /\
    next_params rest = Some segs /\
    GET "local" (createLocalFileStorage "" ∅) segs true w' =
    (Ok (FileResponse 200 hello
          (file_headers (metadata_of (res_key r) 5 (fs_now (w_fs w'))))), w').
Proof.
  eexists _, _. split; [vm_compute; reflexivity|].
  apply (sourceUrl_serves "" ∅ (BufferContent hello) notes_options demo_world);
    [by left|vm_compute; reflexivity..].
Defined.

(** C34. Finding: [encodeURI] leaves ["?"] and ["#"] as they are, so the URL of
    a key that has one (possible only through the configured prefix) does
    not lead back to the key: for the key [a?b/07-notes.txt] the route is
    given the single segment ["a"]. *)
Theorem sourceUrl_query_breaks :
  getPublicUrl "" "a?b/07-notes.txt" = route_prefix ++ "a?b/07-notes.txt" /\
  next_params "a?b/07-notes.txt" = Some ["a"] /\
  split_on "/" "a?b/07-notes.txt" <> ["a"].
Proof. split; [reflexivity|]. split; [vm_compute; reflexivity|]. discriminate. Qed.

End SourceUrl.
