(* ===== verification/Concurrency.v ===== *)
(** * Concurrency: the local backend's calls interleaved at their [await]s

    Node runs the handlers of concurrent requests on one thread, but an
    [async] function gives way at each [await]: between two of them its
    code runs without interruption, and across one, any other pending call
    may run.  A call in flight is a [thread]: not started ([Pending]), an
    [upload] suspended at one of its [await]s ([Uploading], with the phase
    [uphase]), or settled ([Finished]).  [seg] is the code a thread runs
    until its next [await], written from [local-file-storage.ts]; the
    recursive [fs.mkdir] is a loop of [mkdir] system calls, and each of
    them is a step of its own ([NodeFs.mkdir_one]), as in libuv.  The
    other calls have one [await] on one system call and run in one step.

    A configuration is the list of calls in flight and the world; [cstep]
    runs one segment of any thread, and [run_sched] runs a schedule.  The
    properties of this machine are proved in [Races] (uploads racing each
    other and deletes never fail), [Persistence] (resolved uploads stay
    stored), [RouteRaces] and [RouteSafety] (requests to the route beside
    the calls).  This file holds the machine and what every one of those
    files uses: only a settled call has no step left
    ([no_step_finished]), and settled calls take no step
    ([settled_stuck]). *)

From S2P Require Import Prelude NodePath NodeFs Canon StorageUtils FileStorageInterface LocalFileStorage Traces.

Local Open Scope string_scope.
Local Open Scope async_scope.

Module Concurrency.
Import NodePath NodeFs Canon StorageUtils FileStorageInterface LocalFileStorage Traces.

(** The [await] an [upload] is suspended at. *)
Inductive uphase :=
| UEnsure (ancs : list string)
| UBuffer
| UMkdir (key : string) (ancs : list string)
| UWrite (key : string).

Inductive thread :=
| Pending (x : op)
| Uploading (c : content) (o : UploadOptions) (ph : uphase)
| Finished (r : result reply exn).

(** A rejected [await] settles the call with the rejection. *)
Definition settle (m : M thread) (w : world) : thread * world :=
  match m w with
  | (Ok t, w') => (t, w')
  | (Err err, w') => (Finished (Err err), w')
  end.

Lemma settle_bind {A} (m : M A) (k : A -> M thread) w :
  settle (bind m k) w =
  match m w with
  | (Ok a, w1) => settle (k a) w1
  | (Err err, w1) => (Finished (Err err), w1)
  end.
Proof. unfold settle, bind. by destruct (m w) as [[a|err] w1]. Qed.

Lemma settle_ret t w : settle (ret t) w = (t, w).
Proof. reflexivity. Qed.

(** Run a hypothesis [settle m w = (t', w')] through the binds of [m]. *)
Ltac settle_run H :=
  repeat (rewrite ?settle_ret, ?settle_bind in H;
          lazymatch type of H with
          | match ?m ?w with _ => _ end = _ => destruct (m w) as [[?|?] ?]
          | _ => fail
          end); rewrite ?settle_ret in H; simplify_eq.

Section Machine.
Context `{KP : KeyPrimitives} (P : string) (e : env).

Local Abbreviation sp := (getStoragePath e).
Local Abbreviation st := (createLocalFileStorage P e).

(** Lines 60-61 and 43-45: [upload] calls [ensureStorageDir()], which tests
    [existsSync(storagePath)] and, when the directory is missing, starts
    [fs.mkdir(storagePath, { recursive: true })]. *)
Definition upload_start (c : content) (o : UploadOptions) : M thread :=
  let! present := exists_sync sp in
  ret (Uploading c o (if present then UBuffer else UEnsure (ancestors sp))).

(** One [mkdir] of that call; when none is left, line 46 and the return of
    [ensureStorageDir]. *)
Definition ensure_step (c : content) (o : UploadOptions) (ancs : list string)
  : M thread :=
  match ancs with
  | [] => log_info ("Created storage directory: " ++ sp) ;;! ret (Uploading c o UBuffer)
  | a :: rest =>
      fs_call (mkdir_one sp a (bool_decide (rest = []))) ;;!
      ret (Uploading c o (UEnsure rest))
  end.

(** Lines 63-72: after [await toBuffer(content)], the key is built, the
    directory tested, and [fs.mkdir(dir, { recursive: true })] started when
    it is missing. *)
Definition buffer_step (c : content) (o : UploadOptions) : M thread :=
  let! buffer := ret (toBuffer c) in
  let filename := default "file" (opt_filename o) in
  let! key := buildKey P filename in
  let filePath := getFilePath sp key in
  let dir := dirname filePath in
  let! dir_present := exists_sync dir in
  ret (Uploading c o (if dir_present then UWrite key else UMkdir key (ancestors dir))).

(** One [mkdir] of the call of line 71; when none is left, line 74 starts
    the write. *)
Definition mkdir_step (c : content) (o : UploadOptions) (key : string)
  (ancs : list string) : M thread :=
  match ancs with
  | [] => ret (Uploading c o (UWrite key))
  | a :: rest =>
      fs_call (mkdir_one (dirname (getFilePath sp key)) a (bool_decide (rest = []))) ;;!
      ret (Uploading c o (UMkdir key rest))
  end.

(** Lines 74-88: the write and what follows it. *)
Definition upload_finish (c : content) (o : UploadOptions) (key : string)
  : M UploadResult :=
  let buffer := toBuffer c in
  let filePath := getFilePath sp key in
  fs_call (writeFile filePath buffer) ;;!
  let! uploadedAt := new_date in
  let metadata := {| md_key := key; md_filename := basename key;
                 md_contentType := js_or (opt_contentType o) octet_stream;
                 md_size := List.length buffer; md_uploadedAt := uploadedAt |} in
  let sourceUrl := getPublicUrl (getPublicBaseUrl e) key in
  log_info ("File uploaded: " ++ key ++ " (" ++ decimal (List.length buffer) ++ " bytes)") ;;!
  ret {| res_key := key; res_sourceUrl := sourceUrl; res_metadata := metadata |}.

(** The code a thread runs until its next [await], or nothing when it has
    settled.  [download], [delete], [exists] and [getMetadata] await one
    system call and settle. *)
Definition seg (t : thread) : option (M thread) :=
  match t with
  | Pending (OUpload c o) => Some (upload_start c o)
  | Pending x => Some (let! r := run_op st x in ret (Finished (Ok r)))
  | Uploading c o (UEnsure ancs) => Some (ensure_step c o ancs)
  | Uploading c o UBuffer => Some (buffer_step c o)
  | Uploading c o (UMkdir key ancs) => Some (mkdir_step c o key ancs)
  | Uploading c o (UWrite key) =>
      Some (let! r := upload_finish c o key in ret (Finished (Ok (RUpload r))))
  | Finished _ => None
  end.

Definition tstep (t : thread) (w : world) : option (thread * world) :=
  option_map (fun m => settle m w) (seg t).

(** One segment of one of the calls in flight. *)
Inductive cstep : list thread * world -> list thread * world -> Prop :=
| CStep ts w i t t' w' :
    ts !! i = Some t -> tstep t w = Some (t', w') ->
    cstep (ts, w) (<[i := t']> ts, w').

(** ** Settled calls *)

(** Only a settled call has no step left. *)
Lemma tstep_None t w : tstep t w = None <-> exists r, t = Finished r.
Proof.
  split; [|by intros [r ->]].
  unfold tstep. destruct t as [[]|c o []|r]; by eauto.
Qed.

(** A configuration with no step left has every call settled. *)
Lemma no_step_finished ts w :
  (forall c', ~ cstep (ts, w) c') -> Forall (fun t => exists r, t = Finished r) ts.
Proof.
  intros H. apply Forall_lookup. intros i t Hi.
  destruct (tstep t w) as [[t' w']|] eqn:E; [|by apply tstep_None in E].
  exfalso. eapply H. by econstructor.
Qed.

(** ** Schedules *)

(** Run the calls in the order of a schedule: each index runs one segment
    of that call, when it has one. *)
Fixpoint run_sched (sched : list nat) (c : list thread * world) : list thread * world :=
  match sched with
  | [] => c
  | i :: rest =>
      match c.1 !! i with
      | Some t =>
          match tstep t c.2 with
          | Some (t', w') => run_sched rest (<[i := t']> c.1, w')
          | None => run_sched rest c
          end
      | None => run_sched rest c
      end
  end.

Definition settled (t : thread) : bool := match t with Finished _ => true | _ => false end.

Lemma run_sched_rtc sched c : rtc cstep c (run_sched sched c).
Proof.
  revert c. induction sched as [|i rest IH]; intros [ts w]; simpl; [done|].
  destruct (ts !! i) as [t|] eqn:Hi; [|done].
  destruct (tstep t w) as [[t' w']|] eqn:Ht; [|done].
  eapply rtc_l; [by econstructor|]. apply IH.
Qed.

(** Settled calls take no step. *)
Lemma settled_stuck ts w :
  forallb settled ts = true -> forall c', ~ cstep (ts, w) c'.
Proof.
  intros H c' Hs. inversion Hs as [ts0 w0 i t t' w' Hi Ht]; subst.
  apply forallb_forall with (x := t) in H; [|by eapply list_elem_of_In, list_elem_of_lookup_2].
  by destruct t.
Qed.

End Machine.

End Concurrency.
