(* ===== verification/Races.v ===== *)
(** * Races: what concurrent calls do to each other on the local backend

    The calls of [Concurrency] interleave at their [await]s.  The places
    an upload touches are fixed by the configuration: the directories
    [dir_path] (the ancestors of [<storagePath>/<prefix>]) and the files
    [file_path] (one safe segment below it).  A step changes the disk
    only as [NodeFs.evolves] allows: it makes a directory where its
    thread is making one, writes a file where its thread writes, or
    removes a file.  So the disk keeps the shape [disk_ok] (no fault on
    those places, no file where a directory goes, no directory where a
    file goes), and each thread keeps what it has established
    ([thread_inv]): directories once made stay.  Hence, whatever the
    other calls are (uploads, deletes of any key, reads) and however they
    interleave, no upload fails ([uploads_never_fail]) and every upload
    settles with its result ([uploads_succeed]). *)

From S2P Require Import Prelude NodePath NodeFs Canon StorageUtils FileStorageInterface LocalFileStorage LocalRefinement Traces Concurrency.

Local Open Scope string_scope.
Local Open Scope async_scope.

Module Races.
Import NodePath NodeFs Canon StorageUtils FileStorageInterface LocalFileStorage LocalRefinement Traces Concurrency.

(** [NodeFs.evolves] on the disks of two worlds. *)
Definition wevolves (D F : string -> Prop) : relation world := fun w w' =>
  evolves D F (w_fs w) (w_fs w').

#[export] Instance wevolves_preorder D F : PreOrder (wevolves D F).
Proof. split; repeat intro; unfold wevolves in *; [reflexivity|etrans; eauto]. Qed.

Section Frames.
Context (D F : string -> Prop).

Lemma evolves_fs_call {A} (m : FS A) :
  (forall fs r fs', m fs = (r, fs') -> evolves D F fs fs') ->
  preserves (wevolves D F) (fs_call m).
Proof.
  intros Hm w r w'. unfold fs_call.
  destruct (m (w_fs w)) as [[|] fs'] eqn:E; intros [= _ <-]; exact (Hm _ _ _ E).
Qed.

Lemma evolves_exists_sync p : preserves (wevolves D F) (exists_sync p).
Proof. intros w r w' [= _ <-]. unfold wevolves. simpl. reflexivity. Qed.

Lemma evolves_log_info msg : preserves (wevolves D F) (log_info msg).
Proof. intros w r w' [= _ <-]. unfold wevolves. simpl. reflexivity. Qed.

Lemma evolves_new_date : preserves (wevolves D F) new_date.
Proof. intros w r w' [= _ <-]. unfold wevolves. simpl. reflexivity. Qed.

Lemma evolves_generateUUID `{KeyPrimitives} : preserves (wevolves D F) generateUUID.
Proof. intros w r w' [= _ <-]. unfold wevolves. simpl. reflexivity. Qed.

Lemma evolves_readFile p : preserves (wevolves D F) (fs_call (readFile p)).
Proof. apply evolves_fs_call. apply readFile_evolves. Qed.

Lemma evolves_stat p : preserves (wevolves D F) (fs_call (stat p)).
Proof. apply evolves_fs_call. apply stat_evolves. Qed.

Lemma evolves_access p : preserves (wevolves D F) (fs_call (access p)).
Proof. apply evolves_fs_call. apply access_evolves. Qed.

Lemma evolves_unlink p : preserves (wevolves D F) (fs_call (unlink p)).
Proof. apply evolves_fs_call. apply unlink_evolves. Qed.
End Frames.

#[export] Hint Resolve evolves_exists_sync evolves_log_info evolves_new_date
  evolves_generateUUID evolves_readFile evolves_stat evolves_access evolves_unlink : storage.

Lemma evolves_buildKey `{KeyPrimitives} D F P fn : preserves (wevolves D F) (buildKey P fn).
Proof. unfold buildKey. eauto with storage typeclass_instances. Qed.

Lemma evolves_mkdir_one D F p a l :
  (forall q, q = a -> D q) -> preserves (wevolves D F) (fs_call (mkdir_one p a l)).
Proof.
  intros HD. apply evolves_fs_call. intros fs r fs' H.
  eapply (evolves_mono _ F); [exact HD|done|]. by eapply mkdir_one_evolves.
Qed.

Lemma evolves_writeFile D F p d :
  (forall q, q = canon p -> F q) -> preserves (wevolves D F) (fs_call (writeFile p d)).
Proof.
  intros HF. apply evolves_fs_call. intros fs r fs' H.
  eapply (evolves_mono D); [done|exact HF|]. by eapply writeFile_evolves.
Qed.

#[export] Hint Resolve evolves_buildKey : storage.

Lemma settle_preserves R m w t' w' : preserves R m -> settle m w = (t', w') -> R w w'.
Proof.
  unfold settle. intros Hm. destruct (m w) as [[t1|err] w1] eqn:E;
    intros [= _ <-]; exact (Hm _ _ _ E).
Qed.

Section Steps.
Context `{KP : KeyPrimitives} (P : string) (e : env).

Local Abbreviation sp := (getStoragePath e).

(** Where the next step of a thread may make a directory, and where it may
    write a file. *)
Definition step_dirs (t : thread) : string -> Prop := fun q =>
  match t with
  | Uploading _ _ (UEnsure (a :: _)) | Uploading _ _ (UMkdir _ (a :: _)) => q = a
  | _ => False
  end.

Definition step_files (t : thread) : string -> Prop := fun q =>
  match t with
  | Uploading _ _ (UWrite key) => q = canon (getFilePath sp key)
  | _ => False
  end.

(** A step changes the disk only where its thread works; elsewhere it
    may only remove files. *)
Lemma tstep_evolves t w t' w' :
  tstep P e t w = Some (t', w') -> wevolves (step_dirs t) (step_files t) w w'.
Proof.
  unfold tstep. destruct (seg P e t) as [m|] eqn:Hs; [|done]. intros [= H].
  eapply settle_preserves; [|exact H].
  destruct t as [[c o|k|k|k|k]|c o [[|a rest]| |key [|a rest]|key]|r];
    cbn [seg] in Hs; try discriminate; injection Hs as <-;
    unfold upload_start, ensure_step, buffer_step, mkdir_step, upload_finish;
    cbn [run_op createLocalFileStorage upload download FileStorageInterface.delete
         exists_ getMetadata];
    unfold download_impl, delete_impl, exists_impl, getMetadata_impl;
    eauto 20 using evolves_mkdir_one, evolves_writeFile with storage typeclass_instances.
Qed.

End Steps.

(** ** The places an upload works on *)

Section Places.
Context `{KP : KeyPrimitives} (P : string) (e : env).

Local Abbreviation sp := (getStoragePath e).
Local Abbreviation a := (is_abs (getStoragePath e)).

(** The segments of [<storagePath>/<prefix>], the directory the keys go
    in. *)
Definition root_segs : list string :=
  path_segs sp ++ (if decide (P = "") then [] else split_on sep P).

(** The directories an upload may make: the ancestors of that directory. *)
Definition dir_path (q : string) : Prop :=
  exists i, 1 <= i <= List.length root_segs /\ q = canon_of a (take i root_segs).

(** The files an upload may write: one safe segment below it. *)
Definition file_path (q : string) : Prop :=
  exists n, name_seg n /\ q = canon_of a (root_segs ++ [n]).

(** The disk lets uploads through: no fault on their places, no file
    where a directory goes, no directory where a file goes. *)
Record disk_ok (fs : fsys) : Prop := {
  disk_faults : forall q, dir_path q \/ file_path q -> fs_faults fs !! q = None;
  disk_dirs : forall q d m, dir_path q -> entry fs q <> Some (NFile d m);
  disk_files : forall q m, file_path q -> entry fs q <> Some (NDir m)
}.

(** The key of an upload: its file is one safe segment [n] below the
    directory of the keys. *)
Definition key_shape (key : string) : Prop :=
  exists n, name_seg n /\ getFilePath sp key = canon_of a (root_segs ++ [n]).

Definition is_dir (fs : fsys) (q : string) : Prop := exists m, entry fs q = Some (NDir m).

(** What an upload suspended at an [await] has established: the
    directories still to make are the last ancestors of its target, and
    those before them are directories; at the write, its key has the
    shape of a key and the directory of the keys exists. *)
Definition phase_ok (fs : fsys) (ph : uphase) : Prop :=
  match ph with
  | UEnsure ancs => ancs `suffix_of` ancestors sp
  | UBuffer => True
  | UMkdir key ancs =>
      key_shape key /\ ancs `suffix_of` ancestors (canon_of a root_segs) /\
      forall q, q ∈ ancestors (canon_of a root_segs) -> q ∉ ancs -> is_dir fs q
  | UWrite key => key_shape key /\ is_dir fs (canon_of a root_segs)
  end.

(** A call in flight, started as [x]: an upload is pending, suspended with
    its phase established, or settled with a result; any other call is
    pending or settled. *)
Definition thread_inv (fs : fsys) (x : op) (t : thread) : Prop :=
  match x with
  | OUpload c o =>
      t = Pending x \/ (exists ph, t = Uploading c o ph /\ phase_ok fs ph) \/
      exists res, t = Finished (Ok (RUpload res))
  | _ => t = Pending x \/ exists r, t = Finished r
  end.

(** A configuration started from the calls [xs]: the disk has the right
    shape, and each call in flight keeps its invariant. *)
Definition cinv (xs : list op) (c : list thread * world) : Prop :=
  disk_ok (w_fs c.2) /\ Forall2 (thread_inv (w_fs c.2)) xs c.1.

Section Lemmas.
Context (HP : prefix_ok P) (Hsp : Forall safe_seg (path_segs sp)).

Lemma root_segs_ok : Forall name_seg root_segs.
Proof.
  apply Forall_app. split.
  - apply Forall_and. split; [done|]. eapply Forall_impl;
      [apply (normalize_segments_pieces (negb a) sp)|]. by intros ? [].
  - case_decide; [done|]. destruct HP; [done|]. by apply name_segs_split.
Qed.

Lemma canon_of_not_root S :
  S <> [] -> Forall name_seg S -> is_root_dir (canon_of a S) = false.
Proof.
  intros Hne HS. destruct (canon_of_segs a S HS) as [_ Hp].
  unfold is_root_dir. apply bool_decide_eq_false_2.
  intros [E|E]; rewrite E in Hp; by vm_compute in Hp.
Qed.

Lemma dir_file_disjoint q : dir_path q -> file_path q -> False.
Proof.
  intros (i & Hi & ->) (n & Hn & E).
  pose proof root_segs_ok as HR.
  apply canon_of_inj in E as [_ E]; [|by apply Forall_take|by apply Forall_app; auto].
  apply (f_equal (@List.length string)) in E. rewrite length_take, length_app in E.
  simpl in E. lia.
Qed.

(** The key [buildKey] draws has the shape of an upload's key. *)
Lemma buildKey_shape fn w key w' : buildKey P fn w = (Ok key, w') -> key_shape key.
Proof.
  rewrite buildKey_spec_run by done. intros [= <- _].
  destruct (key_name_piece (w_uuid w) (if decide (fn = "") then "file" else fn)) as [Hs Hf].
  eexists. split; [split; [exact Hs|exact Hf]|].
  unfold getFilePath. rewrite join_canon.
  - rewrite key_template_segs by done. unfold root_segs. by rewrite app_assoc.
  - apply getStoragePath_nonempty.
  - apply key_template_nonempty.
  - by apply key_template_safe.
Qed.

Section Key.
Context (key : string) (Hk : key_shape key).

Lemma key_file : exists n, name_seg n /\ canon (getFilePath sp key) = canon_of a (root_segs ++ [n]).
Proof.
  destruct Hk as (n & Hn & ->). exists n. split; [done|].
  apply canon_canon_of. apply Forall_app. split; [apply root_segs_ok|auto].
Qed.

Lemma key_file_path : file_path (canon (getFilePath sp key)).
Proof. destruct key_file as (n & Hn & ->). by exists n. Qed.

Lemma key_dirname : dirname (getFilePath sp key) = canon_of a root_segs.
Proof.
  destruct Hk as (n & Hn & ->). apply dirname_canon_of.
  apply Forall_app. split; [apply root_segs_ok|auto].
Qed.

Lemma key_parent : parent (getFilePath sp key) = canon_of a root_segs.
Proof.
  destruct Hk as (n & Hn & ->). apply parent_canon_of.
  apply Forall_app. split; [apply root_segs_ok|auto].
Qed.
End Key.

(** The directories made for the storage path and for the keys are among
    the places of [dir_path]. *)
Lemma ancestors_root_dirs q : q ∈ ancestors (canon_of a root_segs) -> dir_path q.
Proof.
  rewrite ancestors_canon_of by apply root_segs_ok.
  intros Hq%list_elem_of_In. apply in_map_iff in Hq as (i & <- & Hi%in_seq).
  exists i. split; [lia|done].
Qed.

Lemma ancestors_sp_dirs q : q ∈ ancestors sp -> dir_path q.
Proof.
  rewrite ancestors_canon by done.
  intros Hq%list_elem_of_In. apply in_map_iff in Hq as (i & <- & Hi%in_seq). exists i.
  unfold root_segs. rewrite take_app_le by lia. rewrite length_app. split; [lia|done].
Qed.

(** The directory of the keys is ready when all its ancestors are
    directories. *)
Lemma dir_ready_of_ancestors fs :
  (forall q, q ∈ ancestors (canon_of a root_segs) -> is_dir fs q) ->
  is_dir fs (canon_of a root_segs).
Proof.
  intros H. destruct (decide (root_segs = [])) as [E|Hne].
  - rewrite E. exists 0%Z. unfold entry. by destruct a.
  - apply H. rewrite ancestors_canon_of by apply root_segs_ok.
    apply list_elem_of_In, in_map_iff. exists (List.length root_segs).
    rewrite take_ge by lia. split; [done|]. apply in_seq.
    destruct root_segs; [done|]. simpl. lia.
Qed.

(** A place of [dir_path] that [existsSync] finds on a disk of the right
    shape is a directory. *)
Lemma exists_dir fs : disk_ok fs -> existsSync (canon_of a root_segs) fs = true ->
  is_dir fs (canon_of a root_segs).
Proof.
  intros Hd. unfold existsSync. rewrite canon_canon_of by apply root_segs_ok.
  destruct (fs_faults fs !! canon_of a root_segs); [done|].
  destruct (entry fs (canon_of a root_segs)) as [[d m|m]|] eqn:E; [|by exists m|done].
  intros _. exfalso. destruct (decide (root_segs = [])) as [Er|Hne].
  - rewrite Er in E. unfold entry in E. by destruct a.
  - apply (disk_dirs fs Hd (canon_of a root_segs) d m); [|done]. exists (List.length root_segs).
    rewrite take_ge by lia. split; [|done]. destruct root_segs; [done|]. simpl. lia.
Qed.

(** A disk of the right shape keeps it when it evolves by making
    directories on [dir_path] and writing files on [file_path]. *)
Lemma disk_ok_evolves fs fs' :
  disk_ok fs -> evolves dir_path file_path fs fs' -> disk_ok fs'.
Proof.
  intros [Hf Hd Hfl] [Ef E]. split.
  - intros q Hq. rewrite Ef. by apply Hf.
  - intros q d m Hq.
    destruct (E q) as [H|[_ [[_ [m1 H]]|[[Hq1 _]|H]]]]; rewrite ?H; [by apply Hd|done| |done].
    exfalso. by apply (dir_file_disjoint q).
  - intros q m Hq.
    destruct (E q) as [H|[_ [[Hq1 _]|[[_ (d & m1 & H)]|H]]]]; rewrite ?H; [by apply Hfl| |done|done].
    exfalso. by apply (dir_file_disjoint q).
Qed.

(** ** What each segment of an upload does on a disk of the right shape *)

Lemma upload_start_run c o w :
  settle (upload_start e c o) w =
  (Uploading c o (if existsSync sp (w_fs w) then UBuffer else UEnsure (ancestors sp)), w).
Proof. reflexivity. Qed.

Lemma ensure_nil_run c o w :
  exists w', settle (ensure_step e c o []) w = (Uploading c o UBuffer, w') /\ w_fs w' = w_fs w.
Proof. by eexists. Qed.

Lemma mkdir_one_run p q l t w :
  disk_ok (w_fs w) -> dir_path q ->
  exists w', settle (fs_call (mkdir_one p q l) ;;! ret t) w = (t, w') /\ is_dir (w_fs w') q.
Proof.
  intros Hd Hq. destruct (mkdir_one_ok p q l (w_fs w)) as (fs' & E & Hdir).
  - apply (disk_faults _ Hd). by left.
  - intros d m. by apply (disk_dirs _ Hd).
  - rewrite settle_bind, (fs_call_Ok _ _ _ _ E). by eexists.
Qed.

Lemma buffer_run c o w :
  exists key w', key_shape key /\ w_fs w' = w_fs w /\
    settle (buffer_step P e c o) w =
    (Uploading c o (if existsSync (canon_of a root_segs) (w_fs w) then UWrite key
                    else UMkdir key (ancestors (canon_of a root_segs))), w').
Proof.
  unfold buffer_step. rewrite settle_bind. cbn [ret]. rewrite settle_bind.
  destruct (buildKey P _ w) as [[key|err] w1] eqn:E;
    [|rewrite buildKey_spec_run in E by done; discriminate].
  pose proof (buildKey_shape _ _ _ _ E) as Hk.
  rewrite buildKey_spec_run in E by done. injection E as _ <-.
  exists key. eexists. split; [done|]. rewrite key_dirname by done.
  split; [|reflexivity]. reflexivity.
Qed.

Lemma write_run c o key w :
  disk_ok (w_fs w) -> key_shape key -> is_dir (w_fs w) (canon_of a root_segs) ->
  exists res w',
    settle (let! r := upload_finish e c o key in ret (Finished (Ok (RUpload r)))) w =
    (Finished (Ok (RUpload res)), w').
Proof.
  intros Hd Hk Hr. destruct (writeFile_ok (getFilePath sp key) (toBuffer c) (w_fs w))
    as (fs' & E).
  - apply (disk_faults _ Hd). right. by apply key_file_path.
  - intros m. apply (disk_files _ Hd). by apply key_file_path.
  - by rewrite key_parent.
  - rewrite settle_bind. unfold upload_finish. cbv zeta.
    rewrite (bind_ok _ _ _ _ _ (fs_call_Ok _ _ _ _ E)). by do 2 eexists.
Qed.

(** ** The invariants are kept *)

Lemma is_dir_evolves D F fs fs' q : evolves D F fs fs' -> is_dir fs q -> is_dir fs' q.
Proof. intros He [m Hm]. exists m. by eapply evolves_dir. Qed.

Lemma phase_ok_evolves D F fs fs' ph :
  evolves D F fs fs' -> phase_ok fs ph -> phase_ok fs' ph.
Proof.
  intros He. destruct ph as [ancs| |key ancs|key]; simpl; [done|done| |].
  - intros (Hk & Hs & Hall). do 2 (split; [done|]). intros q Hq Hn.
    eapply is_dir_evolves; [done|]. by apply Hall.
  - intros [Hk Hr]. split; [done|]. by eapply is_dir_evolves.
Qed.

(** Another thread's step leaves a thread's invariant in place. *)
Lemma thread_inv_evolves D F fs fs' x t :
  evolves D F fs fs' -> thread_inv fs x t -> thread_inv fs' x t.
Proof.
  intros He. destruct x; simpl; try done.
  intros [H|[(ph & -> & Hph)|H]]; eauto 10 using phase_ok_evolves.
Qed.

(** The places a thread works on are those of the configuration. *)
Lemma step_places fs x t :
  thread_inv fs x t ->
  (forall q, step_dirs t q -> dir_path q) /\ (forall q, step_files e t q -> file_path q).
Proof.
  destruct x; simpl; intros Hinv.
  2-5: destruct Hinv as [->|[r ->]]; split; intros ? [].
  destruct Hinv as [->|[(ph & -> & Hph)|[res ->]]]; [split; intros ? []| |split; intros ? []].
  destruct ph as [[|a0 rest]| |key [|a0 rest]|key]; simpl in Hph |- *;
    split; intros q Hq; try done; subst q.
  - apply ancestors_sp_dirs. eapply elem_of_suffix; [|exact Hph]. by left.
  - apply ancestors_root_dirs. eapply elem_of_suffix; [|apply Hph]. by left.
  - by apply key_file_path, Hph.
Qed.

(** The thread that steps keeps its invariant. *)
Lemma tstep_inv w x t t' w' :
  disk_ok (w_fs w) -> thread_inv (w_fs w) x t -> tstep P e t w = Some (t', w') ->
  thread_inv (w_fs w') x t'.
Proof.
  intros Hd Hinv H. pose proof (tstep_evolves P e _ _ _ _ H) as Hev.
  unfold tstep in H. destruct x as [c o|k|k|k|k]; simpl in Hinv.
  2-5: destruct Hinv as [->|[r ->]]; [|done]; cbn [seg option_map] in H;
    apply (inj Some) in H; rewrite settle_bind in H;
    lazymatch type of H with
    | (let (_, _) := ?X in _) = _ => destruct X as [[r|err] w1]
    end; injection H as <- _; right; eauto.
  destruct Hinv as [->|[(ph & -> & Hph)|[res ->]]]; [|simpl|done].
  - cbn [seg option_map] in H. apply (inj Some) in H. rewrite upload_start_run in H.
    injection H as <- <-. right; left. eexists; split; [done|].
    destruct (existsSync sp (w_fs w)); simpl; [done|reflexivity].
  - destruct ph as [[|a0 rest]| |key [|a0 rest]|key]; cbn [seg option_map] in H;
      apply (inj Some) in H; simpl in Hph.
    + destruct (ensure_nil_run c o w) as (w1 & E & _). rewrite E in H.
      injection H as <- <-. right; left. by eexists.
    + destruct (mkdir_one_run sp a0 (bool_decide (rest = [])) (Uploading c o (UEnsure rest)) w)
        as (w1 & E & _); [done|apply ancestors_sp_dirs; eapply elem_of_suffix; [by left|done]|].
      cbn [ensure_step] in H. rewrite E in H. injection H as <- <-.
      right; left. eexists; split; [done|]. simpl. by eapply suffix_cons_l.
    + destruct (buffer_run c o w) as (key & w1 & Hk & Hfs & E). rewrite E in H.
      injection H as <- <-. right; left. eexists; split; [done|].
      destruct (existsSync (canon_of a root_segs) (w_fs w)) eqn:Ex; simpl.
      * split; [done|]. rewrite Hfs. by apply exists_dir.
      * split; [done|]. split; [reflexivity|]. intros q Hq1 Hq2. by destruct Hq2.
    + cbn [mkdir_step] in H. injection H as <- <-. right; left.
      eexists; split; [done|]. destruct Hph as (Hk & _ & Hall).
      split; [done|]. apply dir_ready_of_ancestors. intros q Hq. apply Hall; [done|].
      by intros ?%elem_of_nil.
    + destruct Hph as (Hk & Hsuf & Hall).
      destruct (mkdir_one_run (dirname (getFilePath sp key)) a0 (bool_decide (rest = []))
                  (Uploading c o (UMkdir key rest)) w) as (w1 & E & Hdir); [done| |].
      { apply ancestors_root_dirs. eapply elem_of_suffix; [by left|done]. }
      cbn [mkdir_step] in H. rewrite E in H. injection H as <- <-.
      right; left. eexists; split; [done|]. split; [done|]. split; [by eapply suffix_cons_l|].
      intros q Hq Hnot. destruct (decide (q = a0)) as [->|Hne]; [done|].
      eapply is_dir_evolves; [exact Hev|]. apply Hall; [done|].
      intros [->|?]%elem_of_cons; [done|by apply Hnot].
    + destruct Hph as [Hk Hr]. destruct (write_run c o key w Hd Hk Hr) as (res & w1 & E).
      rewrite E in H. injection H as <- <-. right; right. by eexists.
Qed.

(** The empty disk has the right shape. *)
Lemma disk_ok_empty fs : fs_nodes fs = ∅ -> fs_faults fs = ∅ -> disk_ok fs.
Proof.
  pose proof root_segs_ok as HR.
  intros Hn Hf. split.
  - intros q _. by rewrite Hf.
  - intros q d m (i & Hi & ->). unfold entry.
    rewrite canon_of_not_root, Hn; [done| |by apply Forall_take].
    destruct root_segs; simpl in *; [lia|]. destruct i; [lia|done].
  - intros q m (n & Hn' & ->). unfold entry.
    rewrite canon_of_not_root, Hn; [done| |by apply Forall_app; auto].
    by intros [_ ?]%app_eq_nil.
Qed.

Lemma cinv_init xs w : disk_ok (w_fs w) -> cinv xs (Pending <$> xs, w).
Proof.
  intros Hd. split; [done|]. simpl. apply Forall2_fmap_r, Forall_Forall2_diag, Forall_true.
  intros []; by left.
Qed.

Lemma cstep_inv xs c c' : cinv xs c -> cstep P e c c' -> cinv xs c'.
Proof.
  intros H Hs. revert H. destruct Hs as [ts w i t t' w' Hi Ht]. intros [Hd Hf]. simpl in *.
  destruct (Forall2_lookup_r _ _ _ _ _ Hf Hi) as (x & Hx & Hinv).
  pose proof (tstep_evolves P e _ _ _ _ Ht) as Hev.
  destruct (step_places _ _ _ Hinv) as [HD HF].
  assert (Hev' : evolves dir_path file_path (w_fs w) (w_fs w')) by (eapply evolves_mono; eauto).
  split; [by eapply disk_ok_evolves|]. simpl.
  rewrite <- (list_insert_id xs i x Hx). apply Forall2_insert.
  - eapply Forall2_impl; [exact Hf|]. intros. by eapply thread_inv_evolves.
  - by eapply tstep_inv.
Qed.

Lemma rtc_cinv xs c c' : cinv xs c -> rtc (cstep P e) c c' -> cinv xs c'.
Proof. intros H Hr. induction Hr; eauto using cstep_inv. Qed.

(** C7. Whatever calls run beside them (uploads, deletes of any key,
    reads) and however they interleave, no upload fails: an upload that
    has settled has settled with its result. *)
Theorem uploads_never_fail xs w0 ts w i c o r :
  disk_ok (w_fs w0) -> rtc (cstep P e) (Pending <$> xs, w0) (ts, w) ->
  xs !! i = Some (OUpload c o) -> ts !! i = Some (Finished r) ->
  exists res, r = Ok (RUpload res).
Proof.
  intros Hd Hr Hx Ht. destruct (rtc_cinv xs _ _ (cinv_init xs w0 Hd) Hr) as [_ Hf].
  pose proof (Forall2_lookup_lr _ _ _ _ _ _ Hf Hx Ht) as Hinv. simpl in Hinv.
  destruct Hinv as [?|[(ph & ? & _)|[res ?]]]; simplify_eq. by exists res.
Qed.

(** C6. Every upload completes: in every interleaving that can go no
    further, each upload has settled with its result, whatever the calls beside
    it. *)
Theorem uploads_succeed xs w0 ts w i c o :
  disk_ok (w_fs w0) -> rtc (cstep P e) (Pending <$> xs, w0) (ts, w) ->
  (forall c', ~ cstep P e (ts, w) c') -> xs !! i = Some (OUpload c o) ->
  exists res, ts !! i = Some (Finished (Ok (RUpload res))).
Proof.
  intros Hd Hr Hstuck Hx. destruct (rtc_cinv xs _ _ (cinv_init xs w0 Hd) Hr) as [_ Hf].
  destruct (Forall2_lookup_l _ _ _ _ _ Hf Hx) as (t & Ht & Hinv).
  pose proof (no_step_finished P e ts w Hstuck) as Hfin.
  destruct (Forall_lookup_1 _ _ _ _ Hfin Ht) as [r ->].
  simpl in Hinv. destruct Hinv as [?|[(ph & ? & _)|[res ?]]]; simplify_eq. by exists res.
Qed.

End Lemmas.
End Places.

(** ** Concrete runs *)

(** Two uploads, a delete of the first key and a read of it, on the empty
    disk; the uploads interleave segment by segment, the second one
    finding the storage directory made by the first. *)
Definition race_calls : list op :=
  [OUpload (BufferContent hello) notes_options; ODelete "07-notes.txt";
   OUpload (BufferContent hello) notes_options; ODownload "07-notes.txt"].

Definition race_sched : list nat := [0; 2; 0; 2; 0; 2; 1; 0; 2; 0; 2; 3; 0; 2; 0; 2].

Definition race_run : list thread * world :=
  run_sched "" ∅ race_sched (Pending <$> race_calls, demo_world).

Lemma uploads_never_fail_witness :
  exists res, fst (run_sched "" ∅ [0; 2; 0; 2; 0; 2; 0; 2; 0]
                     (Pending <$> race_calls, demo_world)) !! 0 = Some (Finished res) /\
              exists r, res = Ok (RUpload r).
Proof.
  eexists. split; [vm_compute; reflexivity|].
  apply (uploads_never_fail "" ∅ (or_introl eq_refl)
           ltac:(apply (bool_decide_unpack _); vm_compute; reflexivity)
           race_calls demo_world
           (fst (run_sched "" ∅ [0; 2; 0; 2; 0; 2; 0; 2; 0] (Pending <$> race_calls, demo_world)))
           (snd (run_sched "" ∅ [0; 2; 0; 2; 0; 2; 0; 2; 0] (Pending <$> race_calls, demo_world)))
           0 (BufferContent hello) notes_options).
  - apply disk_ok_empty; [by left|apply (bool_decide_unpack _); vm_compute; reflexivity
                          |reflexivity|reflexivity].
  - rewrite <- surjective_pairing. apply run_sched_rtc.
  - reflexivity.
  - vm_compute. reflexivity.
Defined.

Lemma uploads_succeed_witness :
  exists res, fst race_run !! 2 = Some (Finished (Ok (RUpload res))).
Proof.
  apply (uploads_succeed "" ∅ (or_introl eq_refl)
           ltac:(apply (bool_decide_unpack _); vm_compute; reflexivity)
           race_calls demo_world (fst race_run) (snd race_run) 2
           (BufferContent hello) notes_options).
  - apply disk_ok_empty; [by left|apply (bool_decide_unpack _); vm_compute; reflexivity
                          |reflexivity|reflexivity].
  - rewrite <- surjective_pairing. apply run_sched_rtc.
  - apply settled_stuck. vm_compute. reflexivity.
  - reflexivity.
Defined.

End Races.
