(* ===== verification/Persistence.v ===== *)
(** * Persistence: an uploaded file stays while other calls run

    [Traces.local_stored_until_deleted] says that, call after call, a
    stored key keeps its bytes until it is deleted.  Here the calls
    interleave at their [await]s ([Concurrency]).  A step changes at most
    one existing entry of the disk ([step_place]): the file its upload
    writes, or the file its delete removes; a [mkdir] only fills an empty
    place.  The keys the uploads draw are pairwise distinct, because each
    draw takes the next UUID ([keys_inv]).  So once an upload has
    resolved with key [k], every later configuration serves its bytes for
    [k], unless one of the calls is a delete of [k]
    ([uploads_persist]).  This holds from any disk, with any faults.

    Along the way every configuration is well typed ([thread_of]): each
    thread runs its own call, and a resolved call's answer has the type of
    its operation in the interface. *)

From S2P Require Import Prelude NodePath NodeFs StorageUtils FileStorageInterface LocalFileStorage LocalRefinement Traces Concurrency Races.

Local Open Scope string_scope.
Local Open Scope async_scope.

Module Persistence.
Import NodePath NodeFs StorageUtils FileStorageInterface LocalFileStorage LocalRefinement Traces Concurrency Races.

Lemma keeps_mkdir_one x p a l : preserves (keeps_entries x) (fs_call (mkdir_one p a l)).
Proof. apply keeps_fs_call. intros. by eapply mkdir_one_extends. Qed.

Lemma keeps_unlink p : preserves (keeps_entries (canon p)) (fs_call (unlink p)).
Proof. apply keeps_fs_call. intros. by eapply unlink_extends. Qed.

Lemma keeps_readFile x p : preserves (keeps_entries x) (fs_call (readFile p)).
Proof. apply keeps_fs_call. intros ??? ->%readFile_same. apply fs_extends_refl. Qed.

Lemma keeps_stat x p : preserves (keeps_entries x) (fs_call (stat p)).
Proof. apply keeps_fs_call. intros ??? ->%stat_same. apply fs_extends_refl. Qed.

Lemma keeps_access x p : preserves (keeps_entries x) (fs_call (access p)).
Proof. apply keeps_fs_call. intros ??? ->%access_same. apply fs_extends_refl. Qed.

#[export] Hint Resolve keeps_mkdir_one keeps_readFile keeps_stat keeps_access : storage.

Section Steps.
Context `{KP : KeyPrimitives} (P : string) (e : env).

Local Abbreviation sp := (getStoragePath e).

(** The existing entry a step may change: the file its upload writes, or
    the file its delete removes. *)
Definition step_place (t : thread) : option string :=
  match t with
  | Uploading _ _ (UWrite key) => Some (canon (getFilePath sp key))
  | Pending (ODelete k) => Some (canon (getFilePath sp k))
  | _ => None
  end.

(** The key a call in flight has drawn: an upload past [buildKey], or
    the key of a resolved upload. *)
Definition drawn (t : thread) : option string :=
  match t with
  | Uploading _ _ (UMkdir key _) | Uploading _ _ (UWrite key) => Some key
  | Finished (Ok (RUpload r)) => Some (res_key r)
  | _ => None
  end.

(** The answer has the type the interface promises for the call:
    [Promise<UploadResult>], [Promise<Buffer>], [Promise<void>],
    [Promise<boolean>], [Promise<FileMetadata | null>]. *)
Definition reply_fits (x : op) (a : reply) : bool :=
  match x, a with
  | OUpload _ _, RUpload _ | ODownload _, RBytes _ | ODelete _, RUnit
  | OExists _, RBool _ | OGetMetadata _, RMeta _ => true
  | _, _ => false
  end.

(** The call a thread runs, and, once it has resolved, an answer of the
    type of that call. *)
Definition thread_of (x : op) (t : thread) : Prop :=
  match t with
  | Pending y => y = x
  | Uploading c o _ => x = OUpload c o
  | Finished (Ok a) => reply_fits x a = true
  | Finished (Err _) => True
  end.

(** A step keeps every existing entry but the one at its place. *)
Lemma tstep_keeps t w t' w' x :
  tstep P e t w = Some (t', w') -> (forall y, step_place t = Some y -> y = x) ->
  keeps_entries x w w'.
Proof.
  unfold tstep. destruct (seg P e t) as [m|] eqn:Hs; [|done]. intros [= H] Hx.
  eapply settle_preserves; [|exact H].
  destruct t as [[c o|k|k|k|k]|c o [[|a rest]| |key [|a rest]|key]|r];
    cbn [seg] in Hs; try discriminate; injection Hs as <-; simpl in Hx;
    try (specialize (Hx _ eq_refl); subst x);
    unfold upload_start, ensure_step, buffer_step, mkdir_step, upload_finish;
    cbn [run_op createLocalFileStorage upload download FileStorageInterface.delete
         exists_ getMetadata];
    unfold download_impl, delete_impl, exists_impl, getMetadata_impl;
    eauto 20 using keeps_unlink with storage typeclass_instances.
Qed.

(** Any backend answers a call with a reply of the call's type. *)
Lemma run_op_fits {W} (st : FileStorage W) x w a w' :
  run_op st x w = (Ok a, w') -> reply_fits x a = true.
Proof.
  destruct x; cbn [run_op]; unfold bind; repeat case_match; cbv [ret]; intros; by simplify_eq.
Qed.

(** A step runs the call of its thread, or settles it with an answer of
    the call's type. *)
Lemma tstep_thread_of x t w t' w' :
  tstep P e t w = Some (t', w') -> thread_of x t -> thread_of x t'.
Proof.
  unfold tstep. destruct t as [[c o|k|k|k|k]|c o [[|a rest]| |key [|a rest]|key]|r];
    cbn [seg option_map]; intros H Hx; try discriminate; apply (inj Some) in H;
    simpl in Hx; subst.
  all: first
    [ rewrite settle_bind in H;
      match type of H with context [run_op ?s ?y ?w] =>
        destruct (run_op s y w) as [[a|err] w1] eqn:E end;
      rewrite ?settle_ret in H; simplify_eq; [by eapply run_op_fits|done]
    | unfold upload_start, ensure_step, buffer_step, mkdir_step in H;
      settle_run H; simpl; done ].
Qed.

Lemma cstep_thread_of xs cfg cfg' :
  cstep P e cfg cfg' -> Forall2 thread_of xs cfg.1 -> Forall2 thread_of xs cfg'.1.
Proof.
  intros [ts w s t t' w' Hs Ht] Hth; simpl in *.
  destruct (Forall2_lookup_r _ _ _ _ _ Hth Hs) as (x & Hx & Htx).
  rewrite <- (list_insert_id xs s x Hx). apply Forall2_insert; [done|].
  by eapply tstep_thread_of.
Qed.

Lemma thread_of_init xs : Forall2 thread_of xs (Pending <$> xs).
Proof. apply Forall2_fmap_r, Forall_Forall2_diag, Forall_forall. done. Qed.

Section Draws.
Context (HP : prefix_ok P).

(** The write of an upload that resolved left its bytes at its file. *)
Lemma upload_finish_run c o key w r w' :
  upload_finish e c o key w = (Ok r, w') ->
  res_key r = key /\ fs_faults (w_fs w') !! canon (getFilePath sp key) = None /\
  exists m, entry (w_fs w') (canon (getFilePath sp key)) = Some (NFile (toBuffer c) m).
Proof.
  unfold upload_finish. intros H. peel H.
  apply fs_call_Ok_inv in H0 as (Hw & _ & _).
  repeat match goal with u : unit |- _ => destruct u end.
  apply writeFile_Ok_inv in Hw as (Hf & Hr & Hfs).
  cbv [bind ret new_date log_info modify] in H; simplify_eq/=.
  split; [done|]. rewrite Hfs. split; [done|].
  eexists. rewrite entry_insert by done. by rewrite decide_True.
Qed.

(** Only an upload answers with an upload result. *)
Lemma run_op_not_upload x w a w' :
  run_op (createLocalFileStorage P e) x w = (Ok a, w') ->
  (forall c o, x <> OUpload c o) -> drawn (Finished (Ok a)) = None.
Proof.
  intros H%run_op_fits Hx. destruct x as [c o|k|k|k|k]; [by destruct (Hx c o)|..];
    by destruct a.
Qed.

(** What a step does to the UUID counter and to the key its thread has
    drawn: nothing, or one draw of the next UUID. *)
Lemma tstep_draw t w t' w' :
  tstep P e t w = Some (t', w') ->
  (w_uuid w' = w_uuid w /\ (drawn t' = None \/ drawn t' = drawn t)) \/
  (drawn t = None /\ w_uuid w' = S (w_uuid w) /\
   forall k, drawn t' = Some k ->
   exists s, k = key_template P (uuid_tape (w_uuid w)) (sanitizeFilename s)).
Proof.
  intros H. pose proof H as H0. unfold tstep in H.
  destruct t as [[c o|k|k|k|k]|c o [[|a rest]| |key [|a rest]|key]|r];
    cbn [seg option_map] in H; try discriminate; apply (inj Some) in H.
  8: { right. unfold buffer_step in H. rewrite settle_bind in H. cbn [ret] in H.
       rewrite settle_bind, buildKey_spec_run in H by done.
       cbn [exists_sync settle bind ret] in H. injection H as <- <-. simpl.
       split; [done|]. split; [done|]. intros k Hk.
       destruct (existsSync _ _); injection Hk as <-; eauto. }
  all: left; split;
    [eapply (settle_preserves same_uuid); [|exact H];
     unfold upload_start, ensure_step, mkdir_step, upload_finish;
     cbn [run_op createLocalFileStorage upload download FileStorageInterface.delete
          exists_ getMetadata];
     unfold download_impl, delete_impl, exists_impl, getMetadata_impl;
     eauto 20 with storage typeclass_instances|].
  2-5: rewrite settle_bind in H;
    match type of H with context [run_op ?s ?x ?w] =>
      destruct (run_op s x w) as [[a|err] w1] eqn:E end;
    rewrite ?settle_ret in H; injection H as <- _; left; [|done].
  2-5: by eapply run_op_not_upload.
  all: unfold upload_start, ensure_step, mkdir_step in H.
  6: { rewrite settle_bind in H.
        destruct (upload_finish e c o key w) as [[r|err] w1] eqn:E;
          rewrite ?settle_ret in H; injection H as <- _; [|by left].
        right. simpl. by destruct (upload_finish_run _ _ _ _ _ _ E) as [-> _]. }
  all: settle_run H; try (left; done); try (right; done);
    repeat match goal with |- context [if ?b then _ else _] => destruct b end; by left.
Qed.

(** The bytes [d] are at the file of [k], with no fault in the way. *)
Definition stored (fs : fsys) (k : string) (d : list Byte.byte) : Prop :=
  fs_faults fs !! canon (getFilePath sp k) = None /\
  exists m, entry fs (canon (getFilePath sp k)) = Some (NFile d m).

(** Only the write of an upload settles it with a result, and the bytes
    it wrote are then at the file of its key. *)
Lemma tstep_finished t w r w' :
  tstep P e t w = Some (Finished (Ok (RUpload r)), w') ->
  exists c o, t = Uploading c o (UWrite (res_key r)) /\
              stored (w_fs w') (res_key r) (toBuffer c).
Proof.
  unfold tstep. destruct t as [[c o|k|k|k|k]|c o [[|a rest]| |key [|a rest]|key]|r0];
    cbn [seg option_map]; intros H; try discriminate; apply (inj Some) in H.
  all: first
    [ solve [unfold upload_start, ensure_step, buffer_step, mkdir_step in H; settle_run H]
    | rewrite settle_bind in H;
      match type of H with context [match ?m ?w with _ => _ end] =>
        destruct (m w) as [[a|err] w1] eqn:E end;
      rewrite ?settle_ret in H; simplify_eq ].
  all: first
    [ exfalso; eapply run_op_not_upload in E; [by simpl in E|congruence]
    | apply upload_finish_run in E as (<- & ?); eauto ].
Qed.

(** The keys the calls in flight have drawn: each is the key built from
    a UUID already drawn, and no two calls hold the same one. *)
Definition keys_inv (ts : list thread) (w : world) : Prop :=
  (forall i t k, ts !! i = Some t -> drawn t = Some k ->
     exists n s, n < w_uuid w /\ k = key_template P (uuid_tape n) (sanitizeFilename s)) /\
  (forall i j ti tj k, ts !! i = Some ti -> ts !! j = Some tj ->
     drawn ti = Some k -> drawn tj = Some k -> i = j).

(** Every upload that resolved, and that no call deletes, has its bytes
    on disk. *)
Definition stored_inv (xs : list op) (ts : list thread) (w : world) : Prop :=
  forall i c o r, xs !! i = Some (OUpload c o) -> ts !! i = Some (Finished (Ok (RUpload r))) ->
    (forall k, ODelete k ∈ xs -> k <> res_key r) -> stored (w_fs w) (res_key r) (toBuffer c).

Definition pinv (xs : list op) (cfg : list thread * world) : Prop :=
  Forall2 thread_of xs cfg.1 /\ keys_inv cfg.1 cfg.2 /\ stored_inv xs cfg.1 cfg.2.

Lemma drawn_insert_old (ts : list thread) (s : nat) t t' i ti k :
  ts !! s = Some t -> (drawn t' = None \/ drawn t' = drawn t) ->
  <[s:=t']> ts !! i = Some ti -> drawn ti = Some k ->
  exists ti0, ts !! i = Some ti0 /\ drawn ti0 = Some k.
Proof.
  intros Hs Hd [(<- & <- & _)|(_ & Hi)]%list_lookup_insert_Some Hk; [|eauto].
  exists t. split; [done|]. destruct Hd as [Hd|Hd]; congruence.
Qed.

Lemma drawn_key_ok (ts : list thread) w i t k :
  keys_inv ts w -> ts !! i = Some t -> drawn t = Some k -> key_ok k.
Proof. intros [K _] Hi Hk. destruct (K _ _ _ Hi Hk) as (n & s & _ & ->). by apply template_key_ok. Qed.

Lemma keys_inv_step (ts : list thread) w (s : nat) t t' w' :
  ts !! s = Some t -> tstep P e t w = Some (t', w') ->
  keys_inv ts w -> keys_inv (<[s:=t']> ts) w'.
Proof.
  intros Hs Ht [K1 K2].
  destruct (tstep_draw _ _ _ _ Ht) as [[Hu Hd]|(Hd & Hu & Hk)]; split; rewrite ?Hu.
  - intros i ti k Hi Hki. destruct (drawn_insert_old _ _ _ _ _ _ _ Hs Hd Hi Hki) as (? & ? & ?).
    eauto.
  - intros i j ti tj k Hi Hj Hki Hkj.
    destruct (drawn_insert_old _ _ _ _ _ _ _ Hs Hd Hi Hki) as (? & ? & ?).
    destruct (drawn_insert_old _ _ _ _ _ _ _ Hs Hd Hj Hkj) as (? & ? & ?). eauto.
  - intros i ti k [(<- & <- & _)|(_ & Hi)]%list_lookup_insert_Some Hki.
    + destruct (Hk _ Hki) as [s' ->]. exists (w_uuid w), s'. split; [lia|done].
    + destruct (K1 _ _ _ Hi Hki) as (n & s' & ? & ->). exists n, s'. split; [lia|done].
  - assert (Hold : forall j tj k, j <> s -> ts !! j = Some tj -> drawn tj = Some k ->
              drawn t' = Some k -> False).
    { intros j tj k ? Hj Hkj Hk'. destruct (Hk _ Hk') as [s1 ->].
      destruct (K1 _ _ _ Hj Hkj) as (n & s2 & ? & Hn%key_template_uuid_inj). lia. }
    intros i j ti tj k [(<- & <- & _)|(Hi' & Hi)]%list_lookup_insert_Some
      [(<- & <- & _)|(Hj' & Hj)]%list_lookup_insert_Some Hki Hkj; eauto.
    + by destruct (Hold j tj k (not_eq_sym Hj') Hj Hkj Hki).
    + by destruct (Hold i ti k (not_eq_sym Hi') Hi Hki Hkj).
Qed.

(** What a step may change of a stored file: the place it writes or
    removes is the file of a well-formed key the stored upload does not
    hold. *)
Lemma step_place_key xs ts w s t i r :
  Forall op_ok xs -> Forall2 thread_of xs ts -> keys_inv ts w ->
  ts !! s = Some t -> ts !! i = Some (Finished (Ok (RUpload r))) -> s <> i ->
  (forall k, ODelete k ∈ xs -> k <> res_key r) ->
  forall y, step_place t = Some y ->
  exists k, key_ok k /\ k <> res_key r /\ y = canon (getFilePath sp k).
Proof.
  intros Hok Hth K Hs Hi Hne Hdel.
  destruct (Forall2_lookup_r _ _ _ _ _ Hth Hs) as (x & Hx & Htx).
  destruct t as [[c0 o0|k|k|k|k]|c0 o0 [ancs| |key ancs|key]|r0];
    simpl; intros y [= <-]; simpl in Htx; subst; eexists; (split; [|split; [|done]]).
  - exact (Forall_lookup_1 _ _ _ _ Hok Hx).
  - apply (Hdel k). exact (list_elem_of_lookup_2 _ _ _ Hx).
  - eapply drawn_key_ok; [exact K|exact Hs|reflexivity].
  - intros ->. apply Hne. eapply (proj2 K); [exact Hs|exact Hi|reflexivity..].
Qed.

Lemma stored_inv_step xs ts w s t t' w' :
  Forall op_ok xs -> Forall2 thread_of xs ts -> keys_inv ts w ->
  ts !! s = Some t -> tstep P e t w = Some (t', w') ->
  stored_inv xs ts w -> stored_inv xs (<[s:=t']> ts) w'.
Proof.
  intros Hok Hth K Hs Ht Hst i c o r Hx Hi Hdel.
  apply list_lookup_insert_Some in Hi as [(<- & -> & _)|(Hne & Hi)].
  { destruct (tstep_finished _ _ _ _ Ht) as (c' & o' & -> & Hr).
    pose proof (Forall2_lookup_lr _ _ _ _ _ _ Hth Hx Hs) as Hc. simpl in Hc. by simplify_eq. }
  set (q := canon (getFilePath sp (res_key r))).
  set (x := match step_place t with Some y => y | None => String "/" q end).
  assert (Hkeep : keeps_entries x w w').
  { eapply tstep_keeps; [exact Ht|]. intros y Hy. unfold x. by rewrite Hy. }
  assert (Hxq : x <> q).
  { unfold x. destruct (step_place t) as [y|] eqn:Hy.
    - destruct (step_place_key _ _ _ _ _ _ _ Hok Hth K Hs Hi Hne Hdel _ Hy)
        as (k & Hk & Hkr & ->).
      intros Hc. apply Hkr. eapply key_path_inj; eauto using getStoragePath_nonempty.
      eapply drawn_key_ok; [exact K|exact Hi|reflexivity].
    - intros Hc. apply (f_equal String.length) in Hc. simpl in Hc. lia. }
  destruct (Hst i c o r Hx Hi Hdel) as [Hf [m Hm]].
  destruct Hkeep as (HF & _ & HE & _).
  split; [by rewrite HF|]. exists m. by apply HE.
Qed.

Lemma pinv_init xs w0 : pinv xs (Pending <$> xs, w0).
Proof.
  split; [|split; [split|]]; simpl.
  - apply thread_of_init.
  - by intros i t k (x & -> & _)%list_lookup_fmap_Some.
  - by intros i j ti tj k (x & -> & _)%list_lookup_fmap_Some.
  - by intros i c o r _ (x & ? & _)%list_lookup_fmap_Some.
Qed.

Lemma cstep_pinv xs cfg cfg' :
  Forall op_ok xs -> cstep P e cfg cfg' -> pinv xs cfg -> pinv xs cfg'.
Proof.
  intros Hok Hc (Hth & K & Hst). split_and!; [by eapply cstep_thread_of|..];
    destruct Hc as [ts w s t t' w' Hs Ht]; simpl in *.
  - by eapply keys_inv_step.
  - by eapply stored_inv_step.
Qed.

Lemma rtc_pinv xs cfg cfg' :
  Forall op_ok xs -> rtc (cstep P e) cfg cfg' -> pinv xs cfg -> pinv xs cfg'.
Proof. intros Hok H. induction H; eauto using cstep_pinv. Qed.

(** C8. Uploads persist under any interleaving: whatever the disk and
    its faults, once the [i]-th call, an [upload] of [c], has resolved
    with key [k], every later configuration serves the bytes of [c] for
    [k], unless one of the calls is a [delete] of [k]. *)
Theorem uploads_persist xs w0 ts w i c o r :
  Forall op_ok xs -> rtc (cstep P e) (Pending <$> xs, w0) (ts, w) ->
  xs !! i = Some (OUpload c o) -> ts !! i = Some (Finished (Ok (RUpload r))) ->
  (forall k, ODelete k ∈ xs -> k <> res_key r) ->
  download_impl sp (res_key r) w = (Ok (toBuffer c), w).
Proof.
  intros Hok Hrun Hx Hi Hdel.
  destruct (rtc_pinv _ _ _ Hok Hrun (pinv_init xs w0)) as (_ & _ & Hst).
  destruct (Hst i c o r Hx Hi Hdel) as [Hf [m Hm]]. by eapply download_file.
Qed.

End Draws.

End Steps.

(** In the race of [Races.race_run], the first upload draws
    [07-notes.txt], which the delete removes, and the second draws
    [08-notes.txt], which no call deletes: its bytes are served at the end. *)
Lemma uploads_persist_witness :
  download_impl (getStoragePath ∅) "08-notes.txt" (snd race_run) =
  (Ok (toBuffer (BufferContent hello)), snd race_run).
Proof.
  apply (uploads_persist "" ∅ (or_introl eq_refl) race_calls demo_world
           (fst race_run) (snd race_run) 2 (BufferContent hello) notes_options
           {| res_key := "08-notes.txt";
              res_sourceUrl := "/api/storage/files/08-notes.txt";
              res_metadata := {| md_key := "08-notes.txt"; md_filename := "08-notes.txt";
                                 md_contentType := "application/octet-stream";
                                 md_size := 5; md_uploadedAt := 100 |} |}).
  - apply (bool_decide_unpack _). vm_compute. reflexivity.
  - rewrite <- surjective_pairing. apply run_sched_rtc.
  - reflexivity.
  - vm_compute. reflexivity.
  - intros k Hk. cbv [race_calls] in Hk.
    repeat (apply elem_of_cons in Hk as [Hk|Hk]; [try discriminate|]).
    + injection Hk as ->. discriminate.
    + by apply elem_of_nil in Hk.
Defined.

End Persistence.
