(* ===== verification/RouteRaces.v ===== *)
(** * RouteRaces: requests to [GET] interleaved with the calls

    [GET] awaits [Promise.all([getMetadata(key), download(key)])]: the
    [fs.stat] of the first and the [fs.readFile] of the second are two
    system calls in flight at once, and each completes on its own, with
    any call of [Concurrency] running before, between or after them.  A
    request is a [request] thread: not started ([RStart]), waiting for the
    reads with those that have resolved ([RWait]), or answered ([RDone]).
    [req_seg] is the code a request runs at each of these points, written
    from [route.ts] and composed from [FilesRoute.respond] and
    [FilesRoute.serve_error]; the choice [meta] says which read completes.
    A rejection of either read rejects [Promise.all] at once and the
    handler's [catch] answers; the other read still completes, but only
    reads the disk, so it is not a step.

    The theorems show that a request run alone answers what
    [FilesRoute.GET] answers for the same completion order
    ([req_run_equiv]), and that under any interleaving a request for the
    key of an upload that resolved before the request started is answered
    200 with the uploaded bytes and a [Content-Length] equal to their
    number, unless a call deletes the key ([get_serves_upload]). *)

From S2P Require Import Prelude NodePath NodeFs StorageUtils FileStorageInterface LocalFileStorage LocalRefinement Traces FilesRoute Concurrency Races Persistence.

Local Open Scope string_scope.
Local Open Scope async_scope.

Module RouteRaces.
Import NodePath NodeFs StorageUtils FileStorageInterface LocalFileStorage LocalRefinement Traces FilesRoute Concurrency Races Persistence.

Inductive request :=
| RStart (path : list string)
| RWait (key : string) (metadata : option (option FileMetadata))
        (buffer : option (list Byte.byte))
| RDone (resp : response).

Section Requests.
Context (storageDriver : string) (serverFileStorage : FileStorage world).

(** Lines 16-39 up to the [await]: the driver test, the key, and both
    reads started. *)
Definition req_start (path : list string) : M request :=
  if negb (bool_decide (storageDriver = "local")) then
    ret (RDone (JsonResponse 404 "This endpoint is only available for local storage"))
  else
    let key := join_on "/" path in
    if decide (key = "") then ret (RDone (JsonResponse 400 "File path is required"))
    else ret (RWait key None None).

(** [Promise.all] resolves when both reads have; lines 41-55 answer. *)
Definition req_join (key : string) (metadata : option (option FileMetadata))
    (buffer : option (list Byte.byte)) : M request :=
  match metadata, buffer with
  | Some md, Some buf => let! resp := respond (md, buf) in ret (RDone resp)
  | _, _ => ret (RWait key metadata buffer)
  end.

(** A rejection goes to the [catch] of lines 56-66. *)
Definition req_catch (m : M request) : M request :=
  catch m (fun error => let! resp := serve_error error in ret (RDone resp)).

(** The code a request runs when the read [meta] (the [fs.stat] of
    [getMetadata] if [true], the [fs.readFile] of [download] if [false])
    completes, or at its start. *)
Definition req_seg (meta : bool) (q : request) : option (M request) :=
  match q with
  | RStart path => Some (req_start path)
  | RWait key metadata buffer =>
      if meta then
        match metadata with
        | None => Some (req_catch (let! md := getMetadata serverFileStorage key in
                                   req_join key (Some md) buffer))
        | Some _ => None
        end
      else
        match buffer with
        | None => Some (req_catch (let! buf := download serverFileStorage key in
                                   req_join key metadata (Some buf)))
        | Some _ => None
        end
  | RDone _ => None
  end.

(** The [catch] answers every rejection, so a segment always resolves. *)
Definition req_step (meta : bool) (q : request) (w : world) : option (request * world) :=
  match req_seg meta q with
  | Some m => match m w with (Ok q', w') => Some (q', w') | (Err _, _) => None end
  | None => None
  end.

(** A request run alone, completing its reads in the order [cs]. *)
Fixpoint run_req (cs : list bool) (q : request) (w : world) : request * world :=
  match cs with
  | [] => (q, w)
  | c :: cs' =>
      match req_step c q w with
      | Some (q', w') => run_req cs' q' w'
      | None => run_req cs' q w
      end
  end.

End Requests.

(** ** The reads of the local backend change nothing *)

Lemma fs_call_read {A} (m : FS A) :
  (forall fs r fs', m fs = (r, fs') -> fs' = fs) -> preserves eq (fs_call m).
Proof.
  intros Hm w r w'. unfold fs_call.
  destruct (m (w_fs w)) as [[a|err] fs'] eqn:E; intros [= _ <-];
    rewrite (Hm _ _ _ E); by destruct w.
Qed.

Lemma read_readFile p : preserves eq (fs_call (readFile p)).
Proof. apply fs_call_read. apply readFile_same. Qed.

Lemma read_stat p : preserves eq (fs_call (stat p)).
Proof. apply fs_call_read. apply stat_same. Qed.

#[export] Hint Resolve read_readFile read_stat : storage.

Lemma download_read sp key : preserves eq (download_impl sp key).
Proof. unfold download_impl. eauto 10 with storage typeclass_instances. Qed.

Lemma getMetadata_read sp key : preserves eq (getMetadata_impl sp key).
Proof. unfold getMetadata_impl. eauto 10 with storage typeclass_instances. Qed.

Section Local.
Context `{KP : KeyPrimitives} (P : string) (e : env) (drv : string).

Local Abbreviation st := (createLocalFileStorage P e).
Local Abbreviation sp := (getStoragePath e).

(** C12. A request run alone, its start and then its two reads
    completing in the order [mf], is answered exactly what [GET] answers
    with that order of completion, with the same world; in particular
    [GET] never rejects. *)
Theorem req_run_equiv path mf w :
  exists resp w', GET drv st path mf w = (Ok resp, w') /\
    run_req drv st [mf; mf; negb mf] (RStart path) w = (RDone resp, w').
Proof.
  unfold GET. cbn [run_req req_step req_seg]. unfold req_start.
  destruct (bool_decide (drv = "local")); cbn [negb]; [|by eexists _, _].
  destruct (decide (join_on "/" path = "")); [by eexists _, _|].
  set (key := join_on "/" path).
  destruct (getMetadata_impl sp key w) as [r1 w1] eqn:E1.
  pose proof (getMetadata_read _ _ _ _ _ E1); subst w1.
  destruct (download_impl sp key w) as [r2 w2] eqn:E2.
  pose proof (download_read _ _ _ _ _ E2); subst w2.
  destruct mf, r1 as [[md|]|err1], r2 as [buf|err2];
    cbv [run_req req_step req_seg req_join req_catch ret bind catch promise_all2 respond
         getMetadata download createLocalFileStorage negb];
    rewrite ?E1, ?E2; cbv beta iota zeta; rewrite ?E1, ?E2; cbv beta iota zeta;
    try destruct err1; try destruct err2;
    cbv [serve_error log_error modify]; eexists _, _; split; reflexivity.
Qed.

End Local.

(** ** Requests beside the calls *)

(** A request changes the log at most. *)
Definition same_disk : relation world := fun w w' =>
  w_fs w' = w_fs w /\ w_uuid w' = w_uuid w.

#[export] Instance same_disk_preorder : PreOrder same_disk.
Proof. split; [done|]. intros ??? [??] [??]. split; congruence. Qed.

Lemma same_disk_read {A} (m : M A) : preserves eq m -> preserves same_disk m.
Proof. intros Hm w r w' H. by rewrite <- (Hm _ _ _ H). Qed.

Lemma same_disk_log_error msg err : preserves same_disk (log_error msg err).
Proof. by intros w r w' [= _ <-]. Qed.

#[export] Hint Resolve same_disk_log_error : storage.
#[export] Hint Extern 2 (preserves same_disk (download_impl _ _)) =>
  apply same_disk_read, download_read : storage.
#[export] Hint Extern 2 (preserves same_disk (getMetadata_impl _ _)) =>
  apply same_disk_read, getMetadata_read : storage.

Section Machine.
Context `{KP : KeyPrimitives} (P : string) (e : env) (drv : string).

Local Abbreviation st := (createLocalFileStorage P e).
Local Abbreviation sp := (getStoragePath e).

(** One segment of a call in flight, or one completed read of a request. *)
Inductive gstep : list thread * list request * world -> list thread * list request * world -> Prop :=
| GCall ts rs w ts' w' :
    cstep P e (ts, w) (ts', w') -> gstep (ts, rs, w) (ts', rs, w')
| GReq ts rs w j q meta q' w' :
    rs !! j = Some q -> req_step drv st meta q w = Some (q', w') ->
    gstep (ts, rs, w) (ts, <[j:=q']> rs, w').

Lemma req_step_disk meta q w q' w' :
  req_step drv st meta q w = Some (q', w') -> same_disk w w'.
Proof.
  unfold req_step. destruct (req_seg drv st meta q) as [m|] eqn:Hs; [|done].
  assert (Hm : preserves same_disk m).
  { destruct q as [path|key [md|] [buf|]|resp], meta; cbn in Hs; simplify_eq;
      unfold req_start, req_catch, req_join, respond, serve_error;
      cbn [getMetadata download createLocalFileStorage];
      eauto 20 with storage typeclass_instances. }
  destruct (m w) as [[q1|err] w1] eqn:E; intros [= <- <-]. exact (Hm _ _ _ E).
Qed.

Lemma pinv_same_disk xs ts w w' : same_disk w w' -> pinv P e xs (ts, w) -> pinv P e xs (ts, w').
Proof.
  intros [Hf Hu] (Hth & [K1 K2] & Hst). split; [done|split; [split|]]; simpl.
  - rewrite Hu. exact K1.
  - exact K2.
  - intros i c o r Hx Hi Hd. unfold stored. rewrite Hf. exact (Hst i c o r Hx Hi Hd).
Qed.

Lemma cstep_finished ts w ts' w' i a :
  cstep P e (ts, w) (ts', w') -> ts !! i = Some (Finished a) -> ts' !! i = Some (Finished a).
Proof.
  intros Hc Hi. inversion Hc as [ts0 w0 s t t' w1 Hs Ht]; subst.
  destruct (decide (s = i)) as [->|Hne]; [|by rewrite list_lookup_insert_ne].
  rewrite Hi in Hs. injection Hs as <-. done.
Qed.

Lemma rtc_calls rs a b :
  rtc (cstep P e) a b -> rtc gstep (a.1, rs, a.2) (b.1, rs, b.2).
Proof.
  induction 1 as [[ts w]|[ts w] [ts' w'] c Hs _ IH]; [done|].
  eapply rtc_l; [by apply GCall|exact IH].
Qed.

Lemma run_req_rtc ts rs w j q cs :
  rs !! j = Some q ->
  rtc gstep (ts, rs, w) (ts, <[j := (run_req drv st cs q w).1]> rs, (run_req drv st cs q w).2).
Proof.
  revert rs w q. induction cs as [|c cs IH]; intros rs w q Hj; simpl.
  - by rewrite list_insert_id.
  - destruct (req_step drv st c q w) as [[q1 w1]|] eqn:E; [|by apply IH].
    eapply rtc_l; [by eapply GReq|].
    specialize (IH (<[j:=q1]> rs) w1 q1). rewrite list_insert_insert_eq in IH.
    apply IH. apply list_lookup_insert_eq. by eapply lookup_lt_Some.
Qed.

(** Where a request for the key [key] of the bytes [d], asked with the
    segments [path], can be: not started, waiting with reads that found
    the file, or answered 200 with [d]. *)
Definition req_ok (key : string) (d : list Byte.byte) (path : list string) (q : request) : Prop :=
  match q with
  | RStart path' => path' = path
  | RWait k metadata buffer =>
      k = key /\
      (metadata = None \/ exists md, metadata = Some (Some md) /\ md_key md = key /\
                                     md_size md = List.length d) /\
      (buffer = None \/ buffer = Some d)
  | RDone resp =>
      exists md, resp = FileResponse 200 d (file_headers md) /\ md_key md = key /\
                 md_size md = List.length d
  end.

(** A read of a stored file finds it. *)
Lemma req_step_ok key d path meta q w q' w' :
  drv = "local" -> join_on "/" path = key -> key <> "" -> stored e (w_fs w) key d ->
  req_ok key d path q -> req_step drv st meta q w = Some (q', w') -> req_ok key d path q'.
Proof.
  intros Hd Hk Hne [Hf [m Hm]] Hq. unfold req_step.
  destruct q as [path'|key' md buf|resp]; simpl in Hq; [|destruct Hq as (-> & Hmd & Hbuf)|done].
  - subst path'. cbn [req_seg]. unfold req_start.
    rewrite bool_decide_eq_true_2 by done. cbn [negb]. rewrite Hk, decide_False by done.
    intros [= <- <-]. split_and!; [done|by left|by left].
  - pose proof (getMetadata_file_run sp key w d m Hf Hm) as G.
    pose proof (download_file sp key w d m Hf Hm) as D.
    destruct meta; cbn [req_seg].
    + destruct md as [md|]; [done|].
      cbv [req_catch catch bind]; cbn [getMetadata createLocalFileStorage]; rewrite G.
      destruct Hbuf as [->| ->]; cbv [req_join respond bind ret]; intros [= <- <-].
      * split_and!; [done|right; by eexists|by left].
      * by eexists; split_and!.
    + destruct buf as [buf|]; [done|].
      cbv [req_catch catch bind]; cbn [download createLocalFileStorage]; rewrite D.
      destruct Hmd as [->|(md0 & -> & ? & ?)]; cbv [req_join respond bind ret];
        intros [= <- <-].
      * split_and!; [done|by left|by right].
      * by exists md0.
Qed.

Section Prefix.
Context (HP : prefix_ok P).

Lemma gstep_pinv xs ts rs w ts' rs' w' :
  Forall op_ok xs -> gstep (ts, rs, w) (ts', rs', w') ->
  pinv P e xs (ts, w) -> pinv P e xs (ts', w').
Proof.
  intros Hok Hg. inversion Hg; subst.
  - by apply cstep_pinv.
  - apply pinv_same_disk. by eapply req_step_disk.
Qed.

Lemma rtc_gstep_pinv xs a b :
  Forall op_ok xs -> rtc gstep a b ->
  pinv P e xs (a.1.1, a.2) -> pinv P e xs (b.1.1, b.2).
Proof.
  intros Hok. induction 1 as [|[[ts rs] w] [[ts' rs'] w'] c Hs _ IH]; [done|].
  intros Hp. apply IH. by eapply gstep_pinv.
Qed.

Section Serve.
Context (xs : list op) (i j : nat) (c : content) (o : UploadOptions)
  (r : UploadResult) (path : list string).
Hypothesis Hd : drv = "local".
Hypothesis Hok : Forall op_ok xs.
Hypothesis Hx : xs !! i = Some (OUpload c o).
Hypothesis Hdel : forall k, ODelete k ∈ xs -> k <> res_key r.
Hypothesis Hpath : join_on "/" path = res_key r.

(** After the upload [i] has resolved, the request [j] for its key. *)
Definition ginv (cfg : list thread * list request * world) : Prop :=
  let '(ts, rs, w) := cfg in
  pinv P e xs (ts, w) /\ ts !! i = Some (Finished (Ok (RUpload r))) /\
  exists q, rs !! j = Some q /\ req_ok (res_key r) (toBuffer c) path q.

Lemma ginv_step a b : gstep a b -> ginv a -> ginv b.
Proof.
  intros Hg. destruct Hg as [ts rs w ts' w' Hc|ts rs w j' q meta q' w' Hq Hs];
    intros (Hp & Hi & q0 & Hj & Hr).
  - split_and!; [by eapply cstep_pinv|by eapply cstep_finished|eauto].
  - split_and!; [apply (pinv_same_disk _ _ w); [by eapply req_step_disk|done]|done|].
    destruct (decide (j' = j)) as [->|Hne]; [|exists q0; by rewrite list_lookup_insert_ne].
    rewrite Hj in Hq. injection Hq as <-. exists q'.
    split; [apply list_lookup_insert_eq; by eapply lookup_lt_Some|].
    destruct Hp as (_ & K & Hst).
    eapply req_step_ok; [done|done| |exact (Hst i c o r Hx Hi Hdel)|exact Hr|exact Hs].
    apply (drawn_key_ok P HP ts w i (Finished (Ok (RUpload r)))); [exact K|exact Hi|done].
Qed.

Lemma rtc_ginv a b : rtc gstep a b -> ginv a -> ginv b.
Proof. induction 1; eauto using ginv_step. Qed.

End Serve.

(** C9. Under any interleaving of calls on well-formed keys and of
    requests, from any disk and with any faults, a request for the key of
    an upload that had resolved when the request started is answered 200
    with the uploaded bytes, headers from the key's metadata, and a
    [Content-Length] equal to the number of bytes, unless one of the calls
    deletes the key: no interleaving of the [fs.stat] and the
    [fs.readFile] with other calls splits them across a change of the
    file. *)
Theorem get_serves_upload xs rs0 w0 ts rs w ts' rs' w' i c o r j path resp :
  drv = "local" -> Forall op_ok xs ->
  rtc gstep (Pending <$> xs, rs0, w0) (ts, rs, w) ->
  xs !! i = Some (OUpload c o) -> ts !! i = Some (Finished (Ok (RUpload r))) ->
  (forall k, ODelete k ∈ xs -> k <> res_key r) ->
  rs !! j = Some (RStart path) -> join_on "/" path = res_key r ->
  rtc gstep (ts, rs, w) (ts', rs', w') -> rs' !! j = Some (RDone resp) ->
  exists md, resp = FileResponse 200 (toBuffer c) (file_headers md) /\
             md_key md = res_key r /\ md_size md = List.length (toBuffer c).
Proof.
  intros Hd Hok Hrun Hx Hi Hdel Hj Hpath Hrun' Hj'.
  pose proof (rtc_gstep_pinv _ _ _ Hok Hrun (pinv_init P e xs w0)) as Hp.
  destruct (rtc_ginv xs i j c o r path Hd Hok Hx Hdel Hpath _ _ Hrun')
    as (_ & _ & q & Hq & Hr); [simpl; split_and!; [done|done|by exists (RStart path)]|].
  rewrite Hj' in Hq. by injection Hq as <-.
Qed.

End Prefix.

End Machine.

(** In the race of [Races.race_run], a request for [08-notes.txt] made
    after the second upload resolved is served its bytes, its stat
    completing first. *)
Lemma get_serves_upload_witness :
  exists md,
    FileResponse 200 (toBuffer (BufferContent hello))
      (file_headers (metadata_of "08-notes.txt" 5 100)) =
    FileResponse 200 (toBuffer (BufferContent hello)) (file_headers md) /\
    md_key md = "08-notes.txt" /\ md_size md = List.length (toBuffer (BufferContent hello)).
Proof.
  apply (get_serves_upload "" ∅ "local" (or_introl eq_refl) race_calls
           [RStart ["08-notes.txt"]] demo_world (fst race_run) [RStart ["08-notes.txt"]]
           (snd race_run) (fst race_run)
           (<[0 := (run_req "local" (createLocalFileStorage "" ∅) [true; true; false]
                     (RStart ["08-notes.txt"]) (snd race_run)).1]> [RStart ["08-notes.txt"]])
           (run_req "local" (createLocalFileStorage "" ∅) [true; true; false]
              (RStart ["08-notes.txt"]) (snd race_run)).2
           2 (BufferContent hello) notes_options
           {| res_key := "08-notes.txt";
              res_sourceUrl := "/api/storage/files/08-notes.txt";
              res_metadata := {| md_key := "08-notes.txt"; md_filename := "08-notes.txt";
                                 md_contentType := "application/octet-stream";
                                 md_size := 5; md_uploadedAt := 100 |} |}
           0 ["08-notes.txt"]).
  - reflexivity.
  - apply (bool_decide_unpack _). vm_compute. reflexivity.
  - exact (rtc_calls "" ∅ "local" [RStart ["08-notes.txt"]] (Pending <$> race_calls, demo_world)
             race_run (run_sched_rtc _ _ _ _)).
  - reflexivity.
  - vm_compute. reflexivity.
  - intros k Hk. cbv [race_calls] in Hk.
    repeat (apply elem_of_cons in Hk as [Hk|Hk]; [try discriminate|]).
    + injection Hk as ->. discriminate.
    + by apply elem_of_nil in Hk.
  - reflexivity.
  - reflexivity.
  - by apply run_req_rtc.
  - vm_compute. reflexivity.
Defined.

End RouteRaces.
