(* ===== verification/RouteSafety.v ===== *)
(** * RouteSafety: what a request may be served while calls run

    [RouteRaces] interleaves requests with calls.  Here the route is shown
    never to mix files: from a disk with no file, whatever the faults and
    whatever the calls (uploads, deletes of any key, reads), a request
    answered 200 is served the bytes of an upload that has resolved and
    whose file is the file the request names, with headers of metadata for
    the request's key whose size is the number of bytes served
    ([get_serves_only_uploads]).  A delete racing the request's two reads
    turns its answer into a 404 or 500, never into the bytes of one file
    with the headers of another.

    The proof is an invariant of every reachable configuration
    ([sinv]):
    - every file on disk is the file of an upload that resolved, holding
      its bytes ([files_inv]), since an upload writes only the file of the
      key it draws and the keys are pairwise distinct;
    - no directory stands where an upload's file goes ([nodir_inv]), since
      [mkdir] makes only the ancestors of the storage directory and of the
      directory of the keys ([tshape]);
    - what each request has read so far agrees with both ([req_safe]).

    On a disk with no fault at the file asked for, a request for a key
    of the shape uploads draw never gets a 500, whatever calls race it
    ([get_found_or_404]): no directory ever stands at its file, so its
    [fs.stat] always resolves and its [fs.readFile] rejects only with
    ENOENT, which the route answers 404 ([finv]).

    A reachable configuration where nothing can step has every call
    settled and every request answered ([gstuck_all_done]). *)

From S2P Require Import Prelude NodePath NodeFs Canon StorageUtils FileStorageInterface LocalFileStorage LocalRefinement Traces FilesRoute Concurrency Races Persistence RouteRaces.

Local Open Scope string_scope.
Local Open Scope async_scope.

Module RouteSafety.
Import NodePath NodeFs Canon StorageUtils FileStorageInterface LocalFileStorage LocalRefinement Traces FilesRoute Concurrency Races Persistence RouteRaces.

(** ** What a read that resolved has seen *)

Section Reads.
Context (sp K : string) (w : world).
Let q := canon (getFilePath sp K).

Lemma getMetadata_some md w' :
  getMetadata_impl sp K w = (Ok (Some md), w') ->
  md_key md = K /\
  ((exists d m, entry (w_fs w) q = Some (NFile d m) /\ md_size md = List.length d) \/
   is_dir (w_fs w) q).
Proof.
  intros E. destruct (fs_faults (w_fs w) !! q) as [err|] eqn:Hf.
  - destruct (decide (err = ENOENT)) as [->|Hne].
    + by rewrite (getMetadata_enoent sp K w Hf) in E.
    + by rewrite (getMetadata_propagates_run sp K w err Hf Hne) in E.
  - destruct (entry (w_fs w) q) as [[d m|m]|] eqn:He.
    + rewrite (getMetadata_file_run sp K w d m Hf He) in E. injection E as <- _.
      split; [done|]. left. by exists d, m.
    + rewrite (getMetadata_dir sp K w m Hf He) in E. injection E as <- _.
      split; [done|]. right. by exists m.
    + by rewrite (getMetadata_missing_run sp K w Hf He) in E.
Qed.

Lemma download_some d w' :
  download_impl sp K w = (Ok d, w') -> exists m, entry (w_fs w) q = Some (NFile d m).
Proof.
  intros E. destruct (fs_faults (w_fs w) !! q) as [err|] eqn:Hf.
  - destruct (decide (err = ENOENT)) as [->|Hne].
    + by rewrite (download_enoent sp K w Hf) in E.
    + by rewrite (download_propagates_run sp K w err Hf Hne) in E.
  - destruct (entry (w_fs w) q) as [[d' m|m]|] eqn:He.
    + rewrite (download_file sp K w d' m Hf He) in E. injection E as <- _. by exists m.
    + by rewrite (download_dir sp K w m Hf He) in E.
    + by rewrite (download_missing_run sp K w Hf He) in E.
Qed.

(** With no fault and no directory at the file, [getMetadata] never
    rejects, and [download] rejects only with [FileNotFoundError]. *)
Lemma getMetadata_no_fault err w' :
  fs_faults (w_fs w) !! q = None -> ~ is_dir (w_fs w) q ->
  getMetadata_impl sp K w <> (Err err, w').
Proof.
  intros Hf Hd. destruct (entry (w_fs w) q) as [[d m|m]|] eqn:He.
  - by rewrite (getMetadata_file_run sp K w d m Hf He).
  - by destruct Hd; exists m.
  - by rewrite (getMetadata_missing_run sp K w Hf He).
Qed.

Lemma download_no_fault err w' :
  fs_faults (w_fs w) !! q = None -> ~ is_dir (w_fs w) q ->
  download_impl sp K w = (Err err, w') -> exists k fe, err = FileNotFoundError k fe.
Proof.
  intros Hf Hd. destruct (entry (w_fs w) q) as [[d m|m]|] eqn:He.
  - by rewrite (download_file sp K w d m Hf He).
  - by destruct Hd; exists m.
  - rewrite (download_missing_run sp K w Hf He). intros [= <- _]. by eexists _, _.
Qed.

End Reads.

(** The [catch] of the route never answers with a file. *)
Lemma serve_error_not_file err w resp w' body hs :
  serve_error err w = (Ok resp, w') -> resp <> FileResponse 200 body hs.
Proof. destruct err; cbv; intros; by simplify_eq. Qed.

Section Shapes.
Context `{KP : KeyPrimitives} (P : string) (e : env).

Local Abbreviation sp := (getStoragePath e).

(** The places a thread will still make or write, and the key of a
    resolved upload: ancestors of the storage directory or of the
    directory of the keys, and keys of the shape [buildKey] draws. *)
Definition tshape (t : thread) : Prop :=
  match t with
  | Uploading _ _ (UEnsure ancs) => Forall (dir_path P e) ancs
  | Uploading _ _ (UMkdir key ancs) => key_shape P e key /\ Forall (dir_path P e) ancs
  | Uploading _ _ (UWrite key) => key_shape P e key
  | Finished (Ok (RUpload r)) => key_shape P e (res_key r)
  | _ => True
  end.

(** The write of an upload either resolves it, its bytes at its file, or
    leaves the disk as it was. *)
Lemma upload_finish_Err c o key w err w' :
  upload_finish e c o key w = (Err err, w') -> w_fs w' = w_fs w.
Proof.
  unfold upload_finish, bind, fs_call.
  destruct (writeFile (getFilePath sp key) (toBuffer c) (w_fs w)) as [[u|fe] fs'] eqn:W;
    cbv [new_date log_info modify ret]; intros H; simplify_eq/=.
  by apply writeFile_Err_same in W.
Qed.


Lemma write_step c o key w t' w' :
  tstep P e (Uploading c o (UWrite key)) w = Some (t', w') ->
  (exists r, t' = Finished (Ok (RUpload r)) /\ res_key r = key /\
             stored e (w_fs w') key (toBuffer c)) \/ w_fs w' = w_fs w.
Proof.
  unfold tstep. cbn [seg option_map]. intros H. apply (inj Some) in H.
  rewrite settle_bind in H.
  destruct (upload_finish e c o key w) as [[r|err] w1] eqn:E; rewrite ?settle_ret in H;
    injection H as <- <-.
  - left. apply upload_finish_run in E as (<- & Hf & Hm).
    by exists r.
  - right. by eapply upload_finish_Err.
Qed.

(** Every file on disk is the file of an upload that resolved, with its
    bytes. *)
Definition files_inv (xs : list op) (ts : list thread) (fs : fsys) : Prop :=
  forall q d m, entry fs q = Some (NFile d m) ->
  exists i c o r, xs !! i = Some (OUpload c o) /\ ts !! i = Some (Finished (Ok (RUpload r))) /\
    q = canon (getFilePath sp (res_key r)) /\ d = toBuffer c.

(** No directory where an upload's file goes. *)
Definition nodir_inv (fs : fsys) : Prop := forall q, file_path P e q -> ~ is_dir fs q.

(** [d] are the bytes of an upload that resolved and whose file is the
    file of the key [K]. *)
Definition served_by (xs : list op) (ts : list thread) (K : string) (d : list Byte.byte) : Prop :=
  exists i c o r, xs !! i = Some (OUpload c o) /\ ts !! i = Some (Finished (Ok (RUpload r))) /\
    canon (getFilePath sp (res_key r)) = canon (getFilePath sp K) /\ d = toBuffer c.

Lemma files_served xs ts fs K d m :
  files_inv xs ts fs -> entry fs (canon (getFilePath sp K)) = Some (NFile d m) ->
  served_by xs ts K d.
Proof.
  intros Hf He. destruct (Hf _ _ _ He) as (i & c & o & r & Hx & Hi & Hq & ->).
  exists i, c, o, r. by rewrite <- Hq.
Qed.

Lemma served_cstep xs ts w ts' w' K d :
  cstep P e (ts, w) (ts', w') -> served_by xs ts K d -> served_by xs ts' K d.
Proof.
  intros Hc (i & c & o & r & Hx & Hi & Hq & ->). exists i, c, o, r.
  split_and!; [done|by eapply (cstep_finished P e)|done|done].
Qed.

(** The disk after a step: files only where an upload resolved. *)
Lemma cstep_files xs ts w ts' w' :
  cstep P e (ts, w) (ts', w') -> Forall2 thread_of xs ts ->
  files_inv xs ts (w_fs w) -> files_inv xs ts' (w_fs w').
Proof.
  intros Hc Hth Hf. inversion Hc as [ts0 w0 s t t' w1 Hs Ht]; subst.
  destruct (tstep_evolves P e _ _ _ _ Ht) as [_ Ev].
  assert (Hold : forall q d m, entry (w_fs w) q = Some (NFile d m) ->
    exists i c o r, xs !! i = Some (OUpload c o) /\
      <[s:=t']> ts !! i = Some (Finished (Ok (RUpload r))) /\
      q = canon (getFilePath sp (res_key r)) /\ d = toBuffer c).
  { intros q d m Hq. destruct (Hf _ _ _ Hq) as (i & c & o & r & Hx & Hi & -> & ->).
    exists i, c, o, r. split_and!; [done|by eapply (cstep_finished P e)|done|done]. }
  intros q d m Hq. destruct (Ev q) as [Eq|[_ [[_ [m' Hd]]|[[Hfq _]|Hn]]]];
    [rewrite Eq in Hq; eauto|congruence| |congruence].
  destruct t as [x|c o [| | |key]|r]; simpl in Hfq; try done. subst q.
  destruct (write_step c o key w t' w' Ht) as [(r & -> & <- & _ & m0 & Hm0)|Hsame];
    [|rewrite Hsame in Hq; eauto].
  rewrite Hq in Hm0. injection Hm0 as -> _.
  destruct (Forall2_lookup_r _ _ _ _ _ Hth Hs) as (x & Hx & Htx). simpl in Htx. subst x.
  exists s, c, o, r. split_and!; [done| |done|done].
  apply list_lookup_insert_eq. by eapply lookup_lt_Some.
Qed.

(** What a request asked with [path] has established: the metadata it
    read is of its key, from a file served by an upload or from a
    directory, and the bytes it read are served by an upload; a 200
    answer carries such bytes with headers of such metadata. *)
Definition req_safe (xs : list op) (ts : list thread) (fs : fsys) (path : list string)
    (q : request) : Prop :=
  let K := join_on "/" path in
  match q with
  | RStart path' => path' = path
  | RWait K' metadata buffer =>
      K' = K /\
      (forall md, metadata = Some (Some md) -> md_key md = K /\
         ((exists d, served_by xs ts K d /\ md_size md = List.length d) \/
          is_dir fs (canon (getFilePath sp K)))) /\
      (forall d, buffer = Some d -> served_by xs ts K d)
  | RDone resp =>
      forall body hs, resp = FileResponse 200 body hs ->
      served_by xs ts K body /\
      exists md, hs = file_headers md /\ md_key md = K /\ md_size md = List.length body
  end.

(** The [catch] of a request answers no rejection with a file. *)
Lemma req_catch_safe xs ts fs path (m : M request) w q' w' :
  (forall q1 w1, m w = (Ok q1, w1) -> req_safe xs ts fs path q1) ->
  req_catch m w = (Ok q', w') -> req_safe xs ts fs path q'.
Proof.
  intros Hm. unfold req_catch, catch.
  destruct (m w) as [[q1|err] w1] eqn:E; [intros [= <- _]; eauto|].
  unfold bind. destruct (serve_error err w1) as [[resp|?] w2] eqn:S; [|done].
  intros [= <- _] body hs ->. by destruct (serve_error_not_file _ _ _ _ body hs S).
Qed.

(** An answer the client can act on: the file, or 404. *)
Definition answer_ok (resp : response) : Prop :=
  resp = not_found \/ exists body hs, resp = FileResponse 200 body hs.

(** What a request asked with [path] has established when none of its
    reads can fail but for a missing file. *)
Definition req_nofail (path : list string) (q : request) : Prop :=
  match q with
  | RStart path' => path' = path
  | RWait K _ _ => K = join_on "/" path
  | RDone resp => answer_ok resp
  end.

(** Lines 41-55 answer 200 or 404. *)
Lemma req_join_nofail path metadata buffer w r w' :
  req_join (join_on "/" path) metadata buffer w = (r, w') ->
  exists q, r = Ok q /\ req_nofail path q.
Proof.
  destruct metadata as [[md|]|], buffer; cbv [req_join respond bind ret];
    intros [= <- _]; eexists; (split; [reflexivity|]); simpl; try done;
    unfold answer_ok; eauto.
Qed.

(** A read followed by the join: when the read rejects only with
    [FileNotFoundError], the [catch] answers 404. *)
Lemma read_join_nofail {A} path (m : M A) (k : A -> M request) w q' w' :
  (forall a w1 r w2, k a w1 = (r, w2) -> exists q, r = Ok q /\ req_nofail path q) ->
  (forall err w1, m w = (Err err, w1) -> exists k0 fe, err = FileNotFoundError k0 fe) ->
  req_catch (let! a := m in k a) w = (Ok q', w') -> req_nofail path q'.
Proof.
  intros Hk Hm. unfold req_catch, catch, bind. destruct (m w) as [[a|err] w1] eqn:E.
  - destruct (k a w1) as [r w2] eqn:Ek. destruct (Hk _ _ _ _ Ek) as (q & -> & Hq).
    by intros [= <- _].
  - destruct (Hm _ _ eq_refl) as (k0 & fe & ->). cbn. intros [= <- _]. by left.
Qed.

Section Nofail.
Local Abbreviation st := (createLocalFileStorage P e).

(** A read of a request for a file with no fault and no directory keeps
    its answer to 200 or 404. *)
Lemma req_step_nofail path q meta w q' w' :
  join_on "/" path <> "" ->
  fs_faults (w_fs w) !! canon (getFilePath sp (join_on "/" path)) = None ->
  ~ is_dir (w_fs w) (canon (getFilePath sp (join_on "/" path))) ->
  req_nofail path q -> req_step "local" st meta q w = Some (q', w') -> req_nofail path q'.
Proof.
  intros Hk Hf Hd Hq. unfold req_step.
  destruct (req_seg "local" st meta q) as [mq|] eqn:Hs; [|done].
  destruct (mq w) as [[q1|err] w1] eqn:E; intros [= <- <-].
  destruct q as [path'|K metadata buffer|resp]; simpl in Hq; [subst path'|subst K|done].
  - cbn [req_seg] in Hs. injection Hs as <-. unfold req_start in E.
    rewrite bool_decide_eq_true_2 in E by done. cbn [negb] in E.
    rewrite decide_False in E by done. by injection E as <- _.
  - destruct meta; cbn [req_seg] in Hs;
      [destruct metadata as [md0|]|destruct buffer as [d0|]]; try done; injection Hs as <-.
    + refine (read_join_nofail path (getMetadata st (join_on "/" path))
                (fun md => req_join (join_on "/" path) (Some md) buffer) w q1 w1
                (fun a w1 r w2 => req_join_nofail path _ _ w1 r w2) _ E).
      intros err w2 Herr. by destruct (getMetadata_no_fault _ _ _ err w2 Hf Hd Herr).
    + refine (read_join_nofail path (download st (join_on "/" path))
                (fun d => req_join (join_on "/" path) metadata (Some d)) w q1 w1
                (fun a w1 r w2 => req_join_nofail path _ _ w1 r w2) _ E).
      intros err w2 Herr. exact (download_no_fault _ _ _ err w2 Hf Hd Herr).
Qed.

End Nofail.

Section Prefix.
Context (HP : prefix_ok P) (Hsp : Forall safe_seg (path_segs sp)).

Lemma ancestors_sp_shape : Forall (dir_path P e) (ancestors sp).
Proof. apply Forall_forall. intros q Hq. by apply (ancestors_sp_dirs P e Hsp). Qed.

Lemma ancestors_key_shape key :
  key_shape P e key -> Forall (dir_path P e) (ancestors (dirname (getFilePath sp key))).
Proof.
  intros Hk. rewrite (key_dirname P e HP Hsp key Hk). apply Forall_forall. intros q Hq.
  by apply (ancestors_root_dirs P e HP Hsp).
Qed.

(** A step keeps the shape of its thread. *)
Lemma tstep_shape t w t' w' : tstep P e t w = Some (t', w') -> tshape t -> tshape t'.
Proof.
  unfold tstep. destruct t as [[c o|k|k|k|k]|c o [[|a rest]| |key [|a rest]|key]|r];
    cbn [seg option_map]; intros H Hsh; try discriminate; apply (inj Some) in H;
    simpl in Hsh.
  8: { unfold buffer_step in H. rewrite settle_bind in H. cbn [ret] in H.
       rewrite settle_bind in H.
       destruct (buildKey P _ w) as [[key|err] w1] eqn:E; [|by injection H as <- _].
       apply (buildKey_shape P e HP) in E.
       cbn [exists_sync settle bind ret] in H. injection H as <- _.
       destruct (existsSync _ _); [done|]. split; [done|]. by apply ancestors_key_shape. }
  2-5: rewrite settle_bind in H;
    match type of H with context [run_op ?s ?x ?w] =>
      destruct (run_op s x w) as [[a|err] w1] eqn:E end;
    rewrite ?settle_ret in H; injection H as <- _; [|done];
    eapply run_op_not_upload in E; [|congruence]; by destruct a.
  6: { rewrite settle_bind in H.
       destruct (upload_finish e c o key w) as [[r|err] w1] eqn:E;
         rewrite ?settle_ret in H; injection H as <- _; [|done].
       by apply upload_finish_run in E as (<- & _ & _). }
  all: unfold upload_start, ensure_step, mkdir_step in H; settle_run H; simpl;
    try (match goal with |- context [if ?b then _ else _] => destruct b end;
         [done|apply ancestors_sp_shape]);
    try (by inversion Hsh); try by destruct Hsh as [Hk Hf]; inversion Hf.
Qed.

(** No step makes a directory where an upload's file goes. *)
Lemma cstep_nodir ts w ts' w' :
  cstep P e (ts, w) (ts', w') -> Forall tshape ts -> nodir_inv (w_fs w) -> nodir_inv (w_fs w').
Proof.
  intros Hc Hsh Hn q Hq [m Hd]. inversion Hc as [ts0 w0 s t t' w1 Hs Ht]; subst.
  destruct (tstep_evolves P e _ _ _ _ Ht) as [_ Ev].
  destruct (Ev q) as [Eq|[_ [[Hdq _]|[[_ (d & m' & Hf)]|Hno]]]]; [|..|congruence|congruence].
  - rewrite Eq in Hd. apply (Hn q Hq). by exists m.
  - pose proof (Forall_lookup_1 _ _ _ _ Hsh Hs) as Ht0.
    destruct t as [x|c o [[|a rest]| |key [|a rest]|key]|r]; simpl in Hdq, Ht0; try done;
      [|destruct Ht0 as [_ Ht0]]; subst a; inversion Ht0;
      by apply (dir_file_disjoint P e HP Hsp q).
Qed.

Lemma cstep_shapes ts w ts' w' :
  cstep P e (ts, w) (ts', w') -> Forall tshape ts -> Forall tshape ts'.
Proof.
  intros Hc Hsh. inversion Hc as [ts0 w0 s t t' w1 Hs Ht]; subst.
  apply Forall_insert; [done|]. eapply tstep_shape; [exact Ht|].
  exact (Forall_lookup_1 _ _ _ _ Hsh Hs).
Qed.

(** Two uploads that resolved with the same file are the same upload. *)
Lemma served_unique xs ts w K d1 d2 :
  keys_inv P ts w -> served_by xs ts K d1 -> served_by xs ts K d2 -> d1 = d2.
Proof.
  intros Kv (i1 & c1 & o1 & r1 & Hx1 & Hi1 & E1 & ->) (i2 & c2 & o2 & r2 & Hx2 & Hi2 & E2 & ->).
  assert (Hk : res_key r1 = res_key r2).
  { apply (key_path_inj sp (getStoragePath_nonempty e));
      [by eapply (drawn_key_ok P HP _ w i1 (Finished (Ok (RUpload r1))))
      |by eapply (drawn_key_ok P HP _ w i2 (Finished (Ok (RUpload r2))))|congruence]. }
  assert (i1 = i2) as <- by (eapply (proj2 Kv); [exact Hi1|exact Hi2|done|by rewrite Hk]).
  congruence.
Qed.

(** The file of a key some upload serves is a place of an upload's file. *)
Lemma served_file_path xs ts K d :
  Forall tshape ts -> served_by xs ts K d -> file_path P e (canon (getFilePath sp K)).
Proof.
  intros Hsh (i & c & o & r & _ & Hi & Hq & _). rewrite <- Hq.
  apply (key_file_path P e HP Hsp). exact (Forall_lookup_1 _ _ _ _ Hsh Hi).
Qed.

(** [Promise.all] resolving: the metadata and the bytes come from the
    same upload. *)
Lemma join_safe xs ts w fs path metadata buffer q' w1 w2 :
  Forall tshape ts -> keys_inv P ts w -> nodir_inv fs ->
  req_safe xs ts fs path (RWait (join_on "/" path) metadata buffer) ->
  req_join (join_on "/" path) metadata buffer w1 = (Ok q', w2) ->
  req_safe xs ts fs path q'.
Proof.
  intros Hsh Kv Hn Hq. pose proof Hq as (_ & Hm & Hb).
  destruct metadata as [[md|]|], buffer as [d|]; cbv [req_join respond bind ret];
    intros [= <- _]; try exact Hq; try done.
  intros body hs [= <- <-]. destruct (Hm md eq_refl) as [Hk [(d' & Hd' & Hs)|Hdir]];
    pose proof (Hb d eq_refl) as Hd.
  - rewrite (served_unique _ _ _ _ _ _ Kv Hd' Hd) in Hs. split; [done|]. by exists md.
  - by destruct (Hn _ (served_file_path _ _ _ _ Hsh Hd) Hdir).
Qed.

Section Serve.
Context (drv : string) (xs : list op).

Local Abbreviation st := (createLocalFileStorage P e).

(** A read of a request keeps what it has established. *)
Lemma req_step_safe ts w path q meta q' w' :
  Forall tshape ts -> keys_inv P ts w -> files_inv xs ts (w_fs w) -> nodir_inv (w_fs w) ->
  req_safe xs ts (w_fs w) path q -> req_step drv st meta q w = Some (q', w') ->
  req_safe xs ts (w_fs w) path q'.
Proof.
  intros Hsh Kv Hf Hn Hq. unfold req_step.
  destruct (req_seg drv st meta q) as [mq|] eqn:Hs; [|done].
  destruct (mq w) as [[q1|err] w1] eqn:E; intros [= <- <-].
  destruct q as [path'|K' metadata buffer|resp]; simpl in Hq;
    [subst path'|destruct Hq as (-> & Hm & Hb)|done].
  - cbn [req_seg] in Hs. injection Hs as <-. unfold req_start in E.
    destruct (bool_decide (drv = "local")); cbn [negb] in E;
      [destruct (decide (join_on "/" path = ""))|];
      injection E as <- _; simpl; [by intros ?? [=]|split_and!; [done|by intros ? [=]..]
                                  |by intros ?? [=]].
  - destruct meta; cbn [req_seg] in Hs;
      [destruct metadata as [md0|]|destruct buffer as [d0|]]; try done; injection Hs as <-;
      refine (req_catch_safe _ _ _ _ _ _ _ _ _ E); intros q2 w2 (a & w3 & Hr & Hj)%bind_Ok_inv;
      cbn [getMetadata download createLocalFileStorage] in Hr.
    + pose proof (getMetadata_read _ _ _ _ _ Hr); subst w3.
      apply (join_safe xs ts w (w_fs w) path (Some a) buffer q2 w w2 Hsh Kv Hn); [|exact Hj].
      split_and!; [done| |exact Hb]. intros md [= ->].
      destruct (getMetadata_some _ _ _ _ _ Hr) as [Hk [(d & m & He & Hsz)|Hdir]];
        split; [done| |done|by right]. left. exists d. split; [|done].
      by eapply files_served.
    + pose proof (download_read _ _ _ _ _ Hr); subst w3.
      apply (join_safe xs ts w (w_fs w) path metadata (Some a) q2 w w2 Hsh Kv Hn); [|exact Hj].
      split_and!; [done|exact Hm|]. intros d [= ->].
      destruct (download_some _ _ _ _ _ Hr) as [m He]. by eapply files_served.
Qed.

End Serve.

(** A step of a call keeps what the requests have established:
    resolved uploads stay resolved and directories stay. *)
Lemma req_safe_cstep xs ts w ts' w' path q :
  cstep P e (ts, w) (ts', w') ->
  req_safe xs ts (w_fs w) path q -> req_safe xs ts' (w_fs w') path q.
Proof.
  intros Hc. assert (Ev : exists D F, evolves D F (w_fs w) (w_fs w')).
  { inversion Hc as [ts0 w0 s t t' w1 Hs Ht]; subst. eexists _, _.
    exact (tstep_evolves P e _ _ _ _ Ht). }
  destruct Ev as (D & F & Ev).
  destruct q as [p|K metadata buffer|resp]; simpl; [done| |].
  - intros (-> & Hm & Hb). split_and!; [done| |by eauto using served_cstep].
    intros md Hmd. destruct (Hm md Hmd) as [Hk [(d & Hd & Hs)|Hdir]];
      split; [done| |done|by right; eapply is_dir_evolves].
    left. exists d. split; [by eapply served_cstep|done].
  - intros H body hs Hr. destruct (H body hs Hr) as [Hs Hmd].
    split; [by eapply served_cstep|done].
Qed.

Section Run.
Context (drv : string) (xs : list op) (paths : list (list string)).

(** The invariant of the configurations reached from the calls [xs] and
    the requests for [paths]. *)
Definition sinv (cfg : list thread * list request * world) : Prop :=
  let '(ts, rs, w) := cfg in
  Forall2 thread_of xs ts /\ keys_inv P ts w /\ Forall tshape ts /\
  files_inv xs ts (w_fs w) /\ nodir_inv (w_fs w) /\
  forall j q, rs !! j = Some q ->
    exists path, paths !! j = Some path /\ req_safe xs ts (w_fs w) path q.

Lemma sinv_step a b : gstep P e drv a b -> sinv a -> sinv b.
Proof.
  intros Hg. destruct Hg as [ts rs w ts' w' Hc|ts rs w j q meta q' w' Hq Hs];
    intros (Hth & Kv & Hsh & Hf & Hn & Hr).
  - pose proof Hc as Hc'. inversion Hc' as [ts0 w0 s t t' w1 Hs Ht]; subst.
    split_and!; [exact (cstep_thread_of P e xs _ _ Hc Hth)|by eapply keys_inv_step
                |by eapply cstep_shapes|by eapply cstep_files|by eapply cstep_nodir|].
    intros j q Hj. destruct (Hr j q Hj) as (path & H0 & Hq). exists path.
    split; [done|by eapply req_safe_cstep].
  - destruct (req_step_disk P e drv _ _ _ _ _ Hs) as [Hfs Hu].
    split_and!; [done| |done|by rewrite Hfs|by rewrite Hfs|].
    { destruct Kv as [K1 K2]. split; [|exact K2]. simpl. rewrite Hu. exact K1. }
    intros j0 q0 [(<- & <- & _)|(Hne & Hj0)]%list_lookup_insert_Some;
      [|rewrite Hfs; by apply Hr].
    destruct (Hr j q Hq) as (path & H0 & Hq0). exists path. split; [done|].
    rewrite Hfs. by eapply req_step_safe.
Qed.

Lemma rtc_sinv a b : rtc (gstep P e drv) a b -> sinv a -> sinv b.
Proof. induction 1; eauto using sinv_step. Qed.

Lemma sinv_init w0 :
  (forall q d m, entry (w_fs w0) q <> Some (NFile d m)) -> nodir_inv (w_fs w0) ->
  sinv (Pending <$> xs, RStart <$> paths, w0).
Proof.
  intros Hnf Hnd. destruct (pinv_init P e xs w0) as (Hth & Kv & _).
  split_and!; [exact Hth|exact Kv| |by intros q d m Hq; destruct (Hnf q d m Hq)|exact Hnd|].
  - apply Forall_fmap, Forall_forall. done.
  - intros j q (path & -> & Hp)%list_lookup_fmap_Some. by exists path.
Qed.

End Run.

(** C10. The route never mixes files: from a disk with no file and no
    directory where an upload's file goes, whatever its faults, along
    every interleaving of any calls (uploads, deletes of any key, reads)
    with requests, a request answered 200 is served the bytes of an
    upload that has resolved and whose file is the file the request
    names, with headers of metadata for the request's key whose size is
    the number of bytes served.  A delete or an upload racing the
    request's two reads never yields the bytes of one file with the
    headers of another. *)
Theorem get_serves_only_uploads drv xs paths w0 ts rs w j path body hs :
  (forall q d m, entry (w_fs w0) q <> Some (NFile d m)) ->
  (forall q, file_path P e q -> ~ is_dir (w_fs w0) q) ->
  rtc (gstep P e drv) (Pending <$> xs, RStart <$> paths, w0) (ts, rs, w) ->
  paths !! j = Some path -> rs !! j = Some (RDone (FileResponse 200 body hs)) ->
  exists i c o r md,
    xs !! i = Some (OUpload c o) /\ ts !! i = Some (Finished (Ok (RUpload r))) /\
    canon (getFilePath sp (res_key r)) = canon (getFilePath sp (join_on "/" path)) /\
    body = toBuffer c /\ hs = file_headers md /\
    md_key md = join_on "/" path /\ md_size md = List.length body.
Proof.
  intros Hnf Hnd Hrun Hp Hj.
  destruct (rtc_sinv drv xs paths _ _ Hrun (sinv_init xs paths w0 Hnf Hnd))
    as (_ & _ & _ & _ & _ & Hr).
  destruct (Hr j _ Hj) as (path' & Hp' & Hq). rewrite Hp in Hp'. injection Hp' as <-.
  destruct (Hq body hs eq_refl) as [(i & c & o & r & Hx & Hi & Hk & ->) (md & -> & Hmk & Hms)].
  by exists i, c, o, r, md.
Qed.

(** The key of an upload is never empty. *)
Lemma key_shape_nonempty key : key_shape P e key -> key <> "".
Proof.
  intros (n & Hn & E) ->. pose proof (getStoragePath_nonempty e) as Hne.
  unfold getFilePath, join in E.
  rewrite filter_cons_True in E by done.
  rewrite filter_cons_False, filter_nil in E by (intros H; by apply H).
  cbn [join_on String.concat] in E.
  destruct (normalize_segs _ Hne) as [_ H1].
  destruct (canon_of_segs (is_abs sp) (root_segs P e ++ [n])) as [_ H2].
  { apply Forall_app. split; [exact (root_segs_ok P e HP Hsp)|by apply Forall_singleton]. }
  rewrite <- E, H1 in H2. apply (f_equal List.length) in H2.
  unfold root_segs in H2. rewrite !length_app in H2. simpl in H2. lia.
Qed.

Section Found.
Context (j : nat) (path : list string).

Local Abbreviation qK := (canon (getFilePath sp (join_on "/" path))).

(** The invariant of [get_found_or_404]: the shapes of the threads, no
    directory where an upload's file goes, no fault at the file asked
    for, and the request [j] answered 200 or 404 if at all. *)
Definition finv (cfg : list thread * list request * world) : Prop :=
  let '(ts, rs, w) := cfg in
  Forall tshape ts /\ nodir_inv (w_fs w) /\ fs_faults (w_fs w) !! qK = None /\
  exists q, rs !! j = Some q /\ req_nofail path q.

Lemma finv_step (Hk : key_shape P e (join_on "/" path)) a b :
  gstep P e "local" a b -> finv a -> finv b.
Proof.
  intros Hg. destruct Hg as [ts rs w ts' w' Hc|ts rs w j' q meta q' w' Hq Hs];
    intros (Hsh & Hn & Hf & q0 & Hj & Hr).
  - inversion Hc as [ts0 w0 s t t' w1 Hs Ht]; subst.
    destruct (tstep_evolves P e _ _ _ _ Ht) as [Hfa _].
    split_and!; [by eapply cstep_shapes|by eapply cstep_nodir|by rewrite Hfa|eauto].
  - destruct (req_step_disk P e "local" _ _ _ _ _ Hs) as [Hfs _]. unfold finv. rewrite Hfs.
    split_and!; [done|done|done|].
    destruct (decide (j' = j)) as [->|Hne]; [|exists q0; by rewrite list_lookup_insert_ne].
    exists q'. split; [apply list_lookup_insert_eq; by eapply lookup_lt_Some|].
    rewrite Hj in Hq. injection Hq as ->.
    refine (req_step_nofail path q meta w q' w' (key_shape_nonempty _ Hk) Hf _ Hr Hs).
    exact (Hn _ (key_file_path P e HP Hsp _ Hk)).
Qed.

Lemma rtc_finv (Hk : key_shape P e (join_on "/" path)) a b :
  rtc (gstep P e "local") a b -> finv a -> finv b.
Proof. pose proof (finv_step Hk). induction 1; eauto. Qed.

End Found.

(** C11. No 500 under races: on a disk with no fault at the file asked
    for and no directory where an upload's file goes, a request for a
    key of the shape the uploads draw is answered 200 or 404 "File not
    found", whatever calls (uploads, deletes of any key, reads) run
    beside it and however they interleave with its two reads: a delete
    between the stat and the read turns the answer into a 404, never a
    500. *)
Theorem get_found_or_404 xs paths w0 ts rs w j path resp :
  nodir_inv (w_fs w0) -> key_shape P e (join_on "/" path) ->
  fs_faults (w_fs w0) !! canon (getFilePath sp (join_on "/" path)) = None ->
  rtc (gstep P e "local") (Pending <$> xs, RStart <$> paths, w0) (ts, rs, w) ->
  paths !! j = Some path -> rs !! j = Some (RDone resp) ->
  resp = not_found \/ exists body hs, resp = FileResponse 200 body hs.
Proof.
  intros Hn Hk Hf Hrun Hp Hj.
  destruct (rtc_finv j path Hk _ _ Hrun) as (_ & _ & _ & q & Hq & Hr).
  { split_and!; [by apply Forall_fmap, Forall_forall|done|done|].
    exists (RStart path). by rewrite list_lookup_fmap, Hp. }
  rewrite Hj in Hq. by injection Hq as <-.
Qed.

End Prefix.

(** ** Requests and calls never deadlock *)

(** A request waiting has a read still to complete. *)
Definition wait_open (q : request) : Prop :=
  match q with RWait _ (Some _) (Some _) => False | _ => True end.

Definition req_done (q : request) : bool := match q with RDone _ => true | _ => false end.

(** A request never steps into a wait with both reads done: the read
    that completes the pair answers it. *)
Lemma req_step_open drv (st : FileStorage world) meta q w q' w' :
  req_step drv st meta q w = Some (q', w') -> wait_open q'.
Proof.
  unfold req_step.
  destruct q as [p|K [md|] [buf|]|resp], meta; cbn [req_seg]; try done;
    unfold req_start, req_catch, req_join, respond, catch, bind, ret;
    repeat case_match; intros; simplify_eq/=; done.
Qed.

Lemma req_catch_total (m : M request) w : exists q' w', req_catch m w = (Ok q', w').
Proof.
  unfold req_catch, catch, bind. destruct (m w) as [[q|err] w1]; [eauto|].
  destruct err; cbv; eauto.
Qed.

(** A request not answered, with a read to complete, can step. *)
Lemma req_can_step drv (st : FileStorage world) q w :
  wait_open q -> req_done q = false -> exists meta q' w', req_step drv st meta q w = Some (q', w').
Proof.
  intros Ho Hd. unfold req_step.
  destruct q as [p|K [md|] [buf|]|resp]; simpl in Ho, Hd; try done.
  - exists true. cbn [req_seg]. unfold req_start.
    destruct (bool_decide (drv = "local")); [destruct (decide (join_on "/" p = ""))|];
      cbn; eauto.
  - exists false. cbn [req_seg]. by destruct (req_catch_total
      (let! buf := download st K in req_join K (Some md) (Some buf)) w) as (q' & w' & ->); eauto.
  - exists true. cbn [req_seg]. by destruct (req_catch_total
      (let! md := getMetadata st K in req_join K (Some md) (Some buf)) w) as (q' & w' & ->); eauto.
  - exists true. cbn [req_seg]. by destruct (req_catch_total
      (let! md := getMetadata st K in req_join K (Some md) None) w) as (q' & w' & ->); eauto.
Qed.

Section Deadlock.
Context (drv : string).

Local Abbreviation st := (createLocalFileStorage P e).

Lemma rtc_wait_open a b :
  rtc (gstep P e drv) a b -> Forall wait_open a.1.2 -> Forall wait_open b.1.2.
Proof.
  induction 1 as [|a b c Hab _ IH]; [done|]. intros Ho. apply IH.
  destruct Hab as [ts rs w ts' w' Hc|ts rs w j q meta q' w' Hq Hs]; [done|].
  apply Forall_insert; [done|]. by apply (req_step_open _ _ _ _ _ _ _ Hs).
Qed.

(** C17. No deadlock with requests: a configuration reached from calls
    and requests in which nothing can step has every call settled and
    every request answered. *)
Theorem gstuck_all_done xs paths w0 ts rs w :
  rtc (gstep P e drv) (Pending <$> xs, RStart <$> paths, w0) (ts, rs, w) ->
  (forall c', ~ gstep P e drv (ts, rs, w) c') ->
  Forall (fun t => exists r, t = Finished r) ts /\ Forall (fun q => exists resp, q = RDone resp) rs.
Proof.
  intros Hrun Hstuck. split.
  - apply (no_step_finished P e ts w). intros [ts' w'] Hc. apply (Hstuck (ts', rs, w')).
    by constructor.
  - pose proof (rtc_wait_open _ _ Hrun) as Ho. simpl in Ho.
    specialize (Ho ltac:(apply Forall_fmap, Forall_forall; done)).
    apply Forall_lookup. intros j q Hj.
    destruct (req_done q) eqn:Hd; [destruct q; by eauto|].
    destruct (req_can_step drv st q w (Forall_lookup_1 _ _ _ _ Ho Hj) Hd)
      as (meta & q' & w' & Hs).
    by destruct (Hstuck _ (GReq P e drv ts rs w j q meta q' w' Hj Hs)).
Qed.

Lemma gsettled_stuck ts rs w :
  forallb settled ts = true -> forallb req_done rs = true ->
  forall c', ~ gstep P e drv (ts, rs, w) c'.
Proof.
  intros Ht Hr c' Hg. inversion Hg as [ts0 rs0 w0 ts' w' Hc|ts0 rs0 w0 j q meta q' w' Hq Hs];
    subst.
  - by apply (settled_stuck P e ts w Ht (ts', w')).
  - assert (Hin : In q rs) by by apply list_elem_of_In, (list_elem_of_lookup_2 _ j).
    apply (proj1 (forallb_forall _ _) Hr) in Hin.
    by destruct q.
Qed.

End Deadlock.

End Shapes.

(** ** Concrete runs *)

(** The race of [Races.race_run] followed by a request for [08-notes.txt],
    its stat completing first. *)
Definition race_req : request * world :=
  run_req "local" (createLocalFileStorage "" ∅) [true; true; false]
    (RStart ["08-notes.txt"]) (snd race_run).

Lemma race_req_rtc :
  rtc (gstep "" ∅ "local") (Pending <$> race_calls, RStart <$> [["08-notes.txt"]], demo_world)
    (fst race_run, <[0 := race_req.1]> [RStart ["08-notes.txt"]], race_req.2).
Proof.
  unfold race_req.
  exact (rtc_trans _ _ _
           (rtc_calls "" ∅ "local" [RStart ["08-notes.txt"]]
              (Pending <$> race_calls, demo_world) race_run (run_sched_rtc _ _ _ _))
           (run_req_rtc "" ∅ "local" (fst race_run) [RStart ["08-notes.txt"]] (snd race_run) 0
              (RStart ["08-notes.txt"]) [true; true; false] eq_refl)).
Qed.

Lemma demo_no_file q d m : entry (w_fs demo_world) q <> Some (NFile d m).
Proof. cbv [entry demo_world w_fs fs_nodes]. case_match; [done|]. by rewrite lookup_empty. Qed.

Lemma demo_sp_safe : Forall safe_seg (path_segs (getStoragePath ∅)).
Proof. apply (bool_decide_unpack _). vm_compute. reflexivity. Qed.

Lemma demo_nodir : nodir_inv "" ∅ (w_fs demo_world).
Proof.
  intros q (n & Hn & ->) [m Hm]. unfold entry in Hm.
  rewrite canon_of_not_root in Hm.
  - cbv [demo_world w_fs fs_nodes] in Hm. by rewrite lookup_empty in Hm.
  - by destruct (root_segs "" ∅).
  - apply Forall_app. split; [|by apply Forall_singleton].
    apply (root_segs_ok "" ∅ (or_introl eq_refl) demo_sp_safe).
Qed.

(** After the race, the request is served the bytes of the second upload,
    whose file is [08-notes.txt]. *)
Lemma get_serves_only_uploads_witness :
  exists i c o r md,
    race_calls !! i = Some (OUpload c o) /\
    fst race_run !! i = Some (Finished (Ok (RUpload r))) /\
    canon (getFilePath (getStoragePath ∅) (res_key r)) =
    canon (getFilePath (getStoragePath ∅) (join_on "/" ["08-notes.txt"])) /\
    toBuffer (BufferContent hello) = toBuffer c /\
    file_headers (metadata_of "08-notes.txt" 5 100) = file_headers md /\
    md_key md = join_on "/" ["08-notes.txt"] /\
    md_size md = List.length (toBuffer (BufferContent hello)).
Proof.
  exact (get_serves_only_uploads "" ∅ (or_introl eq_refl) demo_sp_safe "local" race_calls
           [["08-notes.txt"]] demo_world (fst race_run)
           (<[0 := race_req.1]> [RStart ["08-notes.txt"]]) race_req.2 0 ["08-notes.txt"]
           (toBuffer (BufferContent hello)) (file_headers (metadata_of "08-notes.txt" 5 100))
           demo_no_file demo_nodir race_req_rtc eq_refl
           ltac:(vm_compute; reflexivity)).
Defined.

(** An upload of [07-notes.txt] resolves; a request for it completes its
    stat, seeing the file; a delete of the key runs; then the request's
    read completes. *)
Definition del_calls : list op :=
  [OUpload (BufferContent hello) notes_options; ODelete "07-notes.txt"].

Definition del_up : list thread * world :=
  run_sched "" ∅ [0; 0; 0; 0; 0] (Pending <$> del_calls, demo_world).

Definition del_stat : request * world :=
  run_req "local" (createLocalFileStorage "" ∅) [true; true] (RStart ["07-notes.txt"]) del_up.2.

Definition del_gone : list thread * world := run_sched "" ∅ [1] (del_up.1, del_stat.2).

Definition del_read : request * world :=
  run_req "local" (createLocalFileStorage "" ∅) [false] del_stat.1 del_gone.2.

Definition del_reqs : list request :=
  <[0 := del_read.1]> (<[0 := del_stat.1]> [RStart ["07-notes.txt"]]).

Lemma del_rtc :
  rtc (gstep "" ∅ "local") (Pending <$> del_calls, RStart <$> [["07-notes.txt"]], demo_world)
    (del_gone.1, del_reqs, del_read.2).
Proof.
  unfold del_reqs, del_read, del_gone, del_stat.
  exact (rtc_trans _ _ _
    (rtc_calls "" ∅ "local" [RStart ["07-notes.txt"]]
       (Pending <$> del_calls, demo_world) del_up (run_sched_rtc _ _ _ _))
    (rtc_trans _ _ _
      (run_req_rtc "" ∅ "local" del_up.1 [RStart ["07-notes.txt"]] del_up.2 0
         (RStart ["07-notes.txt"]) [true; true] eq_refl)
      (rtc_trans _ _ _
        (rtc_calls "" ∅ "local" (<[0 := del_stat.1]> [RStart ["07-notes.txt"]])
           (del_up.1, del_stat.2) del_gone (run_sched_rtc _ _ _ _))
        (run_req_rtc "" ∅ "local" del_gone.1 (<[0 := del_stat.1]> [RStart ["07-notes.txt"]])
           del_gone.2 0 del_stat.1 [false] eq_refl)))).
Qed.

Lemma demo_notes_shape : key_shape "" ∅ (join_on "/" ["07-notes.txt"]).
Proof.
  exists "07-notes.txt". split; [apply (bool_decide_unpack _)|]; vm_compute; reflexivity.
Qed.

(** The request's stat saw the file, its read found it deleted: the
    answer is 404. *)
Lemma get_found_or_404_witness :
  (exists md, del_stat.1 = RWait "07-notes.txt" (Some (Some md)) None) /\
  del_reqs !! 0 = Some (RDone not_found) /\
  (not_found = not_found \/ exists body hs, not_found = FileResponse 200 body hs).
Proof.
  split; [eexists; vm_compute; reflexivity|]. split; [vm_compute; reflexivity|].
  exact (get_found_or_404 "" ∅ (or_introl eq_refl) demo_sp_safe del_calls [["07-notes.txt"]]
           demo_world del_gone.1 del_reqs
           del_read.2 0 ["07-notes.txt"] not_found demo_nodir demo_notes_shape eq_refl
           del_rtc eq_refl ltac:(vm_compute; reflexivity)).
Defined.

(** The same configuration has nothing left to do. *)
Lemma gstuck_all_done_witness :
  Forall (fun t => exists r, t = Finished r) (fst race_run) /\
  Forall (fun q => exists resp, q = RDone resp) (<[0 := race_req.1]> [RStart ["08-notes.txt"]]).
Proof.
  exact (gstuck_all_done "" ∅ "local" race_calls [["08-notes.txt"]] demo_world (fst race_run)
           (<[0 := race_req.1]> [RStart ["08-notes.txt"]]) race_req.2 race_req_rtc
           (gsettled_stuck "" ∅ "local" (fst race_run)
              (<[0 := race_req.1]> [RStart ["08-notes.txt"]]) race_req.2
              ltac:(vm_compute; reflexivity) ltac:(vm_compute; reflexivity))).
Defined.

End RouteSafety.
